(** * cli-continues: tool summaries, verbosity configuration, Claude parser

    A shallow embedding of the TypeScript sources

    - [utils/tool-summarizer.ts]  (formatting helpers, [SummaryCollector]),
    - [config/verbosity.ts]       (presets, [deepMerge], [getPreset],
                                   [parseUserConfig], [loadConfig]),
    - [parsers/claude.ts]         ([isTerminationMessage],
                                   [extractSubagentResult],
                                   [extractPendingFromThinking], the recent
                                   conversation and the loop over the
                                   subagents of [extractClaudeContext]),
    - [parsers/cursor.ts]         (token usage and conversation of
                                   [extractCursorContext]),
    - the inspection of a session ([pad], [rpad], [countLines],
                                   [analyzeRawMessages]),

    followed by the properties proved about them.

    Conventions of the embedding.

    - A JavaScript string is the sequence of its code units.  Rocq's [string]
      carries the code units below 256, which is the range in which the
      heuristics of the sources discriminate (ASCII phrases, an ASCII regular
      expression, Latin-1 white space).  The arrow of the summaries, the only
      character of the sources outside that range, is kept as the bytes of
      the source file.
    - A JavaScript number is an integer of [Z].  Every number of the presets
      is one, and the schema ([int], [min 0]) accepts no other.  Up to
      [MAX_SAFE_INTEGER] every integer is a number; where the sources read
      or print a number ([parseInt], a template literal) the embedding
      rounds and prints as JavaScript does beyond it, and the statements
      about the acceptance of a number keep to that range.
    - An object is the list of its own properties in insertion order; this
      is the order of [Object.keys] for the keys that are not array indices
      ([is_index]), and the statements about the order of keys exclude
      those.  Every object has [Object.prototype] as prototype, whose
      properties are what a lookup with [obj[key]] or [key in obj] finds
      when the object has no own property of that name.
    - A function that can throw returns an [outcome]. *)

From Stdlib Require Import ZArith List String Ascii Bool Lia.
From Stdlib Require Import DecimalString DecimalPos.
Import ListNotations.
Set Warnings "-register-all".
Local Open Scope string_scope.
Local Open Scope Z_scope.

(* ================================================================== *)
(** * Part I: the program *)
(* ================================================================== *)

(** ** JavaScript strings, numbers and objects *)
Module Js.

(** [s.length] *)
Definition len (s : string) : Z := Z.of_nat (String.length s).

(** [s.slice(start, end)]: negative indices count from the end, both are
    clamped to the string. *)
Definition slice (s : string) (start end_ : Z) : string :=
  let l := len s in
  let from := if start <? 0 then Z.max (l + start) 0 else Z.min start l in
  let to := if end_ <? 0 then Z.max (l + end_) 0 else Z.min end_ l in
  substring (Z.to_nat from) (Z.to_nat (Z.max (to - from) 0)) s.

Definition code (c : ascii) : Z := Z.of_nat (nat_of_ascii c).

(** Lower case of one code unit: A-Z and the upper-case letters of Latin-1
    (all of U+00C0..U+00DE but the multiplication sign). *)
Definition lower_unit (c : ascii) : ascii :=
  let n := code c in
  if ((65 <=? n) && (n <=? 90)) || ((192 <=? n) && (n <=? 222) && negb (n =? 215))
  then ascii_of_nat (Z.to_nat (n + 32))
  else c.

(** [s.toLowerCase()] *)
Fixpoint toLowerCase (s : string) : string :=
  match s with
  | EmptyString => EmptyString
  | String c t => String (lower_unit c) (toLowerCase t)
  end.

(** [s.includes(sub)] *)
Fixpoint includes (s sub : string) : bool :=
  prefix sub s ||
  match s with
  | EmptyString => false
  | String _ t => includes t sub
  end.

(** White space of [trim] and of the class [\s]: TAB, LF, VT, FF, CR, space
    and the no-break space. *)
Definition is_space (c : ascii) : bool :=
  let n := code c in
  ((9 <=? n) && (n <=? 13)) || (n =? 32) || (n =? 160).

Fixpoint trimStart (s : string) : string :=
  match s with
  | EmptyString => EmptyString
  | String c t => if is_space c then trimStart t else s
  end.

Fixpoint trimEnd (s : string) : string :=
  match s with
  | EmptyString => EmptyString
  | String c t =>
      match trimEnd t with
      | EmptyString => if is_space c then EmptyString else String c EmptyString
      | t' => String c t'
      end
  end.

(** [s.trim()] *)
Definition trim (s : string) : string := trimEnd (trimStart s).

(** Decimal digits: the class [\d]. *)
Definition is_digit (c : ascii) : bool :=
  let n := code c in (48 <=? n) && (n <=? 57).

(** [Number.MAX_SAFE_INTEGER]: up to it every integer is a number. *)
Definition MAX_SAFE_INTEGER : Z := 2 ^ 53 - 1.

(** [Infinity].  The largest number is [2^1024 - 2^971]; the integer
    [2^1024], which is no number, stands for [Infinity]. *)
Definition Infinity : Z := 2 ^ 1024.

(** The number nearest to an integer that is not negative: the integer
    itself up to [MAX_SAFE_INTEGER], and beyond it the nearest integer with
    53 significant bits, the even one of two that are as near, or
    [Infinity]. *)
Definition toDouble (m : Z) : Z :=
  if m <=? MAX_SAFE_INTEGER then m
  else
    let e := Z.log2 m - 52 in
    let q := Z.shiftr m e in
    let r := m - Z.shiftl q e in
    let half := Z.shiftl 1 (e - 1) in
    let q := if (half <? r) || ((r =? half) && Z.odd q) then q + 1 else q in
    let v := Z.shiftl q e in
    if Infinity <=? v then Infinity else v.

(** The integer that decimal digits denote. *)
Definition digitsValue (digits : string) : Z :=
  fold_left (fun acc c => 10 * acc + (code c - 48))
            (list_ascii_of_string digits) 0.

(** [parseInt] of a string of decimal digits: the number nearest to the
    integer that the digits denote (as V8 computes it; the standard lets an
    implementation take the digits after the twentieth for zeros). *)
Definition parseInt (digits : string) : Z :=
  toDouble (digitsValue digits).

(** The decimal notation of an integer. *)
Definition decimal (n : Z) : string :=
  NilZero.string_of_int (Z.to_int n).

Definition digitsOf (x : Z) : Z := Z.of_nat (String.length (decimal x)).

(** [Number::toString] beyond [MAX_SAFE_INTEGER]: the digits [s] and the
    exponent [n] with [s * 10^(n - k)] nearest to the number, for the least
    count [k] of digits with which some [s * 10^(n - k)] still denotes the
    number.  [candidatesAt x d k] are the pairs for [k] digits, [d] being
    the count of the digits of [x]. *)
Definition candidatesAt (x d k : Z) : list (Z * Z) :=
  flat_map (fun n =>
              let e := n - k in
              if e <? 0 then []
              else
                let p := 10 ^ e in
                let lo := x / p in
                filter (fun sn =>
                          let s := fst sn in
                          (10 ^ (k - 1) <=? s) && (s <? 10 ^ k) &&
                          (toDouble (s * p) =? x))
                       [(lo, n); (lo + 1, n)])
           [d; d + 1].

Definition closer (x k : Z) (a b : Z * Z) : Z * Z :=
  let da := Z.abs (fst a * 10 ^ (snd a - k) - x) in
  let db := Z.abs (fst b * 10 ^ (snd b - k) - x) in
  if db <? da then b
  else if (db =? da) && Z.odd (fst a) then b
  else a.

Fixpoint shortest (fuel : nat) (x d k : Z) : Z * Z * Z :=
  match fuel with
  | O => (x, d, d)
  | S fuel =>
      match candidatesAt x d k with
      | c :: rest => (fold_left (closer x k) rest c, k)
      | [] => shortest fuel x d (k + 1)
      end
  end.

Definition zeros (count : Z) : string :=
  String.concat "" (List.repeat "0" (Z.to_nat count)).

(** The notation of a number that is an integer and not negative: the
    decimal notation up to [MAX_SAFE_INTEGER]; beyond it the shortest digits
    that denote the number, filled with zeros below [10^21] and in exponent
    notation from there; [Infinity] by its name. *)
Definition doubleToString (x : Z) : string :=
  if x <=? MAX_SAFE_INTEGER then decimal x
  else if x =? Infinity then "Infinity"
  else
    match shortest 17 x (digitsOf x) 1 with
    | (s, n, k) =>
        let digits := decimal s in
        if n <=? 21 then digits ++ zeros (n - k)
        else
          match digits with
          | String c EmptyString => digits ++ "e+" ++ decimal (n - 1)
          | String c rest => String c ("." ++ rest) ++ "e+" ++ decimal (n - 1)
          | EmptyString => digits
          end
    end.

(** A number inside a template literal, and [String(n)]. *)
Definition numberToString (n : Z) : string :=
  if n <? 0 then "-" ++ doubleToString (toDouble (- n))
  else doubleToString (toDouble n).

(** A key that is the decimal notation of an integer that is not negative.
    The array indices are among these keys; [Object.keys] enumerates them
    before the other keys, whatever the order of insertion. *)
Definition is_index (key : string) : bool :=
  match key with
  | EmptyString => false
  | String c rest =>
      forallb is_digit (list_ascii_of_string key) &&
      (negb (Ascii.eqb c "0") || String.eqb rest "")
  end.

(** The double quote and the line feed. *)
Definition dquote : string := String (ascii_of_nat 34) EmptyString.
Definition newline : string := String (ascii_of_nat 10) EmptyString.

(** [parts.join(sep)] *)
Fixpoint join (sep : string) (parts : list string) : string :=
  match parts with
  | [] => ""
  | [p] => p
  | p :: rest => p ++ sep ++ join sep rest
  end.

(** What a call can throw. *)
Inductive exn : Type :=
| Error (message : string)      (* [new Error(message)] *)
| DataCloneError                (* [structuredClone] of what cannot be cloned *)
| TypeError.

Inductive outcome (A : Type) : Type :=
| Returned (a : A)
| Thrown (e : exn).
Arguments Returned {A} a.
Arguments Thrown {A} e.

(** Values of configuration trees and of tool inputs. *)
Inductive value : Type :=
| VUndefined
| VNull
| VBool (b : bool)
| VNum (n : Z)
| VStr (s : string)
| VArr (items : list value)
| VObj (props : list (string * value)).

Definition obj : Type := list (string * value).

(** Own property of an object. *)
Fixpoint own (key : string) (o : obj) : option value :=
  match o with
  | [] => None
  | (k, v) :: rest => if String.eqb k key then Some v else own key rest
  end.

(** [o[key] = v] on the own properties: an existing property keeps its
    place, a new one comes last.  This is the place that [Object.keys] gives
    a key that is not an array index ([is_index]); an array index is
    enumerated before the other keys, in ascending order. *)
Fixpoint set (key : string) (v : value) (o : obj) : obj :=
  match o with
  | [] => [(key, v)]
  | (k, w) :: rest =>
      if String.eqb k key then (k, v) :: rest else (k, w) :: set key v rest
  end.

(** [Object.keys(o)] of an object whose keys are not array indices: the
    keys in the order of insertion. *)
Definition keys (o : obj) : list string := map fst o.

(** [v[key]] for a key that [Object.prototype] does not define: reading a
    property of [undefined] or [null] throws, a missing property is
    [undefined]. *)
Definition member (v : value) (key : string) : outcome value :=
  match v with
  | VUndefined | VNull => Thrown TypeError
  | VObj o => Returned (match own key o with Some w => w | None => VUndefined end)
  | _ => Returned VUndefined
  end.

(** The properties every object inherits from [Object.prototype]: eleven
    functions, and the accessor [__proto__], which yields [Object.prototype]
    itself. *)
Inductive inherited : Type :=
| InheritedFunction
| InheritedObjectPrototype.

Definition object_prototype_functions : list string :=
  [ "constructor"; "hasOwnProperty"; "isPrototypeOf"; "propertyIsEnumerable";
    "toLocaleString"; "toString"; "valueOf";
    "__defineGetter__"; "__defineSetter__";
    "__lookupGetter__"; "__lookupSetter__" ].

Definition mem (key : string) (l : list string) : bool :=
  existsb (String.eqb key) l.

Definition object_prototype (key : string) : option inherited :=
  if mem key object_prototype_functions then Some InheritedFunction
  else if String.eqb key "__proto__" then Some InheritedObjectPrototype
  else None.

(** What [o[key]] finds. *)
Inductive property : Type :=
| Own (v : value)
| Inherited (i : inherited)
| Absent.

Definition get (o : obj) (key : string) : property :=
  match own key o with
  | Some v => Own v
  | None =>
      match object_prototype key with
      | Some i => Inherited i
      | None => Absent
      end
  end.

(** [key in o] *)
Definition has (key : string) (o : obj) : bool :=
  match get o key with
  | Absent => false
  | _ => true
  end.

(** Truthiness of a value. *)
Definition truthy (v : value) : bool :=
  match v with
  | VUndefined | VNull => false
  | VBool b => b
  | VNum n => negb (n =? 0)
  | VStr s => negb (String.eqb s "")
  | VArr _ | VObj _ => true
  end.

End Js.
Export Js.

(** ** utils/tool-summarizer.ts *)
Module ToolSummarizer.

(** [truncate(s, max)]: a string longer than [max] is cut and gets three
    dots. *)
Definition truncate (s : string) (max : Z) : string :=
  if len s <=? max then s
  else slice s 0 (max - 3) ++ "...".

(** Case-insensitive match of an ASCII literal at the head of [s]; the rest
    of [s] on success.  Without the [u] flag only the ASCII letters fold onto
    one another. *)
Definition fold_unit (c : ascii) : ascii :=
  let n := code c in
  if (65 <=? n) && (n <=? 90) then ascii_of_nat (Z.to_nat (n + 32)) else c.

Fixpoint literal_ci (lit s : string) : option string :=
  match lit, s with
  | EmptyString, _ => Some s
  | String a lit', String b s' =>
      if Ascii.eqb (fold_unit a) (fold_unit b) then literal_ci lit' s' else None
  | String _ _, EmptyString => None
  end.

(** The longest head of [s] made of units of the class, and what follows. *)
Fixpoint span (class : ascii -> bool) (s : string) : string * string :=
  match s with
  | EmptyString => (EmptyString, EmptyString)
  | String c t =>
      if class c then let (h, r) := span class t in (String c h, r)
      else (EmptyString, s)
  end.

(** [ code[:\s]+(\d+)]: the tail of the pattern, giving group 1. *)
Definition code_and_digits (s : string) : option string :=
  match literal_ci " code" s with
  | None => None
  | Some r =>
      let (seps, r') := span (fun c => Ascii.eqb c ":" || is_space c) r in
      let (digits, _) := span is_digit r' in
      if String.eqb seps "" || String.eqb digits "" then None else Some digits
  end.

(** [/exit(?:ed with)? code[:\s]+(\d+)/i] at the head of [s]: the optional
    group is tried first and given up when the tail does not follow. *)
Definition exit_code_here (s : string) : option string :=
  match literal_ci "exit" s with
  | None => None
  | Some r =>
      match literal_ci "ed with" r with
      | Some r' =>
          match code_and_digits r' with
          | Some d => Some d
          | None => code_and_digits r
          end
      | None => code_and_digits r
      end
  end.

(** [text.match(...)]: the leftmost match. *)
Fixpoint exit_code_match (s : string) : option string :=
  match exit_code_here s with
  | Some d => Some d
  | None =>
      match s with
      | EmptyString => None
      | String _ t => exit_code_match t
      end
  end.

(** [extractExitCode(text?)] *)
Definition extractExitCode (text : option string) : option Z :=
  match text with
  | None => None
  | Some t =>
      if String.eqb t "" then None
      else match exit_code_match t with
           | Some d => Some (parseInt d)
           | None => None
           end
  end.

(** A result that is given and not empty. *)
Definition given (result : option string) : option string :=
  match result with
  | Some r => if String.eqb r "" then None else Some r
  | None => None
  end.

(** [shellSummary(cmd, result?)] *)
Definition shellSummary (cmd : string) (result : option string) : string :=
  let s := "$ " ++ truncate cmd 80 in
  match extractExitCode result with
  | Some exitCode => s ++ " → exit " ++ numberToString exitCode
  | None =>
      match given result with
      | Some r => s ++ " → " ++ dquote ++ truncate r 80 ++ dquote
      | None => s
      end
  end.

(** The numbers of a [VerbosityConfig] that the collector reads; [None]
    when the tree has no number there (which the type [VerbosityConfig]
    excludes). *)
Definition cap (config : value) (category field : string) : option Z :=
  match member config category with
  | Returned sub =>
      match member sub field with
      | Returned (VNum n) => Some n
      | _ => None
      end
  | Thrown _ => None
  end.

(** [buildCategoryLimits(config)] *)
Definition buildCategoryLimits (config : value) : option (list (string * Z)) :=
  match cap config "shell" "maxSamples", cap config "write" "maxSamples",
        cap config "edit" "maxSamples", cap config "read" "maxSamples",
        cap config "grep" "maxSamples",
        cap config "mcp" "maxSamplesPerNamespace" with
  | Some shell, Some write, Some edit, Some read, Some grep, Some mcp =>
      Some [ ("Bash", shell); ("shell", shell);
             ("Write", write); ("write", write);
             ("Edit", edit); ("edit", edit);
             ("Read", read); ("read", read);
             ("Grep", grep); ("Glob", grep);
             ("WebSearch", grep); ("WebFetch", grep);
             ("Task", mcp); ("TaskOutput", mcp); ("AskUserQuestion", mcp) ]
  | _, _, _, _, _, _ => None
  end.

Definition DEFAULT_SAMPLE_LIMIT : Z := 5.

(** Own entry of the table of limits. *)
Fixpoint configured (category : string) (limits : list (string * Z)) : option Z :=
  match limits with
  | [] => None
  | (k, n) :: rest => if String.eqb k category then Some n else configured category rest
  end.

(** [this.categoryLimits[category] ?? DEFAULT_SAMPLE_LIMIT]: the table is a
    plain object, so a category named like a property of [Object.prototype]
    finds that property, which is neither [null] nor [undefined]. *)
Inductive limit : Type :=
| Limit (n : Z)
| NotANumber (i : inherited).

Definition maxSamplesOf (limits : list (string * Z)) (category : string) : limit :=
  match configured category limits with
  | Some n => Limit n
  | None =>
      match object_prototype category with
      | Some i => NotANumber i
      | None => Limit DEFAULT_SAMPLE_LIMIT
      end
  end.

(** [length < maxSamples]: a function or an object converts to NaN, and no
    number is below NaN. *)
Definition below (length : Z) (maxSamples : limit) : bool :=
  match maxSamples with
  | Limit n => length <? n
  | NotANumber _ => false
  end.

Section Collector.

(** The structured data of a sample ([StructuredToolSample] of
    types/index.ts, which the collector only stores). *)
Variable StructuredToolSample : Type.

Record ToolSample : Type := {
  summary : string;
  data : option StructuredToolSample
}.

Record AddSampleOptions : Type := {
  opt_data : option StructuredToolSample;
  filePath : option string;
  isWrite : option bool;
  isError : option bool
}.

Record Entry : Type := {
  count : Z;
  errorCount : Z;
  samples : list ToolSample
}.

(** [data] is a [Map] and [files] a [Set]: both keep insertion order. *)
Record SummaryCollector : Type := {
  coll_data : list (string * Entry);
  files : list string;
  categoryLimits : list (string * Z)
}.

(** The fields of a new collector. *)
Definition emptyCollector (limits : list (string * Z)) : SummaryCollector :=
  {| coll_data := []; files := []; categoryLimits := limits |}.

(** [new SummaryCollector(config)] *)
Definition newCollector (config : value) : option SummaryCollector :=
  match buildCategoryLimits config with
  | Some limits => Some (emptyCollector limits)
  | None => None
  end.

Fixpoint map_get (category : string) (m : list (string * Entry)) : option Entry :=
  match m with
  | [] => None
  | (k, e) :: rest => if String.eqb k category then Some e else map_get category rest
  end.

Fixpoint map_set (category : string) (e : Entry) (m : list (string * Entry))
  : list (string * Entry) :=
  match m with
  | [] => [(category, e)]
  | (k, e') :: rest =>
      if String.eqb k category then (k, e) :: rest
      else (k, e') :: map_set category e rest
  end.

(** [this.files.add(filePath)] *)
Definition set_add (filePath : string) (s : list string) : list string :=
  if mem filePath s then s else (s ++ [filePath])%list.

(** An optional flag that is set. *)
Definition flag {A : Type} (opts : option A) (f : A -> option bool) : bool :=
  match opts with
  | Some o => match f o with Some b => b | None => false end
  | None => false
  end.

(** [opts?.filePath] when it is given and not empty. *)
Definition pathOf (opts : option AddSampleOptions) : option string :=
  match opts with
  | Some o => given (filePath o)
  | None => None
  end.

(** [add(category, summary, opts?)] *)
Definition add (c : SummaryCollector) (category summary_ : string)
    (opts : option AddSampleOptions) : SummaryCollector :=
  let entry :=
    match map_get category (coll_data c) with
    | Some e => e
    | None => {| count := 0; errorCount := 0; samples := [] |}
    end in
  let count' := count entry + 1 in
  let errorCount' :=
    if flag opts isError then errorCount entry + 1 else errorCount entry in
  let maxSamples := maxSamplesOf (categoryLimits c) category in
  let samples' :=
    if below (Z.of_nat (List.length (samples entry))) maxSamples
    then (samples entry ++
          [ {| summary := summary_;
               data := match opts with Some o => opt_data o | None => None end |} ])%list
    else samples entry in
  let files' :=
    if flag opts isWrite
    then match pathOf opts with
         | Some p => set_add p (files c)
         | None => files c
         end
    else files c in
  {| coll_data :=
       map_set category
         {| count := count'; errorCount := errorCount'; samples := samples' |}
         (coll_data c);
     files := files';
     categoryLimits := categoryLimits c |}.

(** [trackFile(filePath)] *)
Definition trackFile (c : SummaryCollector) (filePath_ : string) : SummaryCollector :=
  {| coll_data := coll_data c;
     files := set_add filePath_ (files c);
     categoryLimits := categoryLimits c |}.

(** [errorCount] is a field of the summary only when it is positive. *)
Record ToolUsageSummary : Type := {
  sum_name : string;
  sum_count : Z;
  sum_errorCount : option Z;
  sum_samples : list ToolSample
}.

(** [getSummaries()] *)
Definition getSummaries (c : SummaryCollector) : list ToolUsageSummary :=
  map (fun '(name, e) =>
         {| sum_name := name;
            sum_count := count e;
            sum_errorCount := if errorCount e >? 0 then Some (errorCount e) else None;
            sum_samples := samples e |})
      (coll_data c).

(** [getFilesModified()] *)
Definition getFilesModified (c : SummaryCollector) : list string := files c.

(** The calls a collector receives. *)
Inductive call : Type :=
| Add (category summary_ : string) (opts : option AddSampleOptions)
| TrackFile (filePath_ : string).

Definition perform (c : SummaryCollector) (k : call) : SummaryCollector :=
  match k with
  | Add category s opts => add c category s opts
  | TrackFile p => trackFile c p
  end.

Definition run (c : SummaryCollector) (calls : list call) : SummaryCollector :=
  fold_left perform calls c.

(** *** Vocabulary of the properties *)

(** The path that a call gives as modified: that of [trackFile], or the
    non-empty [filePath] of an [add] whose [isWrite] is set. *)
Definition written (k : call) : option string :=
  match k with
  | TrackFile p => Some p
  | Add _ _ (Some o) =>
      match isWrite o, filePath o with
      | Some true, Some p => if String.eqb p "" then None else Some p
      | _, _ => None
      end
  | Add _ _ None => None
  end.

(** The number of [add] calls for a category. *)
Definition is_add (category : string) (k : call) : bool :=
  match k with
  | Add c _ _ => String.eqb c category
  | TrackFile _ => false
  end.

Definition adds (category : string) (calls : list call) : Z :=
  Z.of_nat (List.length (filter (is_add category) calls)).

(** The summary of a category among those of [getSummaries]. *)
Definition summaryOf (category : string) (l : list ToolUsageSummary)
  : option ToolUsageSummary :=
  find (fun s => String.eqb (sum_name s) category) l.

End Collector.

(** The cap of a category: the configured one, or the default. *)
Definition capOf (limits : list (string * Z)) (category : string) : Z :=
  match configured category limits with
  | Some n => n
  | None => DEFAULT_SAMPLE_LIMIT
  end.

Arguments summary {_} _.
Arguments data {_} _.
Arguments count {_} _.
Arguments errorCount {_} _.
Arguments samples {_} _.
Arguments coll_data {_} _.
Arguments files {_} _.
Arguments categoryLimits {_} _.
Arguments sum_name {_} _.
Arguments sum_count {_} _.
Arguments sum_errorCount {_} _.
Arguments sum_samples {_} _.
Arguments opt_data {_} _.
Arguments filePath {_} _.
Arguments isWrite {_} _.
Arguments isError {_} _.
Arguments pathOf {_} _.
Arguments map_get {_} _ _.
Arguments map_set {_} _ _ _.
Arguments emptyCollector {_} _.
Arguments newCollector {_} _.
Arguments Add {_} _ _ _.
Arguments TrackFile {_} _.
Arguments add {_} _ _ _ _.
Arguments trackFile {_} _ _.
Arguments getSummaries {_} _.
Arguments getFilesModified {_} _.
Arguments run {_} _ _.
Arguments perform {_} _ _.
Arguments written {_} _.
Arguments is_add {_} _ _.
Arguments adds {_} _ _.
Arguments summaryOf {_} _ _.

End ToolSummarizer.

(** ** The subset of the zod library that config/verbosity.ts uses *)
Module Zod.

Inductive schema : Type :=
| ZNumber (min : option Z)       (* [z.number()], [z.number().int().min(m)] *)
| ZBoolean
| ZString
| ZEnum (options : list string)
| ZDefault (inner : schema) (dflt : value)
| ZOptional (inner : schema)
| ZUnion (alternatives : list schema)
| ZRecord (values : schema)      (* [z.record(z.string(), values)] *)
| ZObject (shape : list (string * schema)) (catchall : option schema).

(** [data[key]] for the keys of a shape. *)
Definition field (o : obj) (key : string) : value :=
  match own key o with
  | Some v => v
  | None => VUndefined
  end.

(** The fields of a shape, in the order of the shape; a field that parses
    to [undefined] is left out unless the data has the key. *)
Fixpoint parse_shape (p : schema -> value -> option value)
    (shape : list (string * schema)) (o : obj) : option obj :=
  match shape with
  | [] => Some []
  | (key, s) :: rest =>
      match p s (field o key), parse_shape p rest o with
      | Some v, Some out =>
          Some (match v, own key o with
                | VUndefined, None => out
                | _, _ => (key, v) :: out
                end)
      | _, _ => None
      end
  end.

(** Every entry of an object through one parser. *)
Fixpoint parse_entries (p : value -> option value) (o : obj) : option obj :=
  match o with
  | [] => Some []
  | (key, v) :: rest =>
      match p v, parse_entries p rest with
      | Some v', Some out => Some ((key, v') :: out)
      | _, _ => None
      end
  end.

(** The first alternative that accepts. *)
Fixpoint first_accepting (p : schema -> option value) (alternatives : list schema)
  : option value :=
  match alternatives with
  | [] => None
  | a :: rest =>
      match p a with
      | Some v => Some v
      | None => first_accepting p rest
      end
  end.

(** The entries whose key the shape does not name. *)
Definition unknown_keys (shape : list (string * schema)) (o : obj) : obj :=
  filter (fun kv => negb (mem (fst kv) (map fst shape))) o.

(** [schema.safeParse(v)]: the parsed data on success.  An object schema
    strips the keys it does not name, or parses them with its catchall.
    The numbers of a tree are integers, so [int()] has nothing to refuse up
    to [MAX_SAFE_INTEGER]; of an integer beyond it the versions of zod
    differ (zod 4 refuses it, zod 3 accepts it when it is a number), and the
    embedding accepts it: what the statements conclude from an acceptance
    holds under either version, and those that conclude an acceptance keep
    to [MAX_SAFE_INTEGER]. *)
Fixpoint safeParse (s : schema) (v : value) {struct s} : option value :=
  match s with
  | ZNumber min =>
      match v with
      | VNum n =>
          match min with
          | Some m => if m <=? n then Some v else None
          | None => Some v
          end
      | _ => None
      end
  | ZBoolean => match v with VBool _ => Some v | _ => None end
  | ZString => match v with VStr _ => Some v | _ => None end
  | ZEnum options =>
      match v with
      | VStr x => if mem x options then Some v else None
      | _ => None
      end
  | ZDefault inner dflt =>
      safeParse inner (match v with VUndefined => dflt | _ => v end)
  | ZOptional inner =>
      match v with
      | VUndefined => Some VUndefined
      | _ => safeParse inner v
      end
  | ZUnion alternatives => first_accepting (fun a => safeParse a v) alternatives
  | ZRecord values =>
      match v with
      | VObj o => option_map VObj (parse_entries (safeParse values) o)
      | _ => None
      end
  | ZObject shape catchall =>
      match v with
      | VObj o =>
          match parse_shape safeParse shape o with
          | Some known =>
              match catchall with
              | None => Some (VObj known)
              | Some c =>
                  match parse_entries (safeParse c) (unknown_keys shape o) with
                  | Some extra => Some (VObj (known ++ extra)%list)
                  | None => None
                  end
              end
          | None => None
          end
      | _ => None
      end
  end.

End Zod.

(** ** config/verbosity.ts *)
Module Verbosity.
Import Zod.

(** [z.number().int().min(0).default(d)] *)
Definition z_cap (d : Z) : schema := ZDefault (ZNumber (Some 0)) (VNum d).

(** [z.boolean().default(d)] *)
Definition z_flag (d : bool) : schema := ZDefault ZBoolean (VBool d).

(** [z.object(shape)] *)
Definition z_object (shape : list (string * schema)) : schema := ZObject shape None.

Definition ShellConfigSchema : schema :=
  z_object [ ("maxSamples", z_cap 8); ("stdoutLines", z_cap 5);
             ("stderrLines", z_cap 5); ("maxChars", z_cap 2000);
             ("showCommand", z_flag true); ("showExitCode", z_flag true) ].

Definition ReadConfigSchema : schema :=
  z_object [ ("maxSamples", z_cap 20); ("maxChars", z_cap 0);
             ("showLineRange", z_flag true) ].

Definition WriteConfigSchema : schema :=
  z_object [ ("maxSamples", z_cap 5); ("diffLines", z_cap 200);
             ("maxChars", z_cap 5000) ].

Definition EditConfigSchema : schema :=
  z_object [ ("maxSamples", z_cap 5); ("diffLines", z_cap 200);
             ("maxChars", z_cap 5000) ].

Definition GrepConfigSchema : schema :=
  z_object [ ("maxSamples", z_cap 10); ("maxChars", z_cap 500);
             ("showPattern", z_flag true); ("matchLines", z_cap 5) ].

Definition ThinkingToolsConfigSchema : schema :=
  z_object [ ("extractReasoning", z_flag true); ("maxReasoningChars", z_cap 500) ].

Definition McpConfigSchema : schema :=
  z_object [ ("maxSamplesPerNamespace", z_cap 5); ("paramChars", z_cap 100);
             ("resultChars", z_cap 100);
             ("thinkingTools", ThinkingToolsConfigSchema) ].

Definition TaskConfigSchema : schema :=
  z_object [ ("maxSamples", z_cap 5); ("includeSubagentResults", z_flag true);
             ("subagentResultChars", z_cap 500); ("recurseSubagents", z_flag false) ].

Definition ThinkingConfigSchema : schema :=
  z_object [ ("include", z_flag true); ("maxChars", z_cap 1000);
             ("maxHighlights", z_cap 5) ].

Definition CompactSummaryConfigSchema : schema :=
  z_object [ ("maxChars", z_cap 500) ].

Definition PendingTasksConfigSchema : schema :=
  z_object [ ("extractFromThinking", z_flag true);
             ("extractFromSubagents", z_flag true); ("maxTasks", z_cap 10) ].

Definition ClaudeAgentConfigSchema : schema :=
  z_object [ ("filterProgressEvents", z_flag true); ("parseSubagents", z_flag true);
             ("parseToolResultsDir", z_flag true);
             ("separateHumanFromToolResults", z_flag true) ].

Definition AgentFlagsSchema : schema :=
  ZRecord (ZUnion [ZBoolean; ZNumber None; ZString]).

Definition AgentsConfigSchema : schema :=
  ZObject [ ("claude", ClaudeAgentConfigSchema) ] (Some (ZOptional AgentFlagsSchema)).

Definition PresetNameSchema : schema :=
  ZEnum ["minimal"; "standard"; "verbose"; "full"].

Definition VerbosityConfigSchema : schema :=
  z_object [ ("preset", ZDefault PresetNameSchema (VStr "standard"));
             ("recentMessages", z_cap 10);
             ("maxMessageChars", z_cap 500);
             ("shell", ShellConfigSchema);
             ("read", ReadConfigSchema);
             ("write", WriteConfigSchema);
             ("edit", EditConfigSchema);
             ("grep", GrepConfigSchema);
             ("mcp", McpConfigSchema);
             ("task", TaskConfigSchema);
             ("thinking", ThinkingConfigSchema);
             ("compactSummary", CompactSummaryConfigSchema);
             ("pendingTasks", PendingTasksConfigSchema);
             ("agents", AgentsConfigSchema) ].

(** Low output (~2KB). Essentials only. *)
Definition MINIMAL_PRESET : obj :=
  [ ("preset", VStr "minimal");
    ("recentMessages", VNum 3);
    ("maxMessageChars", VNum 200);
    ("shell", VObj
       [ ("maxSamples", VNum 3); ("stdoutLines", VNum 3);
         ("stderrLines", VNum 3); ("maxChars", VNum 500);
         ("showCommand", VBool true); ("showExitCode", VBool true) ]);
    ("read", VObj
       [ ("maxSamples", VNum 5); ("maxChars", VNum 0);
         ("showLineRange", VBool false) ]);
    ("write", VObj
       [ ("maxSamples", VNum 3); ("diffLines", VNum 20);
         ("maxChars", VNum 1000) ]);
    ("edit", VObj
       [ ("maxSamples", VNum 3); ("diffLines", VNum 20);
         ("maxChars", VNum 1000) ]);
    ("grep", VObj
       [ ("maxSamples", VNum 3); ("maxChars", VNum 200);
         ("showPattern", VBool true); ("matchLines", VNum 2) ]);
    ("mcp", VObj
     [ ("maxSamplesPerNamespace", VNum 1);
       ("paramChars", VNum 50);
       ("resultChars", VNum 50);
       ("thinkingTools", VObj
          [ ("extractReasoning", VBool false); ("maxReasoningChars", VNum 0) ]) ]);
    ("task", VObj
       [ ("maxSamples", VNum 2); ("includeSubagentResults", VBool false);
         ("subagentResultChars", VNum 0); ("recurseSubagents", VBool false) ]);
    ("thinking", VObj
       [ ("include", VBool false); ("maxChars", VNum 0);
         ("maxHighlights", VNum 0) ]);
    ("compactSummary", VObj
       [ ("maxChars", VNum 200) ]);
    ("pendingTasks", VObj
       [ ("extractFromThinking", VBool false);
         ("extractFromSubagents", VBool false); ("maxTasks", VNum 5) ]);
    ("agents", VObj
     [ ("claude", VObj
          [ ("filterProgressEvents", VBool true);
            ("parseSubagents", VBool false);
            ("parseToolResultsDir", VBool false);
            ("separateHumanFromToolResults", VBool false) ]) ]) ].

(** Current behavior improved (~8KB). Good default for most handoffs. *)
Definition STANDARD_PRESET : obj :=
  [ ("preset", VStr "standard");
    ("recentMessages", VNum 10);
    ("maxMessageChars", VNum 500);
    ("shell", VObj
       [ ("maxSamples", VNum 8); ("stdoutLines", VNum 5);
         ("stderrLines", VNum 5); ("maxChars", VNum 2000);
         ("showCommand", VBool true); ("showExitCode", VBool true) ]);
    ("read", VObj
       [ ("maxSamples", VNum 20); ("maxChars", VNum 0);
         ("showLineRange", VBool true) ]);
    ("write", VObj
       [ ("maxSamples", VNum 5); ("diffLines", VNum 200);
         ("maxChars", VNum 5000) ]);
    ("edit", VObj
       [ ("maxSamples", VNum 5); ("diffLines", VNum 200);
         ("maxChars", VNum 5000) ]);
    ("grep", VObj
       [ ("maxSamples", VNum 10); ("maxChars", VNum 500);
         ("showPattern", VBool true); ("matchLines", VNum 5) ]);
    ("mcp", VObj
     [ ("maxSamplesPerNamespace", VNum 5);
       ("paramChars", VNum 100);
       ("resultChars", VNum 100);
       ("thinkingTools", VObj
          [ ("extractReasoning", VBool true); ("maxReasoningChars", VNum 500) ]) ]);
    ("task", VObj
       [ ("maxSamples", VNum 5); ("includeSubagentResults", VBool true);
         ("subagentResultChars", VNum 500); ("recurseSubagents", VBool false) ]);
    ("thinking", VObj
       [ ("include", VBool true); ("maxChars", VNum 1000);
         ("maxHighlights", VNum 5) ]);
    ("compactSummary", VObj
       [ ("maxChars", VNum 500) ]);
    ("pendingTasks", VObj
       [ ("extractFromThinking", VBool true);
         ("extractFromSubagents", VBool true); ("maxTasks", VNum 10) ]);
    ("agents", VObj
     [ ("claude", VObj
          [ ("filterProgressEvents", VBool true);
            ("parseSubagents", VBool true);
            ("parseToolResultsDir", VBool true);
            ("separateHumanFromToolResults", VBool true) ]) ]) ].

(** Rich context (~30KB). Useful for complex multi-file tasks. *)
Definition VERBOSE_PRESET : obj :=
  [ ("preset", VStr "verbose");
    ("recentMessages", VNum 20);
    ("maxMessageChars", VNum 2000);
    ("shell", VObj
       [ ("maxSamples", VNum 15); ("stdoutLines", VNum 20);
         ("stderrLines", VNum 20); ("maxChars", VNum 8000);
         ("showCommand", VBool true); ("showExitCode", VBool true) ]);
    ("read", VObj
       [ ("maxSamples", VNum 50); ("maxChars", VNum 500);
         ("showLineRange", VBool true) ]);
    ("write", VObj
       [ ("maxSamples", VNum 15); ("diffLines", VNum 500);
         ("maxChars", VNum 10000) ]);
    ("edit", VObj
       [ ("maxSamples", VNum 15); ("diffLines", VNum 500);
         ("maxChars", VNum 10000) ]);
    ("grep", VObj
       [ ("maxSamples", VNum 20); ("maxChars", VNum 1000);
         ("showPattern", VBool true); ("matchLines", VNum 10) ]);
    ("mcp", VObj
     [ ("maxSamplesPerNamespace", VNum 10);
       ("paramChars", VNum 500);
       ("resultChars", VNum 1000);
       ("thinkingTools", VObj
          [ ("extractReasoning", VBool true);
            ("maxReasoningChars", VNum 2000) ]) ]);
    ("task", VObj
       [ ("maxSamples", VNum 10); ("includeSubagentResults", VBool true);
         ("subagentResultChars", VNum 2000); ("recurseSubagents", VBool true) ]);
    ("thinking", VObj
       [ ("include", VBool true); ("maxChars", VNum 5000);
         ("maxHighlights", VNum 10) ]);
    ("compactSummary", VObj
       [ ("maxChars", VNum 1000) ]);
    ("pendingTasks", VObj
       [ ("extractFromThinking", VBool true);
         ("extractFromSubagents", VBool true); ("maxTasks", VNum 20) ]);
    ("agents", VObj
     [ ("claude", VObj
          [ ("filterProgressEvents", VBool true);
            ("parseSubagents", VBool true);
            ("parseToolResultsDir", VBool true);
            ("separateHumanFromToolResults", VBool true) ]) ]) ].

(** Everything (~unlimited). Full session data, no truncation. *)
Definition FULL_PRESET : obj :=
  [ ("preset", VStr "full");
    ("recentMessages", VNum 50);
    ("maxMessageChars", VNum 10000);
    ("shell", VObj
       [ ("maxSamples", VNum 999); ("stdoutLines", VNum 100);
         ("stderrLines", VNum 100); ("maxChars", VNum 50000);
         ("showCommand", VBool true); ("showExitCode", VBool true) ]);
    ("read", VObj
       [ ("maxSamples", VNum 999); ("maxChars", VNum 10000);
         ("showLineRange", VBool true) ]);
    ("write", VObj
       [ ("maxSamples", VNum 999); ("diffLines", VNum 999);
         ("maxChars", VNum 50000) ]);
    ("edit", VObj
       [ ("maxSamples", VNum 999); ("diffLines", VNum 999);
         ("maxChars", VNum 50000) ]);
    ("grep", VObj
       [ ("maxSamples", VNum 999); ("maxChars", VNum 10000);
         ("showPattern", VBool true); ("matchLines", VNum 50) ]);
    ("mcp", VObj
     [ ("maxSamplesPerNamespace", VNum 999);
       ("paramChars", VNum 10000);
       ("resultChars", VNum 10000);
       ("thinkingTools", VObj
          [ ("extractReasoning", VBool true);
            ("maxReasoningChars", VNum 10000) ]) ]);
    ("task", VObj
       [ ("maxSamples", VNum 999); ("includeSubagentResults", VBool true);
         ("subagentResultChars", VNum 10000);
         ("recurseSubagents", VBool true) ]);
    ("thinking", VObj
       [ ("include", VBool true); ("maxChars", VNum 50000);
         ("maxHighlights", VNum 50) ]);
    ("compactSummary", VObj
       [ ("maxChars", VNum 5000) ]);
    ("pendingTasks", VObj
       [ ("extractFromThinking", VBool true);
         ("extractFromSubagents", VBool true); ("maxTasks", VNum 100) ]);
    ("agents", VObj
     [ ("claude", VObj
          [ ("filterProgressEvents", VBool false);
            ("parseSubagents", VBool true);
            ("parseToolResultsDir", VBool true);
            ("separateHumanFromToolResults", VBool true) ]) ]) ].


Definition PRESETS : obj :=
  [ ("minimal", VObj MINIMAL_PRESET);
    ("standard", VObj STANDARD_PRESET);
    ("verbose", VObj VERBOSE_PRESET);
    ("full", VObj FULL_PRESET) ].

(** One round of the loop of [deepMerge]: the assignment of a key of the
    overrides, [recur] being the merge of the override into a base value.
    Assigning [result["__proto__"]] replaces the prototype of the result and
    leaves its own properties, which are what the embedding keeps, as they
    are.  The embedding reads [result[key]] among the own properties: after
    an own [__proto__] key of the overrides, [deepMerge] would also find
    what the replaced prototype holds under a later key that the result
    does not own, and merge into it. *)
Definition merge_key (recur : obj -> obj) (key : string) (overVal : value)
    (result : obj) : obj :=
  if String.eqb key "__proto__" then result
  else match own key result, overVal with
       | Some (VObj baseVal), VObj _ => set key (VObj (recur baseVal)) result
       | _, VUndefined => result
       | _, _ => set key overVal result
       end.

(** [deepMerge(base, overrides)], by recursion on the overrides.  The result
    starts as a copy of [base]; every key of the overrides is then
    assigned. *)
Fixpoint merge_into (overrides : value) (base : obj) {struct overrides} : obj :=
  match overrides with
  | VObj entries =>
      (fix loop (es : obj) (result : obj) {struct es} : obj :=
         match es with
         | [] => result
         | (key, overVal) :: rest =>
             loop rest (merge_key (merge_into overVal) key overVal result)
         end) entries base
  | _ => base
  end.

Definition deepMerge (base overrides : obj) : obj :=
  merge_into (VObj overrides) base.

(** [getPreset(name)].  [PRESETS[key]] is a lookup in a plain object: for
    the name of a property of [Object.prototype] it finds that property,
    which is truthy, and [structuredClone] is called on it: a function
    cannot be cloned, [Object.prototype] is cloned to an object without
    properties.  The own properties of [PRESETS] are objects, hence
    truthy. *)
Definition getPreset (name : string) : outcome obj :=
  match get PRESETS name with
  | Own (VObj preset) => Returned preset
  | Own _ | Absent =>
      Thrown (Error ("Unknown verbosity preset " ++ dquote ++ name ++ dquote ++
                     ". Valid presets: " ++ join ", " (keys PRESETS)))
  | Inherited InheritedFunction => Thrown DataCloneError
  | Inherited InheritedObjectPrototype => Returned []
  end.

(** [mergeConfig(base, overrides)] *)
Definition mergeConfig (base overrides : obj) : obj := deepMerge base overrides.

(** The preset that [parseUserConfig] takes as base:
    [typeof raw.preset === 'string' && raw.preset in PRESETS ? raw.preset : 'standard'] *)
Definition presetNameOf (raw : obj) : string :=
  match own "preset" raw with
  | Some (VStr name) => if has name PRESETS then name else "standard"
  | _ => "standard"
  end.

(** [parseUserConfig(raw)] *)
Definition parseUserConfig (raw : value) : outcome value :=
  match raw with
  | VObj o =>
      match getPreset (presetNameOf o) with
      | Thrown e => Thrown e
      | Returned base =>
          let merged := deepMerge base o in
          match safeParse VerbosityConfigSchema (VObj merged) with
          | Some data => Returned data
          | None => Returned (VObj base)
          end
      end
  | _ =>
      match getPreset "standard" with
      | Thrown e => Thrown e
      | Returned p => Returned (VObj p)
      end
  end.

(** *** Vocabulary of the properties *)

(** The value found by following own properties along a path. *)
Fixpoint at_path (path : list string) (v : value) : option value :=
  match path with
  | [] => Some v
  | key :: rest =>
      match v with
      | VObj o =>
          match own key o with
          | Some w => at_path rest w
          | None => None
          end
      | _ => None
      end
  end.

(** The schema of a field. *)
Fixpoint shape_get (key : string) (shape : list (string * schema)) : option schema :=
  match shape with
  | [] => None
  | (k, s) :: rest => if String.eqb k key then Some s else shape_get key rest
  end.

(** The schema found along a path through object schemas. *)
Fixpoint schema_at (path : list string) (s : schema) : option schema :=
  match path with
  | [] => Some s
  | key :: rest =>
      match s with
      | ZObject shape _ =>
          match shape_get key shape with
          | Some s' => schema_at rest s'
          | None => None
          end
      | _ => None
      end
  end.

(** The paths of the numeric caps of a schema: the numbers with a minimum. *)
Fixpoint caps_of (s : schema) : list (list string) :=
  match s with
  | ZDefault (ZNumber (Some _)) _ => [[]]
  | ZObject shape _ =>
      flat_map (fun ks => map (cons (fst ks)) (caps_of (snd ks))) shape
  | _ => []
  end.

Definition cap_paths : list (list string) := caps_of VerbosityConfigSchema.

(** The keys of an object are distinct, in every object of a tree. *)
Fixpoint distinct (l : list string) : bool :=
  match l with
  | [] => true
  | x :: rest => negb (mem x rest) && distinct rest
  end.

Fixpoint well_formed (v : value) : bool :=
  match v with
  | VObj o => distinct (map fst o) && forallb (fun kv => well_formed (snd kv)) o
  | VArr items => forallb well_formed items
  | _ => true
  end.

(** The properties of an object other than one. *)
Definition without (key : string) (o : obj) : obj :=
  filter (fun kv => negb (String.eqb (fst kv) key)) o.

End Verbosity.

(** ** parsers/claude.ts *)
Module Claude.
Import ToolSummarizer.

(** A content block of a message.  Of a [tool_use] block the parser reads
    the name and the input. *)
Inductive ContentBlock : Type :=
| TextBlock (text : string)
| ToolUse (name : string) (input : value)
| OtherBlock (type_ : string).

(** [message?.content]: missing, a string, or an array of blocks. *)
Inductive Content : Type :=
| NoContent
| TextContent (text : string)
| Blocks (blocks : list ContentBlock).

(** A line of a transcript. *)
Record ClaudeMessage : Type := {
  type : string;
  content : Content
}.

(** [isTerminationMessage(text)] *)
Definition isTerminationMessage (text : string) : bool :=
  let lower := toLowerCase text in
  includes lower "out of extra usage" ||
  includes lower "rate limit" ||
  includes lower "resets " ||
  ((len text <? 50) && (includes lower "usage" || includes lower "limit")).

Inductive Status : Type := completed | killed.

Record SubagentFile : Type := {
  text : option string;
  status : Status;
  toolCallCount : Z
}.

Definition is_tool_use (b : ContentBlock) : bool :=
  match b with
  | ToolUse _ _ => true
  | _ => false
  end.

(** The names of the thinking tools. *)
Definition thinkingToolNames : list string :=
  [ "crash-think-tool"; "must-use-think-tool-crash-crash";
    "sequential-thinking"; "think" ].

(** [input.next_action] when the input is truthy and the field a non-empty
    string. *)
Definition next_action (input : value) : option string :=
  match input with
  | VObj o =>
      match own "next_action" o with
      | Some (VStr a) => if String.eqb a "" then None else Some a
      | _ => None
      end
  | _ => None
  end.

(** One block of the inner loop of [extractPendingFromThinking], after the
    test of the bound. *)
Definition pending_block (tasks : list string) (b : ContentBlock) : list string :=
  match b with
  | ToolUse name input =>
      if mem name thinkingToolNames then
        match next_action input with
        | Some nextAction =>
            if len nextAction >? 5 then
              let trimmed := truncate (trim nextAction) 200 in
              if mem trimmed tasks then tasks else (tasks ++ [trimmed])%list
            else tasks
        | None => tasks
        end
      else tasks
  | _ => tasks
  end.

(** [for (const block of content)]: the loop is left when the bound is
    reached. *)
Fixpoint pending_blocks (maxTasks : Z) (blocks : list ContentBlock)
    (tasks : list string) : list string :=
  match blocks with
  | [] => tasks
  | b :: rest =>
      if Z.of_nat (List.length tasks) >=? maxTasks then tasks
      else pending_blocks maxTasks rest (pending_block tasks b)
  end.

(** [for (let i = messages.length - 1; i >= 0 && tasks.length < maxTasks; i--)]
    over the messages from the last to the first. *)
Fixpoint pending_messages (maxTasks : Z) (backwards : list ClaudeMessage)
    (tasks : list string) : list string :=
  match backwards with
  | [] => tasks
  | msg :: rest =>
      if Z.of_nat (List.length tasks) <? maxTasks then
        pending_messages maxTasks rest
          (if String.eqb (type msg) "assistant" then
             match content msg with
             | Blocks blocks => pending_blocks maxTasks blocks tasks
             | _ => tasks
             end
           else tasks)
      else tasks
  end.

(** [extractPendingFromThinking(messages, maxTasks)] *)
Definition extractPendingFromThinking (messages : list ClaudeMessage)
    (maxTasks : Z) : list string :=
  pending_messages maxTasks (rev messages) [].

(** *** Vocabulary of the properties of [extractPendingFromThinking] *)

(** The task that a block proposes: the next action of a thinking tool when
    it has more than 5 units, trimmed and truncated to 200. *)
Definition candidate (b : ContentBlock) : option string :=
  match b with
  | ToolUse name input =>
      if mem name thinkingToolNames then
        match next_action input with
        | Some nextAction =>
            if len nextAction >? 5 then Some (truncate (trim nextAction) 200)
            else None
        | None => None
        end
      else None
  | _ => None
  end.

Fixpoint proposed (blocks : list ContentBlock) : list string :=
  match blocks with
  | [] => []
  | b :: rest =>
      match candidate b with
      | Some t => t :: proposed rest
      | None => proposed rest
      end
  end.

(** The tasks that a message proposes, in the order of its blocks. *)
Definition candidates_of (m : ClaudeMessage) : list string :=
  if String.eqb (type m) "assistant" then
    match content m with
    | Blocks blocks => proposed blocks
    | _ => []
    end
  else [].

(** The tasks proposed by the messages, from the last message to the
    first. *)
Definition candidates (messages : list ClaudeMessage) : list string :=
  flat_map candidates_of (rev messages).

(** The first occurrence of every string that is not yet in [seen]. *)
Fixpoint dedup_from (seen : list string) (l : list string) : list string :=
  match l with
  | [] => []
  | x :: rest =>
      if mem x seen then dedup_from seen rest
      else x :: dedup_from (seen ++ [x])%list rest
  end.

Definition dedup (l : list string) : list string := dedup_from [] l.

(** A list that takes strings in order, each once, up to a bound. *)
Definition push (t : string) (tasks : list string) : list string :=
  if mem t tasks then tasks else (tasks ++ [t])%list.

Fixpoint push_all (bound : Z) (l : list string) (tasks : list string) : list string :=
  match l with
  | [] => tasks
  | t :: rest =>
      if Z.of_nat (List.length tasks) >=? bound then tasks
      else push_all bound rest (push t tasks)
  end.

(** An assistant message whose blocks are reasoning steps with the given
    next actions, in that order; and a message that is one step. *)
Definition reasoningSteps (nextActions : list string) : ClaudeMessage :=
  {| type := "assistant";
     content :=
       Blocks (map (fun a => ToolUse "sequential-thinking" (VObj [("next_action", VStr a)]))
                   nextActions) |}.

Definition reasoningStep (nextAction : string) : ClaudeMessage :=
  reasoningSteps [nextAction].

(** A message of the assistant with one text block. *)
Definition assistantText (t : string) : ClaudeMessage :=
  {| type := "assistant"; content := Blocks [TextBlock t] |}.

(** The text blocks of a content joined by line feeds: the extractor of the
    examples. *)
Definition textOfBlocks (c : Content) : string :=
  match c with
  | NoContent => ""
  | TextContent t => t
  | Blocks blocks =>
      join newline
        (flat_map (fun b => match b with TextBlock t => [t] | _ => [] end) blocks)
  end.

(** A parsed queue-operation event. *)
Record QueueOperationEntry : Type := {
  taskId : string;
  description : string;
  operation : string
}.

Record SubagentResult : Type := {
  sr_taskId : string;
  sr_description : string;
  sr_status : Status;
  sr_result : option string;
  sr_toolCallCount : Z
}.

(** What the loop over the subagents of [extractClaudeContext] reads of the
    configuration. *)
Record SubagentConfig : Type := {
  task_maxSamples : Z;
  task_subagentResultChars : Z;
  pendingTasks_extractFromSubagents : bool;
  pendingTasks_maxTasks : Z
}.

(** What that loop writes. *)
Record SubagentState : Type := {
  subagentCount : Z;
  subagentResults : list SubagentResult;
  reasoning : list string;
  pendingTasks : list string
}.

Section Files.

(** [extractTextFromBlocks] of utils/content.ts. *)
Variable extractTextFromBlocks : Content -> string.

(** [readJsonlFile] of utils/jsonl.ts: the lines of a file, or the error
    raised for a file that cannot be read. *)
Variable readJsonlFile : string -> outcome (list ClaudeMessage).

(** [path.join] *)
Variable path_join : list string -> string.

(** The state of the loop of [extractSubagentResult]. *)
Record Scan : Type := {
  scan_toolCallCount : Z;
  lastSubstantialText : option string;
  wasKilled : bool
}.

Definition scan_message (st : Scan) (m : ClaudeMessage) : Scan :=
  if String.eqb (type m) "assistant" then
    match content m with
    | Blocks blocks =>
        let toolCallCount' :=
          scan_toolCallCount st + Z.of_nat (List.length (filter is_tool_use blocks)) in
        let text_ := extractTextFromBlocks (content m) in
        let nonempty := negb (String.eqb text_ "") in
        {| scan_toolCallCount := toolCallCount';
           lastSubstantialText :=
             if nonempty && (len text_ >? 50) && negb (isTerminationMessage text_)
             then Some text_ else lastSubstantialText st;
           wasKilled :=
             if nonempty && isTerminationMessage text_ then true else wasKilled st |}
    | _ => st
    end
  else st.

(** [extractSubagentResult(filePath)] *)
Definition extractSubagentResult (filePath_ : string) : SubagentFile :=
  match readJsonlFile filePath_ with
  | Returned subMsgs =>
      let st :=
        fold_left scan_message subMsgs
          {| scan_toolCallCount := 0; lastSubstantialText := None; wasKilled := false |} in
      {| text := lastSubstantialText st;
         status := if wasKilled st then killed else completed;
         toolCallCount := scan_toolCallCount st |}
  | Thrown _ => {| text := None; status := killed; toolCallCount := 0 |}
  end.

(** The ids that have an operation other than [enqueue]. *)
Definition completedIds (queueOps : list QueueOperationEntry) : list string :=
  map taskId (filter (fun op => negb (String.eqb (operation op) "enqueue")) queueOps).

(** The first [enqueue] of every task id. *)
Fixpoint uniqueTasksFrom (seen : list string) (queueOps : list QueueOperationEntry)
  : list QueueOperationEntry :=
  match queueOps with
  | [] => []
  | op :: rest =>
      if negb (String.eqb (operation op) "enqueue") then uniqueTasksFrom seen rest
      else if mem (taskId op) seen then uniqueTasksFrom seen rest
      else op :: uniqueTasksFrom (taskId op :: seen) rest
  end.

Definition uniqueTasks (queueOps : list QueueOperationEntry) : list QueueOperationEntry :=
  uniqueTasksFrom [] queueOps.

(** The body of the loop over the tasks. *)
Definition resolve_task (cfg : SubagentConfig) (sessionDir : string)
    (done : list string) (st : SubagentState) (task : QueueOperationEntry)
  : SubagentState :=
  let subagentPath :=
    path_join [sessionDir; "subagents"; "agent-" ++ taskId task ++ ".jsonl"] in
  let r := extractSubagentResult subagentPath in
  let shown :=
    match given (text r) with
    | Some t => Some (truncate t (task_subagentResultChars cfg))
    | None => None
    end in
  let results :=
    (subagentResults st ++
     [ {| sr_taskId := taskId task;
          sr_description := description task;
          sr_status := status r;
          sr_result := shown;
          sr_toolCallCount := toolCallCount r |} ])%list in
  let incomplete := "Incomplete subagent: " ++ description task in
  match shown with
  | Some t =>
      let note := "Subagent " ++ dquote ++ description task ++ dquote ++ ": " ++ t in
      {| subagentCount := subagentCount st + 1;
         subagentResults := results;
         reasoning := (reasoning st ++ [note])%list;
         pendingTasks := pendingTasks st |}
  | None =>
      {| subagentCount := subagentCount st;
         subagentResults := results;
         reasoning := reasoning st;
         pendingTasks :=
           if negb (mem (taskId task) done)
              && pendingTasks_extractFromSubagents cfg
              && (Z.of_nat (List.length (pendingTasks st)) <? pendingTasks_maxTasks cfg)
           then (pendingTasks st ++ [incomplete])%list
           else pendingTasks st |}
  end.

(** [for (const task of uniqueTasks)], left when [subagentCount] reaches
    [cfg.task.maxSamples]. *)
Fixpoint resolve_tasks (cfg : SubagentConfig) (sessionDir : string)
    (done : list string) (tasks : list QueueOperationEntry) (st : SubagentState)
  : SubagentState :=
  match tasks with
  | [] => st
  | task :: rest =>
      if subagentCount st >=? task_maxSamples cfg then st
      else resolve_tasks cfg sessionDir done rest
             (resolve_task cfg sessionDir done st task)
  end.

(** *** Vocabulary of the properties of [extractSubagentResult] *)

Definition is_blocks (c : Content) : bool :=
  match c with
  | Blocks _ => true
  | _ => false
  end.

(** The texts that the scan reads: those of the assistant messages whose
    content is an array of blocks, in the order of the file. *)
Definition assistantTexts (messages : list ClaudeMessage) : list string :=
  map (fun m => extractTextFromBlocks (content m))
      (filter (fun m => String.eqb (type m) "assistant" && is_blocks (content m))
              messages).

(** A substantial text: not empty, longer than 50 units, no termination
    message. *)
Definition substantial (t : string) : bool :=
  negb (String.eqb t "") && (len t >? 50) && negb (isTerminationMessage t).

(** The status in the words of the specification: killed when a text is a
    termination message and no substantial text follows it. *)
Fixpoint killed_unless_followed (texts : list string) : bool :=
  match texts with
  | [] => false
  | t :: rest =>
      (isTerminationMessage t && negb (existsb substantial rest))
      || killed_unless_followed rest
  end.

(** The subagent part of [extractClaudeContext], from the queue operations
    of the session. *)
Definition resolveSubagents (cfg : SubagentConfig) (sessionDir : string)
    (queueOps : list QueueOperationEntry) (thinkingTasks : list string)
  : SubagentState :=
  resolve_tasks cfg sessionDir (completedIds queueOps) (uniqueTasks queueOps)
    {| subagentCount := 0; subagentResults := []; reasoning := [];
       pendingTasks := thinkingTasks |}.

End Files.

End Claude.

(** ** The extraction pipeline (utils/tool-extraction.ts) *)
Module ToolExtraction.
Import ToolSummarizer.

(** A content block of the normalized stream. *)
Inductive Block : Type :=
| Text (text : string)
| ToolInvocation (name : string) (arguments : value) (id : string)
| ToolResult (id : string) (text : string) (is_error : bool)
| Thinking (text : string).

Record Message : Type := {
  role : string;
  blocks : list Block
}.

Section Pipeline.

Variable StructuredToolSample : Type.

(** [classifyToolName] of types/tool-names.ts: the category of a tool. *)
Variable classifyToolName : string -> option string.

(** The command of a shell invocation and its structured sample. *)
Variable shellCommand : value -> string.
Variable shellData : string -> option string -> option StructuredToolSample.

(** The extractors of the other categories: what is handed to the
    collector, if anything, for a category, a tool name, its arguments and
    its result. *)
Variable otherSample :
  option string -> string -> value -> option (string * bool) ->
  option (string * string * AddSampleOptions StructuredToolSample).

(** The ceiling on the text kept of a result. *)
Variable resultCeiling : Z.

Definition ResultIndex : Type := list (string * (string * bool)).

Fixpoint index_get (id : string) (index : ResultIndex) : option (string * bool) :=
  match index with
  | [] => None
  | (k, r) :: rest => if String.eqb k id then Some r else index_get id rest
  end.

Fixpoint index_set (id : string) (r : string * bool) (index : ResultIndex) : ResultIndex :=
  match index with
  | [] => [(id, r)]
  | (k, r') :: rest =>
      if String.eqb k id then (k, r) :: rest else (k, r') :: index_set id r rest
  end.

(** Modelled from the spec: pass 1 of the pipeline, whose source is not
    part of the files at hand.  Every tool result is recorded under its
    correlation id, its text capped at the ceiling, with its error flag. *)
Definition pass1 (messages : list Message) : ResultIndex :=
  fold_left
    (fun index m =>
       fold_left
         (fun index b =>
            match b with
            | ToolResult id text is_error =>
                index_set id (slice text 0 resultCeiling, is_error) index
            | _ => index
            end)
         (blocks m) index)
    messages [].

(** Modelled from the spec: pass 2 of the pipeline, whose source is not
    part of the files at hand.  Every tool invocation is classified, its
    result looked up, and the sample of its category handed to the
    collector; for the shell category the summary is [shellSummary] of the
    command and the result, and the error flag that of the result. *)
Definition pass2 (index : ResultIndex) (messages : list Message)
    (c : SummaryCollector StructuredToolSample) : SummaryCollector StructuredToolSample :=
  fold_left
    (fun c m =>
       fold_left
         (fun c b =>
            match b with
            | ToolInvocation name arguments id =>
                let result := index_get id index in
                let category := classifyToolName name in
                let shell :=
                  match category with
                  | Some k => String.eqb k "shell"
                  | None => false
                  end in
                if shell then
                  let cmd := shellCommand arguments in
                  let text := option_map fst result in
                  add c "shell" (shellSummary cmd text)
                    (Some {| opt_data := shellData cmd text;
                             filePath := None;
                             isWrite := None;
                             isError := option_map snd result |})
                else
                  match otherSample category name arguments result with
                  | Some (k, s, opts) => add c k s (Some opts)
                  | None => c
                  end
            | _ => c
            end)
         (blocks m) c)
    messages c.

(** Modelled from the spec: the pipeline of section 4.4, from the stream and
    the configuration to the summaries and the modified files. *)
Definition extractToolData (messages : list Message) (config : value)
  : option (list (ToolUsageSummary StructuredToolSample) * list string) :=
  match newCollector config with
  | Some c0 =>
      let c := pass2 (pass1 messages) messages c0 in
      Some (getSummaries c, getFilesModified c)
  | None => None
  end.

End Pipeline.

End ToolExtraction.

(** ** Vocabulary of further properties of the collector *)
Module CollectorWords.
Import ToolSummarizer.

Section Words.

Variable D : Type.

(** The sample that an [add] call offers to its category. *)
Definition offered (category : string) (k : call D) : list (ToolSample D) :=
  match k with
  | Add c s opts =>
      if String.eqb c category
      then [ {| summary := s;
                data := match opts with Some o => opt_data o | None => None end |} ]
      else []
  | TrackFile _ => []
  end.

(** The samples offered to a category, in the order of the calls. *)
Definition samplesOf (category : string) (calls : list (call D)) : list (ToolSample D) :=
  flat_map (offered category) calls.

(** The number of [add] calls for a category whose [isError] is set. *)
Definition is_failed_add (category : string) (k : call D) : bool :=
  match k with
  | Add c _ (Some o) =>
      String.eqb c category && match isError o with Some b => b | None => false end
  | _ => false
  end.

Definition failures (category : string) (calls : list (call D)) : Z :=
  Z.of_nat (List.length (filter (is_failed_add category) calls)).

(** The categories of the [add] calls, in the order of the calls. *)
Definition categoriesOf (calls : list (call D)) : list string :=
  flat_map (fun k => match k with Add c _ _ => [c] | TrackFile _ => [] end) calls.

End Words.

Arguments offered {_} _ _.
Arguments samplesOf {_} _ _.
Arguments is_failed_add {_} _ _.
Arguments failures {_} _ _.
Arguments categoriesOf {_} _.

End CollectorWords.

(** ** Vocabulary of further properties of config/verbosity.ts *)
Module VerbosityWords.
Import Zod Verbosity.

(** A value that replaces the base value wholesale: anything but a plain
    object and [undefined]. *)
Definition replaces (v : value) : bool :=
  match v with
  | VObj _ | VUndefined => false
  | _ => true
  end.

(** The object that holds one value at a path that is not empty. *)
Fixpoint nest (path : list string) (v : value) : obj :=
  match path with
  | [] => []
  | [key] => [(key, v)]
  | key :: rest => [(key, VObj (nest rest v))]
  end.

(** Along a path a schema is made of objects without catchall whose keys
    are distinct, and ends in a cap whose default is not negative. *)
Fixpoint leads_to_cap (path : list string) (s : schema) : bool :=
  match path with
  | [] =>
      match s with
      | ZDefault (ZNumber (Some 0)) (VNum d) => 0 <=? d
      | _ => false
      end
  | key :: rest =>
      match s with
      | ZObject shape None =>
          distinct (map fst shape) &&
          match shape_get key shape with
          | Some s' => leads_to_cap rest s'
          | None => false
          end
      | _ => false
      end
  end.

End VerbosityWords.

(** ** config/verbosity.ts: loading *)
Module ConfigLoader.
Import Verbosity.

Section Load.

(** The file system, the YAML parser and the process, as [loadConfig] uses
    them.  [process.cwd()] and [os.homedir()] can throw (the working
    directory may have been removed), and so can [path.resolve], which asks
    for the working directory when its path is relative; [fs.existsSync]
    and [path.join] of strings return.  The logger is taken to return. *)
Variable existsSync : string -> bool.
Variable readFileSync : string -> outcome string.
Variable YAML_parse : string -> outcome value.
Variable path_resolve : list string -> outcome string.
Variable path_join : list string -> string.
Variable cwd : outcome string.
Variable homedir : outcome string.

(** The explicit candidate: [if (configPath) candidates.push(...)]. *)
Definition explicitCandidate (configPath : option string) : outcome (list string) :=
  match ToolSummarizer.given configPath with
  | Some p =>
      match path_resolve [p] with
      | Returned f => Returned [f]
      | Thrown e => Thrown e
      end
  | None => Returned []
  end.

(** The candidates, in the order of the resolution chain.  They are
    computed before the loop and outside its [try]: what throws here,
    [loadConfig] throws. *)
Definition candidates (configPath : option string) : outcome (list string) :=
  match explicitCandidate configPath with
  | Thrown e => Thrown e
  | Returned explicit =>
      match cwd with
      | Thrown e => Thrown e
      | Returned dir =>
          match path_resolve [dir; ".continues.yml"] with
          | Thrown e => Thrown e
          | Returned local =>
              match homedir with
              | Thrown e => Thrown e
              | Returned home =>
                  Returned (explicit ++
                            [local; path_join [home; ".continues"; "config.yml"]])%list
              end
          end
      end
  end.

(** The body of the [try]: read, parse, resolve. *)
Definition load_file (filePath_ : string) : outcome value :=
  match readFileSync filePath_ with
  | Thrown e => Thrown e
  | Returned content_ =>
      match YAML_parse content_ with
      | Thrown e => Thrown e
      | Returned raw => parseUserConfig raw
      end
  end.

(** [for (const filePath of candidates)]: a candidate that does not exist
    is passed over, and so is one whose loading throws; after the last one
    comes the standard preset. *)
Fixpoint load_from (files : list string) : outcome value :=
  match files with
  | [] =>
      match getPreset "standard" with
      | Returned p => Returned (VObj p)
      | Thrown e => Thrown e
      end
  | f :: rest =>
      if existsSync f then
        match load_file f with
        | Returned config => Returned config
        | Thrown _ => load_from rest
        end
      else load_from rest
  end.

(** [loadConfig(configPath?)] *)
Definition loadConfig (configPath : option string) : outcome value :=
  match candidates configPath with
  | Returned files => load_from files
  | Thrown e => Thrown e
  end.

End Load.

End ConfigLoader.

(** ** Arrays *)
Module JsArray.

(** [items.slice(start)]: a negative start counts from the end; [-0] is 0. *)
Definition slice_from {A : Type} (items : list A) (start : Z) : list A :=
  let l := Z.of_nat (List.length items) in
  let from := if start <? 0 then Z.max (l + start) 0 else Z.min start l in
  skipn (Z.to_nat from) items.

End JsArray.

(** ** parsers/claude.ts: the recent conversation *)
Module ClaudeContext.
Import ToolSummarizer Claude JsArray.

(** A line of a transcript with the other fields that the extraction of the
    conversation reads. *)
Record ClaudeLine : Type := {
  message : ClaudeMessage;
  isCompactSummary : bool;
  timestamp : string
}.

(** The date of a message is kept as the text it is built from. *)
Record ConversationMessage : Type := {
  role : string;
  text_ : string;
  date : string
}.

(** [hasHumanTextBlocks(msg)] *)
Definition hasHumanTextBlocks (msg : ClaudeMessage) : bool :=
  match content msg with
  | NoContent => false
  | TextContent t => negb (String.eqb t "")
  | Blocks blocks =>
      existsb (fun b => match b with
                        | TextBlock t => negb (String.eqb t "")
                        | _ => false
                        end) blocks
  end.

Section Conversation.

Variable extractTextFromBlocks : Content -> string.

(** What the extraction reads of the configuration:
    [cfg.recentMessages], [cfg.maxMessageChars] and
    [cfg.agents.claude.separateHumanFromToolResults]. *)
Variable recentMessages : Z.
Variable maxMessageChars : Z.
Variable separateHumanFromToolResults : bool.

(** The filter of the conversational messages. *)
Definition conversational (l : ClaudeLine) : bool :=
  let m := message l in
  if negb (String.eqb (type m) "user") && negb (String.eqb (type m) "assistant")
  then false
  else if isCompactSummary l then false
  else if separateHumanFromToolResults && String.eqb (type m) "user"
       then hasHumanTextBlocks m
       else true.

(** The body of the loop over the conversational messages: a message whose
    text is not empty is pushed. *)
Definition converted (l : ClaudeLine) : list ConversationMessage :=
  let m := message l in
  let c := extractTextFromBlocks (content m) in
  if String.eqb (type m) "user" then
    if String.eqb c "" then []
    else [ {| role := "user"; text_ := truncate c maxMessageChars; date := timestamp l |} ]
  else if String.eqb (type m) "assistant" then
    if String.eqb c "" then []
    else [ {| role := "assistant"; text_ := truncate c maxMessageChars;
              date := timestamp l |} ]
  else [].

(** The messages pushed before the final cut:
    [conversational.slice(-(cfg.recentMessages * 2))], converted. *)
Definition pushedMessages (lines : list ClaudeLine) : list ConversationMessage :=
  flat_map converted
    (slice_from (filter conversational lines) (- (recentMessages * 2))).

(** [finalMessages]: [recentMessages.slice(-cfg.recentMessages)] *)
Definition finalMessages (lines : list ClaudeLine) : list ConversationMessage :=
  slice_from (pushedMessages lines) (- recentMessages).

End Conversation.

(** *** Vocabulary of the properties of [extractSubagentResult] *)

(** The blocks that the scan of a subagent transcript counts. *)
Definition scannedBlocks (messages : list ClaudeMessage) : list ContentBlock :=
  flat_map (fun m =>
              if String.eqb (type m) "assistant" then
                match content m with
                | Blocks blocks => blocks
                | _ => []
                end
              else []) messages.

(** What the loop over the subagents appends to the pending tasks for a
    task. *)
Definition incompleteNote (task : QueueOperationEntry) : string :=
  "Incomplete subagent: " ++ description task.

End ClaudeContext.

(** ** parsers/cursor.ts: the context of a Cursor session *)
Module Cursor.
Import JsArray.

(** A block of a transcript line: a text block with its text (the empty
    string also stands for a missing text, both are falsy) or another
    block. *)
Inductive CursorBlock : Type :=
| Text (text : string)
| Other (type_ : string).

(** [usage]: the counters that are read; a missing counter is
    [undefined]. *)
Record Usage : Type := {
  input_tokens : option Z;
  output_tokens : option Z;
  cache_creation_input_tokens : option Z;
  cache_read_input_tokens : option Z
}.

(** A line of a transcript, with the pass-through fields [model] and
    [usage] at the top level and under [message].  A usage is an object or
    missing, as its type says. *)
Record CursorTranscriptLine : Type := {
  role : string;
  content : list CursorBlock;
  model : option string;
  message_model : option string;
  usage : option Usage;
  message_usage : option Usage
}.

(** [a ?? b] *)
Definition nullish {A : Type} (a b : option A) : option A :=
  match a with
  | Some x => Some x
  | None => b
  end.

(** [n || 0] *)
Definition or_zero (n : option Z) : Z :=
  match n with
  | Some n => if n =? 0 then 0 else n
  | None => 0
  end.

(** The fields of the session notes that the loop over the lines fills. *)
Record TokenUsage : Type := { input : Z; output : Z }.
Record CacheTokens : Type := { creation : Z; read : Z }.

Record SessionNotes : Type := {
  notes_model : option string;
  tokenUsage : option TokenUsage;
  cacheTokens : option CacheTokens
}.

Definition noNotes : SessionNotes :=
  {| notes_model := None; tokenUsage := None; cacheTokens := None |}.

Definition truthy_string (s : option string) : bool :=
  match s with
  | Some s => negb (String.eqb s "")
  | None => false
  end.

(** The body of the loop that aggregates token usage, cache tokens and the
    model. *)
Definition usage_step (notes : SessionNotes) (line : CursorTranscriptLine)
  : SessionNotes :=
  if negb (String.eqb (role line) "assistant") then notes
  else
    let m := nullish (model line) (message_model line) in
    let notes :=
      if truthy_string m && negb (truthy_string (notes_model notes))
      then {| notes_model := m; tokenUsage := tokenUsage notes;
              cacheTokens := cacheTokens notes |}
      else notes in
    match nullish (usage line) (message_usage line) with
    | None => notes
    | Some u =>
        let t := match tokenUsage notes with
                 | Some t => t
                 | None => {| input := 0; output := 0 |}
                 end in
        let t := {| input := input t + or_zero (input_tokens u);
                    output := output t + or_zero (output_tokens u) |} in
        let cacheCreation := or_zero (cache_creation_input_tokens u) in
        let cacheRead := or_zero (cache_read_input_tokens u) in
        let c :=
          if negb (cacheCreation =? 0) || negb (cacheRead =? 0) then
            let c := match cacheTokens notes with
                     | Some c => c
                     | None => {| creation := 0; read := 0 |}
                     end in
            Some {| creation := creation c + cacheCreation;
                    read := read c + cacheRead |}
          else cacheTokens notes in
        {| notes_model := notes_model notes; tokenUsage := Some t; cacheTokens := c |}
    end.

(** [for (const line of lines)] over the notes, which start without model
    and counters. *)
Definition aggregateUsage (lines : list CursorTranscriptLine) : SessionNotes :=
  fold_left usage_step lines noNotes.

Record ConversationMessage : Type := {
  msg_role : string;
  msg_content : string
}.

Section Conversation.

(** utils/content.ts is not part of the sources at hand. *)
Variable isSystemContent : string -> bool.
Variable cleanUserQueryText : string -> string.

(** The inner loop over the blocks of a line. *)
Definition textParts (line : CursorTranscriptLine) : list string :=
  flat_map (fun block =>
              match block with
              | Text text =>
                  if String.eqb text "" then []
                  else if isSystemContent text then []
                  else
                    let cleaned := if String.eqb (role line) "user"
                                   then cleanUserQueryText text else text in
                    if String.eqb cleaned "" then [] else [cleaned]
              | Other _ => []
              end) (content line).

(** The body of the loop over the lines: what it pushes. *)
Definition lineMessage (line : CursorTranscriptLine) : list ConversationMessage :=
  let text := trim (join newline (textParts line)) in
  if String.eqb text "" then []
  else [ {| msg_role := if String.eqb (role line) "user" then "user" else "assistant";
            msg_content := text |} ].

(** [trimmed]: [recentMessages.slice(-resolvedConfig.recentMessages)] *)
Definition trimmed (recentMessages : Z) (lines : list CursorTranscriptLine)
  : list ConversationMessage :=
  slice_from (flat_map lineMessage lines) (- recentMessages).

End Conversation.

(** *** Vocabulary of the properties of the token usage *)

(** The lines whose usage is counted: those of the assistant with a
    usage. *)
Definition usageOf (line : CursorTranscriptLine) : option Usage :=
  if String.eqb (role line) "assistant"
  then nullish (usage line) (message_usage line)
  else None.

Definition usages (lines : list CursorTranscriptLine) : list Usage :=
  flat_map (fun line => match usageOf line with
                        | Some u => [u]
                        | None => []
                        end) lines.

Definition total (counter : Usage -> option Z) (us : list Usage) : Z :=
  fold_right (fun u acc => or_zero (counter u) + acc) 0 us.

(** The models that the assistant lines name. *)
Definition models (lines : list CursorTranscriptLine) : list string :=
  flat_map (fun line =>
              if String.eqb (role line) "assistant" then
                match nullish (model line) (message_model line) with
                | Some m => if String.eqb m "" then [] else [m]
                | None => []
                end
              else []) lines.

End Cursor.

(** ** The inspection of a session: helpers and analysis *)
Module Inspect.

(** [s.repeat(count)] for a count that is not negative, the only case in
    [pad] and [rpad]. *)
Definition repeat (s : string) (count : Z) : string :=
  String.concat "" (List.repeat s (Z.to_nat count)).

(** [pad(s, width)] *)
Definition pad (s : string) (width : Z) : string :=
  if len s >=? width then s else s ++ repeat " " (width - len s).

(** [String(n)] of the argument of [rpad], a number or a string. *)
Inductive NumberOrString : Type :=
| Num (n : Z)
| Str (s : string).

Definition toString (n : NumberOrString) : string :=
  match n with
  | Num n => numberToString n
  | Str s => s
  end.

(** [rpad(n, width)] *)
Definition rpad (n : NumberOrString) (width : Z) : string :=
  let s := toString n in
  if len s >=? width then s else repeat " " (width - len s) ++ s.

Section Files.

(** [fs.readFileSync(filePath)]: the bytes of the file, or an error. *)
Variable readFileSync : string -> outcome (list Z).

(** [countLines(filePath)] *)
Definition countLines (filePath : string) : Z :=
  match readFileSync filePath with
  | Thrown _ => 0
  | Returned buf =>
      let count :=
        fold_left (fun count b => if b =? 10 then count + 1 else count) buf 0 in
      if (Z.of_nat (List.length buf) >? 0) &&
         negb (nth (List.length buf - 1) buf 0 =? 10)
      then count + 1
      else count
  end.

End Files.

(** A block of the content of a raw message: [type] and [name], the empty
    string standing for a missing (or otherwise falsy) field. *)
Record RawBlock : Type := {
  block_type : string;
  block_name : string
}.

(** [msg.message?.content]: an array of blocks, or anything else. *)
Inductive RawContent : Type :=
| NoBlocks
| BlockArray (blocks : list RawBlock).

(** A raw message, with the fields that the analysis reads; an empty
    string stands for a missing field. *)
Record RawMessage : Type := {
  msg_type : string;
  msg_model : string;
  msg_content : RawContent
}.

(** [a || b] on strings *)
Definition or_else (a b : string) : string :=
  if String.eqb a "" then b else a.

(** The key of a tool category in the map of the tools:
    [CATEGORY_LABELS[category] || category] is a label, the category itself,
    or what [Object.prototype] holds under that name. *)
Inductive Label : Type :=
| LabelText (s : string)
| LabelInherited (name : string).

Definition label_eqb (a b : Label) : bool :=
  match a, b with
  | LabelText s, LabelText t => String.eqb s t
  | LabelInherited s, LabelInherited t => String.eqb s t
  | _, _ => false
  end.

Definition CATEGORY_LABELS : obj :=
  [ ("shell", VStr "Shell/Bash");
    ("read", VStr "Read");
    ("write", VStr "Write");
    ("edit", VStr "Edit");
    ("grep", VStr "Grep/Glob");
    ("glob", VStr "Grep/Glob");
    ("search", VStr "Search");
    ("fetch", VStr "Fetch");
    ("task", VStr "Task (subagent)");
    ("ask", VStr "Ask");
    ("mcp", VStr "MCP");
    ("reasoning", VStr "Reasoning") ].

Definition labelOf (category : string) : Label :=
  match get CATEGORY_LABELS category with
  | Own (VStr s) => LabelText (or_else s category)
  | Own _ => LabelText category
  | Inherited _ => LabelInherited category
  | Absent => LabelText category
  end.

Section Counting.

Context {K : Type}.
Variable eqb : K -> K -> bool.

(** A [Map] of counters, in the order of insertion. *)
Definition counters : Type := list (K * Z).

(** [map.get(key) || 0] *)
Fixpoint counter (key : K) (m : counters) : Z :=
  match m with
  | [] => 0
  | (k, n) :: rest => if eqb k key then (if n =? 0 then 0 else n) else counter key rest
  end.

Fixpoint put (key : K) (n : Z) (m : counters) : counters :=
  match m with
  | [] => [(key, n)]
  | (k, n') :: rest =>
      if eqb k key then (k, n) :: rest else (k, n') :: put key n rest
  end.

(** [map.set(key, (map.get(key) || 0) + 1)] *)
Definition bump (key : K) (m : counters) : counters :=
  put key (counter key m + 1) m.

(** [Array.from(map.values()).reduce((a, b) => a + b, 0)] *)
Definition sum (m : counters) : Z :=
  fold_left (fun a b => a + b) (map snd m) 0.

End Counting.

Section Analysis.

(** types/tool-names.ts is not part of the sources at hand:
    [classifyToolName(name)], a category, or nothing (here the empty
    string). *)
Variable classifyToolName : string -> string.

Record Counts (K : Type) : Type := {
  byType : list (K * Z);
  total : Z
}.
Arguments byType {K} _.
Arguments total {K} _.

Record Analysis : Type := {
  events : Counts string;
  blocks : Counts string;
  tools : Counts Label;
  model : string
}.

(** The state of the loop: the three maps and the model. *)
Record Maps : Type := {
  eventMap : list (string * Z);
  blockMap : list (string * Z);
  toolMap : list (Label * Z);
  found_model : string
}.

(** The body of the loop over the blocks of a message. *)
Definition block_step (m : Maps) (block : RawBlock) : Maps :=
  let blockType := or_else (block_type block) "unknown" in
  let blockMap := bump String.eqb blockType (blockMap m) in
  let toolMap :=
    if String.eqb blockType "tool_use" && negb (String.eqb (block_name block) "") then
      let category := classifyToolName (block_name block) in
      if negb (String.eqb category "") then
        bump label_eqb (labelOf category) (toolMap m)
      else toolMap m
    else toolMap m in
  {| eventMap := eventMap m; blockMap := blockMap; toolMap := toolMap;
     found_model := found_model m |}.

(** The body of the loop over the messages. *)
Definition message_step (m : Maps) (msg : RawMessage) : Maps :=
  let type := or_else (msg_type msg) "unknown" in
  let m := {| eventMap := bump String.eqb type (eventMap m);
              blockMap := blockMap m; toolMap := toolMap m;
              found_model :=
                if String.eqb (found_model m) "" && negb (String.eqb (msg_model msg) "")
                then msg_model msg else found_model m |} in
  match msg_content msg with
  | NoBlocks => m
  | BlockArray content => fold_left block_step content m
  end.

(** [analyzeRawMessages(messages)] *)
Definition analyzeRawMessages (messages : list RawMessage) : Analysis :=
  let m := fold_left message_step messages
             {| eventMap := []; blockMap := []; toolMap := []; found_model := "" |} in
  {| events := {| byType := eventMap m; total := Z.of_nat (List.length messages) |};
     blocks := {| byType := blockMap m; total := sum (blockMap m) |};
     tools := {| byType := toolMap m; total := sum (toolMap m) |};
     model := found_model m |}.

(** *** Vocabulary of the properties of the analysis *)

Definition blocksOf (msg : RawMessage) : list RawBlock :=
  match msg_content msg with
  | NoBlocks => []
  | BlockArray content => content
  end.

(** The blocks of all messages, in their order. *)
Definition allBlocks (messages : list RawMessage) : list RawBlock :=
  flat_map blocksOf messages.

(** A call of a tool that has a name and a category. *)
Definition classified (block : RawBlock) : bool :=
  String.eqb (or_else (block_type block) "unknown") "tool_use" &&
  negb (String.eqb (block_name block) "") &&
  negb (String.eqb (classifyToolName (block_name block)) "").

Definition occurrences {A : Type} (p : A -> bool) (l : list A) : Z :=
  Z.of_nat (List.length (filter p l)).

(** The first model that a message names, if any. *)
Definition first_model (messages : list RawMessage) : string :=
  hd "" (filter (fun s => negb (String.eqb s "")) (map msg_model messages)).

End Analysis.

End Inspect.

(** ** The caps of the collector in the configuration *)
Module CollectorCaps.

(** The field of the configuration that [buildCategoryLimits] reads for a
    category. *)
Definition capPaths : list (string * list string) :=
  [ ("Bash", ["shell"; "maxSamples"]); ("shell", ["shell"; "maxSamples"]);
    ("Write", ["write"; "maxSamples"]); ("write", ["write"; "maxSamples"]);
    ("Edit", ["edit"; "maxSamples"]); ("edit", ["edit"; "maxSamples"]);
    ("Read", ["read"; "maxSamples"]); ("read", ["read"; "maxSamples"]);
    ("Grep", ["grep"; "maxSamples"]); ("Glob", ["grep"; "maxSamples"]);
    ("WebSearch", ["grep"; "maxSamples"]); ("WebFetch", ["grep"; "maxSamples"]);
    ("Task", ["mcp"; "maxSamplesPerNamespace"]);
    ("TaskOutput", ["mcp"; "maxSamplesPerNamespace"]);
    ("AskUserQuestion", ["mcp"; "maxSamplesPerNamespace"]) ].

Fixpoint pathIn (table : list (string * list string)) (category : string)
  : option (list string) :=
  match table with
  | [] => None
  | (k, path) :: rest => if String.eqb k category then Some path else pathIn rest category
  end.

(** The path of the configured cap of a category, if it has one. *)
Definition capPath (category : string) : option (list string) :=
  pathIn capPaths category.

End CollectorCaps.

(* ================================================================== *)
(** * Part II: properties *)
(* ================================================================== *)

(** ** Strings and objects *)
Module JsFacts.

Lemma length_append (a b : string) :
  String.length (a ++ b) = (String.length a + String.length b)%nat.
Proof. induction a as [|c a IH]; simpl; [reflexivity | now rewrite IH]. Qed.

(** The first [n] units of a string that has them. *)
Lemma substring_head (n : nat) : forall s : string,
  (n <= String.length s)%nat ->
  exists rest, s = substring 0 n s ++ rest /\ String.length (substring 0 n s) = n.
Proof.
  induction n as [|n IH]; intros s Hn.
  - exists s. destruct s; simpl; split; reflexivity.
  - destruct s as [|c s]; simpl in Hn; [lia|].
    destruct (IH s) as [rest [Hs Hl]]; [lia|].
    exists rest. simpl. split; [now rewrite <- Hs | now rewrite Hl].
Qed.

Lemma substring_all : forall s : string, substring 0 (String.length s) s = s.
Proof.
  induction s as [|c s IH]; simpl; [reflexivity | now rewrite IH].
Qed.

(** A slice from the start that reaches the end is the string. *)
Lemma slice_all (s : string) (n : Z) : len s <= n -> slice s 0 n = s.
Proof.
  unfold slice, len. intros Hn.
  assert (0 <= Z.of_nat (String.length s)) by lia.
  replace (0 <? 0) with false by reflexivity.
  replace (n <? 0) with false by (symmetry; apply Z.ltb_ge; lia).
  rewrite (Z.min_r n), Z.min_l, Z.sub_0_r, Z.max_l by lia.
  simpl Z.to_nat at 1. rewrite Nat2Z.id. apply substring_all.
Qed.

Lemma mem_In (x : string) (l : list string) : mem x l = true <-> In x l.
Proof.
  unfold mem. rewrite existsb_exists. split.
  - intros [y [Hy He]]. apply String.eqb_eq in He. now subst.
  - intros H. exists x. split; [assumption | apply String.eqb_refl].
Qed.

Lemma mem_false (x : string) (l : list string) : mem x l = false <-> ~ In x l.
Proof.
  rewrite <- mem_In. destruct (mem x l); split; congruence.
Qed.

Lemma own_set_same (k : string) (v : value) (o : obj) : own k (set k v o) = Some v.
Proof.
  induction o as [|[k' w] o IH]; simpl.
  - now rewrite String.eqb_refl.
  - destruct (String.eqb k' k) eqn:E; simpl; rewrite E; [reflexivity | exact IH].
Qed.

Lemma own_set_other (k k' : string) (v : value) (o : obj) :
  k <> k' -> own k (set k' v o) = own k o.
Proof.
  intros Hk. induction o as [|[k0 w] o IH]; simpl.
  - apply String.eqb_neq in Hk. rewrite String.eqb_sym in Hk. now rewrite Hk.
  - destruct (String.eqb k0 k') eqn:E; simpl.
    + apply String.eqb_eq in E. subst k0.
      assert (String.eqb k' k = false) as ->; [|reflexivity].
      apply String.eqb_neq. congruence.
    + destruct (String.eqb k0 k); [reflexivity | exact IH].
Qed.

Lemma own_In (k : string) (v : value) (o : obj) : own k o = Some v -> In (k, v) o.
Proof.
  induction o as [|[k' w] o IH]; simpl; [discriminate|].
  destruct (String.eqb k' k) eqn:E.
  - apply String.eqb_eq in E. intros [= ->]. left. now subst.
  - intros H. right. now apply IH.
Qed.

Lemma own_None (k : string) (o : obj) : ~ In k (keys o) -> own k o = None.
Proof.
  induction o as [|[k' w] o IH]; simpl; [reflexivity|].
  intros H. destruct (String.eqb k' k) eqn:E.
  - apply String.eqb_eq in E. tauto.
  - apply IH. tauto.
Qed.

End JsFacts.

(** ** utils/tool-summarizer.ts *)
Module SummarizerProps.
Import ToolSummarizer JsFacts.

(** C10.  For [max >= 3], [truncate(s, max)] is [s] when [s] has at most
    [max] units; otherwise it has exactly [max] units and is the first
    [max - 3] units of [s] followed by three dots. *)
Theorem truncate_spec (s : string) (max : Z) :
  3 <= max ->
  (len s <= max -> truncate s max = s) /\
  (max < len s ->
   len (truncate s max) = max /\
   exists head rest,
     s = head ++ rest /\ len head = max - 3 /\ truncate s max = head ++ "...").
Proof.
  intros Hmax. unfold truncate. split; intros Hlen.
  - apply Z.leb_le in Hlen. now rewrite Hlen.
  - assert ((len s <=? max) = false) as -> by (apply Z.leb_gt; exact Hlen).
    unfold slice, len in *.
    replace (0 <? 0) with false by reflexivity.
    replace (max - 3 <? 0) with false by (symmetry; apply Z.ltb_ge; lia).
    rewrite (Z.min_l 0), (Z.min_l (max - 3)), Z.sub_0_r, Z.max_l by lia.
    simpl Z.to_nat at 1.
    destruct (substring_head (Z.to_nat (max - 3)) s) as [rest [Hs Hl]]; [lia|].
    split.
    + rewrite length_append, Hl. simpl String.length. lia.
    + exists (substring 0 (Z.to_nat (max - 3)) s), rest.
      repeat split; [exact Hs | rewrite Hl; lia].
Qed.

Lemma truncate_spec_witness :
  len (truncate "abcdefghij" 5) = 5 /\ truncate "ab" 5 = "ab".
Proof.
  destruct (truncate_spec "abcdefghij" 5) as [_ H]; [lia|].
  destruct (truncate_spec "ab" 5) as [H' _]; [lia|].
  split.
  - apply H. vm_compute. reflexivity.
  - apply H'. vm_compute. discriminate.
Defined.

Section CollectorProps.

Context {D : Type}.
Implicit Types (c : SummaryCollector D) (k : call D) (calls : list (call D)).

Lemma files_perform c k :
  files (perform c k) =
  match written k with
  | Some p => set_add p (files c)
  | None => files c
  end.
Proof.
  destruct k as [category s [o|] | p]; simpl; try reflexivity.
  unfold flag, pathOf, given.
  destruct (isWrite o) as [[|]|]; destruct (filePath o) as [p|]; reflexivity.
Qed.

Lemma set_add_NoDup (p : string) (s : list string) :
  NoDup s -> NoDup (set_add p s).
Proof.
  intros Hs. unfold set_add. destruct (mem p s) eqn:E; [exact Hs|].
  apply mem_false in E. apply NoDup_app; [exact Hs | repeat constructor; easy |].
  intros x Hx [<-|[]]. contradiction.
Qed.

Lemma set_add_In (p q : string) (s : list string) :
  In q (set_add p s) <-> In q s \/ q = p.
Proof.
  unfold set_add. destruct (mem p s) eqn:E.
  - apply mem_In in E. split; [tauto | intros [H | ->]; assumption].
  - rewrite in_app_iff. simpl. intuition congruence.
Qed.

Lemma run_files calls : forall c,
  NoDup (files c) ->
  NoDup (files (run c calls)) /\
  forall p, In p (files (run c calls)) <->
            In p (files c) \/ In (Some p) (map written calls).
Proof.
  induction calls as [|k calls IH]; intros c Hc; simpl.
  - split; [exact Hc | intros p; tauto].
  - assert (Hk : NoDup (files (perform c k))).
    { rewrite files_perform. destruct (written k); [now apply set_add_NoDup | exact Hc]. }
    destruct (IH _ Hk) as [Hnd Hin]. split; [exact Hnd|].
    intros p. unfold run in Hin. rewrite Hin, files_perform.
    destruct (written k) as [q|].
    + rewrite set_add_In. split.
      * intros [[H | ->] | H]; auto.
      * intros [H | [[= ->] | H]]; auto.
    + split; [intros [H | H]; auto | intros [H | [[=] | H]]; auto].
Qed.

(** C8.  Whatever the calls of [add] and [trackFile], [getFilesModified()]
    holds every path at most once; it holds exactly the paths that the calls
    gave as modified. *)
Theorem getFilesModified_NoDup (limits : list (string * Z)) calls :
  NoDup (getFilesModified (run (emptyCollector limits) calls)) /\
  forall p, In p (getFilesModified (run (emptyCollector limits) calls)) <->
            In (Some p) (map written calls).
Proof.
  destruct (run_files calls (emptyCollector limits)) as [Hnd Hin];
    [constructor|].
  split; [exact Hnd|].
  intros p. unfold getFilesModified. rewrite Hin. simpl. tauto.
Qed.

Lemma map_get_set_same (cat : string) (e : Entry D) m :
  map_get cat (map_set cat e m) = Some e.
Proof.
  induction m as [|[k e'] m IH]; simpl.
  - now rewrite String.eqb_refl.
  - destruct (String.eqb k cat) eqn:E; simpl; rewrite E; [reflexivity | exact IH].
Qed.

Lemma map_get_set_other (cat cat' : string) (e : Entry D) m :
  String.eqb cat' cat = false ->
  map_get cat (map_set cat' e m) = map_get cat m.
Proof.
  intros Hk. induction m as [|[k e'] m IH]; simpl.
  - now rewrite Hk.
  - destruct (String.eqb k cat') eqn:E; simpl.
    + apply String.eqb_eq in E. subst k. now rewrite Hk.
    + destruct (String.eqb k cat); [reflexivity | exact IH].
Qed.

Lemma summaryOf_getSummaries c (cat : string) :
  summaryOf cat (getSummaries c) =
  option_map
    (fun e => {| sum_name := cat;
                 sum_count := count e;
                 sum_errorCount := if errorCount e >? 0 then Some (errorCount e) else None;
                 sum_samples := samples e |})
    (map_get cat (coll_data c)).
Proof.
  unfold summaryOf, getSummaries.
  induction (coll_data c) as [|[k e] m IH]; simpl; [reflexivity|].
  destruct (String.eqb k cat) eqn:E; [|exact IH].
  apply String.eqb_eq in E. now subst k.
Qed.

(** What [maxSamples] is when it is a number. *)
Lemma maxSamplesOf_Limit (limits : list (string * Z)) (cat : string) (n : Z) :
  maxSamplesOf limits cat = Limit n -> n = capOf limits cat.
Proof.
  unfold maxSamplesOf, capOf. destruct (configured cat limits).
  - now intros [= ->].
  - destruct (object_prototype cat); [discriminate | now intros [= <-]].
Qed.

(** One call keeps every entry exact in its count and within its cap. *)
Lemma perform_entries c k (f : string -> Z) :
  (forall cat, 0 <= capOf (categoryLimits c) cat) ->
  (forall cat,
     match map_get cat (coll_data c) with
     | Some e => count e = f cat /\ 0 < f cat /\
                 Z.of_nat (List.length (samples e)) <= capOf (categoryLimits c) cat
     | None => f cat = 0
     end) ->
  categoryLimits (perform c k) = categoryLimits c /\
  forall cat,
    let n := f cat + (if is_add cat k then 1 else 0) in
    match map_get cat (coll_data (perform c k)) with
    | Some e => count e = n /\ 0 < n /\
                Z.of_nat (List.length (samples e)) <= capOf (categoryLimits c) cat
    | None => n = 0
    end.
Proof.
  intros Hcap Hinv. destruct k as [category s opts | p]; simpl.
  2:{ split; [reflexivity|]. intros cat. specialize (Hinv cat).
      destruct (map_get cat (coll_data c)); rewrite Z.add_0_r; exact Hinv. }
  split; [reflexivity|]. intros cat.
  destruct (String.eqb category cat) eqn:E.
  - apply String.eqb_eq in E. subst category.
    rewrite map_get_set_same. simpl.
    specialize (Hinv cat). specialize (Hcap cat).
    assert (Hold :
      count (match map_get cat (coll_data c) with
             | Some e => e
             | None => {| count := 0; errorCount := 0; samples := [] |}
             end) = f cat /\ 0 <= f cat /\
      Z.of_nat (List.length
        (samples (match map_get cat (coll_data c) with
                  | Some e => e
                  | None => {| count := 0; errorCount := 0; samples := [] |}
                  end))) <= capOf (categoryLimits c) cat).
    { destruct (map_get cat (coll_data c)); simpl; [intuition lia | lia]. }
    destruct Hold as [Hc [Hf Hs]].
    split; [lia|]. split; [lia|].
    destruct (maxSamplesOf (categoryLimits c) cat) as [n|i] eqn:Hmax; simpl;
      [|exact Hs].
    apply maxSamplesOf_Limit in Hmax.
    destruct (Z.ltb_spec (Z.of_nat (List.length
        (samples (match map_get cat (coll_data c) with
                  | Some e => e
                  | None => {| count := 0; errorCount := 0; samples := [] |}
                  end)))) n); [|exact Hs].
    rewrite length_app. simpl. lia.
  - rewrite map_get_set_other by exact E.
    specialize (Hinv cat).
    destruct (map_get cat (coll_data c)); rewrite Z.add_0_r; exact Hinv.
Qed.

Lemma adds_cons (cat : string) k calls :
  adds cat (k :: calls) = (if is_add cat k then 1 else 0) + adds cat calls.
Proof.
  unfold adds. simpl. destruct (is_add cat k); simpl List.length; lia.
Qed.

Lemma run_entries calls : forall c (f : string -> Z),
  (forall cat, 0 <= capOf (categoryLimits c) cat) ->
  (forall cat,
     match map_get cat (coll_data c) with
     | Some e => count e = f cat /\ 0 < f cat /\
                 Z.of_nat (List.length (samples e)) <= capOf (categoryLimits c) cat
     | None => f cat = 0
     end) ->
  forall cat,
    let n := f cat + adds cat calls in
    match map_get cat (coll_data (run c calls)) with
    | Some e => count e = n /\ 0 < n /\
                Z.of_nat (List.length (samples e)) <= capOf (categoryLimits c) cat
    | None => n = 0
    end.
Proof.
  induction calls as [|k calls IH]; intros c f Hcap Hinv cat; simpl.
  - specialize (Hinv cat). unfold adds. simpl.
    destruct (map_get cat (coll_data c)); rewrite Z.add_0_r; exact Hinv.
  - destruct (perform_entries c k f Hcap Hinv) as [Hlim Hstep].
    rewrite adds_cons, Z.add_assoc.
    rewrite <- Hlim.
    apply (IH (perform c k) (fun cat => f cat + (if is_add cat k then 1 else 0))).
    + intros cat'. rewrite Hlim. apply Hcap.
    + intros cat'. rewrite Hlim. apply Hstep.
Qed.

End CollectorProps.

End SummarizerProps.

(** ** Validation *)
Module ZodFacts.
Import Zod JsFacts.

Section Shape.

Variable p : schema -> value -> option value.

(** A shape accepts only when each of its fields accepts. *)
Lemma parse_shape_None shape (o : obj) (key : string) (s : schema) :
  In (key, s) shape -> p s (field o key) = None -> parse_shape p shape o = None.
Proof.
  induction shape as [|[k s'] shape IH]; simpl; [easy|].
  intros [[= -> ->] | Hin] Hp.
  - now rewrite Hp.
  - rewrite (IH Hin Hp). now destruct (p s' (field o k)).
Qed.

Lemma parse_shape_keys shape (o out : obj) :
  parse_shape p shape o = Some out ->
  forall key, In key (keys out) -> In key (map fst shape).
Proof.
  revert out. induction shape as [|[k s] shape IH]; simpl; intros out.
  - intros [= <-] key [].
  - destruct (p s (field o k)) as [v|]; [|discriminate].
    destruct (parse_shape p shape o) as [out'|]; [|discriminate].
    intros [= <-] key Hin.
    assert (In key (keys ((k, v) :: out')) -> k = key \/ In key (map fst shape)) as Hcons.
    { simpl. intros [H | H]; [now left | right; now apply (IH out')]. }
    destruct v; destruct (own k o); try (now apply Hcons);
      right; now apply (IH out').
Qed.

(** The parsed value of a field is the field of the parsed object. *)
Lemma parse_shape_own shape (o out : obj) (key : string) (s : schema) :
  NoDup (map fst shape) ->
  parse_shape p shape o = Some out ->
  In (key, s) shape ->
  exists v, p s (field o key) = Some v /\ (v <> VUndefined -> own key out = Some v).
Proof.
  revert out. induction shape as [|[k s'] shape IH]; simpl; intros out Hnd; [easy|].
  inversion Hnd as [|? ? Hk Hnd']; subst.
  destruct (p s' (field o k)) as [v|] eqn:Hv; [|discriminate].
  destruct (parse_shape p shape o) as [out'|] eqn:Hout; [|discriminate].
  intros [= <-] [[= -> ->] | Hin].
  - exists v. split; [exact Hv|]. intros Hne.
    destruct v; try (simpl; now rewrite String.eqb_refl). contradiction.
  - destruct (IH out' Hnd' eq_refl Hin) as [w [Hw Hown]].
    exists w. split; [exact Hw|]. intros Hne.
    assert (Hkk : String.eqb k key = false).
    { apply String.eqb_neq. intros ->. apply Hk.
      apply (in_map fst) in Hin. exact Hin. }
    assert (own key ((k, v) :: out') = own key out') as Hskip
      by (simpl; now rewrite Hkk).
    destruct v; destruct (own k o); rewrite ?Hskip; now apply Hown.
Qed.

End Shape.

(** An object schema without catchall accepts objects and gives the parsed
    fields of its shape. *)
Lemma safeParse_object shape (x v : value) :
  safeParse (ZObject shape None) x = Some v ->
  exists o known,
    x = VObj o /\ v = VObj known /\ parse_shape safeParse shape o = Some known.
Proof.
  simpl. destruct x as [| | | | | |o]; try discriminate.
  destruct (parse_shape safeParse shape o) as [known|] eqn:E; [|discriminate].
  intros [= <-]. now exists o, known.
Qed.

End ZodFacts.

(** ** config/verbosity.ts and the limits of the collector *)
Module ResolvedConfig.
Import Zod Verbosity ToolSummarizer CollectorCaps JsFacts ZodFacts.

(** A cap of the schema parses to a number that is not negative. *)
Lemma safeParse_cap (d : Z) (x v : value) :
  0 <= d -> safeParse (z_cap d) x = Some v -> exists n, v = VNum n /\ 0 <= n.
Proof.
  intros Hd. unfold z_cap. simpl.
  destruct x as [| | |n| | |]; try discriminate.
  - destruct (Z.leb_spec 0 d); [|lia]. intros [= <-]. now exists d.
  - destruct (Z.leb_spec 0 n); [|discriminate]. intros [= <-]. now exists n.
Qed.

(** The caps that the collector reads of a validated configuration. *)
Lemma cap_of_validated shape sub (raw config : value) (category fld : string) (d : Z) :
  safeParse (z_object shape) raw = Some config ->
  NoDup (map fst shape) -> In (category, z_object sub) shape ->
  NoDup (map fst sub) -> In (fld, z_cap d) sub -> 0 <= d ->
  exists n, cap config category fld = Some n /\ 0 <= n.
Proof.
  intros Hparse Hnd Hin Hnd' Hin' Hd.
  apply safeParse_object in Hparse as [o [known [-> [-> Hshape]]]].
  destruct (parse_shape_own _ _ _ _ _ _ Hnd Hshape Hin) as [v [Hv Hown]].
  apply safeParse_object in Hv as [o' [known' [Ho' [-> Hshape']]]].
  destruct (parse_shape_own _ _ _ _ _ _ Hnd' Hshape' Hin') as [w [Hw Hown']].
  apply safeParse_cap in Hw as [n [-> Hn]]; [|exact Hd].
  exists n. split; [|exact Hn].
  unfold cap, member. rewrite Hown by discriminate. now rewrite Hown' by discriminate.
Qed.

Lemma capOf_nonneg (limits : list (string * Z)) :
  Forall (fun kv => 0 <= snd kv) limits ->
  forall category, 0 <= capOf limits category.
Proof.
  intros Hall category. unfold capOf.
  induction Hall as [|[k n] limits Hn Hall IH]; simpl.
  - unfold DEFAULT_SAMPLE_LIMIT. lia.
  - destruct (String.eqb k category); [exact Hn | exact IH].
Qed.

Ltac distinct_keys := simpl; repeat constructor; simpl; intuition discriminate.
Ltac among := simpl; repeat (first [left; reflexivity | right]).
Ltac read_cap H category fld d :=
  edestruct (fun sub => cap_of_validated _ sub _ _ category fld d H) as [? [? ?]];
  [distinct_keys | among | distinct_keys | among | lia |].

(** The presets are validated configurations: the schema returns each of
    them as it is. *)
Lemma presets_validate :
  Forall (fun preset => safeParse VerbosityConfigSchema preset = Some preset)
         (map snd PRESETS).
Proof. repeat constructor. Qed.

(** What [cap] finds is the number at the path of the two keys. *)
Lemma cap_at_path (config : value) (category fld : string) (n : Z) :
  cap config category fld = Some n ->
  at_path [category; fld] config = Some (VNum n).
Proof.
  unfold cap, member. destruct config as [| | | | | |o]; try discriminate.
  cbn [at_path]. destruct (own category o) as [sub|]; [|discriminate].
  destruct sub as [| | | | | |o']; try discriminate.
  destruct (own fld o') as [[| | |k| | |]|]; try discriminate.
  now intros [= ->].
Qed.

(** The table that the constructor builds of a validated configuration:
    every entry is the number that the configuration holds at the path of
    the category. *)
Lemma table_of_validated (raw config : value) :
  safeParse VerbosityConfigSchema raw = Some config ->
  exists limits,
    buildCategoryLimits config = Some limits /\
    (forall category, 0 <= capOf limits category) /\
    forall category,
      match capPath category with
      | Some path => at_path path config = Some (VNum (capOf limits category))
      | None => capOf limits category = DEFAULT_SAMPLE_LIMIT
      end.
Proof.
  intros Hparse. unfold VerbosityConfigSchema in Hparse.
  read_cap Hparse "shell" "maxSamples" 8.
  read_cap Hparse "write" "maxSamples" 5.
  read_cap Hparse "edit" "maxSamples" 5.
  read_cap Hparse "read" "maxSamples" 20.
  read_cap Hparse "grep" "maxSamples" 10.
  read_cap Hparse "mcp" "maxSamplesPerNamespace" 5.
  unfold buildCategoryLimits.
  repeat match goal with
         | E : cap _ _ _ = Some _ |- _ =>
             rewrite E; apply cap_at_path in E
         end.
  eexists. split; [reflexivity|]. split.
  - apply capOf_nonneg. repeat constructor; assumption.
  - intros category. unfold capPath, capOf, capPaths.
    cbn [pathIn configured].
    repeat match goal with
           | |- context [String.eqb ?k category] =>
               destruct (String.eqb k category); [assumption|]
           end.
    reflexivity.
Qed.

(** C1.  Under a validated configuration the collector can be built, and
    its cap of a category is the configured one: the number that the
    configuration holds at the path of the category ([shell.maxSamples] for
    [Bash] and [shell], and so on), or [DEFAULT_SAMPLE_LIMIT] = 5 for a
    category without one.  After any calls the summary of a category
    reports as count the number of [add] calls for it, while its samples are
    never more than that cap.  A category has a summary exactly when it was
    added. *)
Theorem collector_counts_and_caps {D : Type} (raw config : value) :
  safeParse VerbosityConfigSchema raw = Some config ->
  exists c0 : SummaryCollector D,
    newCollector config = Some c0 /\
    (forall category : string,
       match capPath category with
       | Some path =>
           at_path path config = Some (VNum (capOf (categoryLimits c0) category))
       | None => capOf (categoryLimits c0) category = DEFAULT_SAMPLE_LIMIT
       end) /\
    forall (calls : list (call D)) (category : string),
      match summaryOf category (getSummaries (run c0 calls)) with
      | Some s =>
          sum_name s = category /\
          sum_count s = adds category calls /\
          0 < adds category calls /\
          Z.of_nat (List.length (sum_samples s)) <= capOf (categoryLimits c0) category
      | None => adds category calls = 0
      end.
Proof.
  intros Hparse.
  destruct (table_of_validated raw config Hparse) as [limits [Hlimits [Hcap Hpaths]]].
  exists (emptyCollector limits). split; [|split].
  - unfold newCollector. now rewrite Hlimits.
  - exact Hpaths.
  - intros calls category.
    rewrite SummarizerProps.summaryOf_getSummaries.
    pose proof (SummarizerProps.run_entries calls (emptyCollector limits)
                  (fun _ => 0) Hcap (fun _ => eq_refl) category) as H.
    simpl in H.
    destruct (map_get category (coll_data (run (emptyCollector limits) calls)));
      simpl; [|exact H].
    destruct H as [Hc [Hn Hs]]. repeat split; assumption.
Qed.

(** Under the minimal preset the cap of [shell] is the 3 of
    [shell.maxSamples], and a category without configured cap has 5. *)
Lemma collector_counts_and_caps_witness :
  exists c0 : SummaryCollector unit,
    newCollector (VObj MINIMAL_PRESET) = Some c0 /\
    capOf (categoryLimits c0) "shell" = 3 /\
    capOf (categoryLimits c0) "lint" = 5 /\
    forall (calls : list (call unit)) (category : string),
      match summaryOf category (getSummaries (run c0 calls)) with
      | Some s =>
          sum_name s = category /\
          sum_count s = adds category calls /\
          0 < adds category calls /\
          Z.of_nat (List.length (sum_samples s)) <= capOf (categoryLimits c0) category
      | None => adds category calls = 0
      end.
Proof.
  destruct (collector_counts_and_caps (D := unit)
              (VObj MINIMAL_PRESET) (VObj MINIMAL_PRESET) eq_refl)
    as [c0 [Hnew [Hpaths Hcalls]]].
  exists c0. split; [exact Hnew|]. split; [|split; [|exact Hcalls]].
  - pose proof (Hpaths "shell") as H.
    change (Some (VNum 3) = Some (VNum (capOf (categoryLimits c0) "shell"))) in H.
    now injection H as <-.
  - exact (Hpaths "lint").
Defined.

End ResolvedConfig.

(** ** The extraction pipeline *)
Module ExtractionProps.
Import Verbosity ToolSummarizer ToolExtraction JsFacts.

Section EndToEnd.

Variable D : Type.
Variable classifyToolName : string -> option string.
Variable shellCommand : value -> string.
Variable shellData : string -> option string -> option D.
Variable otherSample :
  option string -> string -> value -> option (string * bool) ->
  option (string * string * AddSampleOptions D).
Variable resultCeiling : Z.

Lemma index_get_set (id : string) (r : string * bool) (index : ResultIndex) :
  index_get id (index_set id r index) = Some r.
Proof.
  induction index as [|[k r'] index IH]; simpl.
  - now rewrite String.eqb_refl.
  - destruct (String.eqb k id) eqn:E; simpl; rewrite E; [reflexivity | exact IH].
Qed.

(** C7.  One shell invocation of [pnpm test] whose result reads
    [exited with code: 0], a line feed, [OK], under the standard preset:
    the pipeline gives one summary, of the category [shell], with count 1,
    without [errorCount], and one sample whose summary is
    [$ pnpm test → exit 0]; the exit code read from the result is 0. *)
Theorem shell_invocation_end_to_end (tool id : string) (arguments : value) :
  let result := "exited with code: 0" ++ newline ++ "OK" in
  classifyToolName tool = Some "shell" ->
  shellCommand arguments = "pnpm test" ->
  len result <= resultCeiling ->
  extractToolData D classifyToolName shellCommand shellData otherSample resultCeiling
    [ {| role := "assistant"; blocks := [ToolInvocation tool arguments id] |};
      {| role := "user"; blocks := [ToolResult id result false] |} ]
    (VObj STANDARD_PRESET)
  = Some ([ {| sum_name := "shell";
               sum_count := 1;
               sum_errorCount := None;
               sum_samples :=
                 [ {| summary := "$ pnpm test → exit 0";
                      data := shellData "pnpm test" (Some result) |} ] |} ],
          [])
  /\ extractExitCode (Some result) = Some 0
  /\ includes "$ pnpm test → exit 0" "$ pnpm test" = true.
Proof.
  intros result Hclass Hcmd Hceil.
  split; [|split; reflexivity].
  unfold extractToolData.
  change (newCollector (VObj STANDARD_PRESET))
    with (Some (emptyCollector (StructuredToolSample := D)
                  [ ("Bash", 8); ("shell", 8); ("Write", 5); ("write", 5);
                    ("Edit", 5); ("edit", 5); ("Read", 20); ("read", 20);
                    ("Grep", 10); ("Glob", 10); ("WebSearch", 10); ("WebFetch", 10);
                    ("Task", 5); ("TaskOutput", 5); ("AskUserQuestion", 5) ])).
  unfold pass1, pass2. cbn [fold_left blocks].
  rewrite (slice_all result resultCeiling Hceil).
  change (index_set id (result, false) []) with [(id, (result, false))].
  cbn [index_get]. rewrite String.eqb_refl, Hclass, Hcmd.
  reflexivity.
Qed.

End EndToEnd.

Lemma shell_invocation_end_to_end_witness :
  let result := "exited with code: 0" ++ newline ++ "OK" in
  extractToolData unit
    (fun name => if String.eqb name "Bash" then Some "shell" else None)
    (fun arguments =>
       match member arguments "command" with
       | Returned (VStr cmd) => cmd
       | _ => ""
       end)
    (fun _ _ => None) (fun _ _ _ _ => None) 100000
    [ {| role := "assistant";
         blocks := [ToolInvocation "Bash" (VObj [("command", VStr "pnpm test")]) "toolu_1"] |};
      {| role := "user"; blocks := [ToolResult "toolu_1" result false] |} ]
    (VObj STANDARD_PRESET)
  = Some ([ {| sum_name := "shell";
               sum_count := 1;
               sum_errorCount := None;
               sum_samples :=
                 [ {| summary := "$ pnpm test → exit 0"; data := None |} ] |} ],
          [])
  /\ extractExitCode (Some result) = Some 0
  /\ includes "$ pnpm test → exit 0" "$ pnpm test" = true.
Proof.
  apply (shell_invocation_end_to_end unit
           (fun name => if String.eqb name "Bash" then Some "shell" else None)
           (fun arguments =>
              match member arguments "command" with
              | Returned (VStr cmd) => cmd
              | _ => ""
              end)
           (fun _ _ => None) (fun _ _ _ _ => None) 100000
           "Bash" "toolu_1" (VObj [("command", VStr "pnpm test")])).
  - reflexivity.
  - reflexivity.
  - vm_compute. discriminate.
Defined.

End ExtractionProps.

(** ** config/verbosity.ts *)
Module VerbosityProps.
Import Zod Verbosity JsFacts ZodFacts.

(** *** Deep merge *)

(** C4.  Merging the empty object onto a configuration, a preset in
    particular, gives it back.  Merging [{shell: {maxSamples: 1}}] onto the
    standard preset keeps the keys of the preset and of its [shell], gives
    [shell.maxSamples] the value 1, and leaves every other property of the
    preset and every other property of [shell] as in the standard preset. *)
Theorem mergeConfig_deep :
  (forall P : obj, mergeConfig P [] = P) /\
  Forall (fun preset => exists P, preset = VObj P /\ mergeConfig P [] = P)
         (map snd PRESETS) /\
  let merged := mergeConfig STANDARD_PRESET [("shell", VObj [("maxSamples", VNum 1)])] in
  keys merged = keys STANDARD_PRESET /\
  without "shell" merged = without "shell" STANDARD_PRESET /\
  at_path ["shell"; "maxSamples"] (VObj merged) = Some (VNum 1) /\
  at_path ["shell"; "maxSamples"] (VObj STANDARD_PRESET) = Some (VNum 8) /\
  exists shell shell0,
    own "shell" merged = Some (VObj shell) /\
    own "shell" STANDARD_PRESET = Some (VObj shell0) /\
    keys shell = keys shell0 /\
    without "maxSamples" shell = without "maxSamples" shell0.
Proof.
  split; [reflexivity|]. split.
  - repeat constructor; eexists; split; reflexivity.
  - cbv zeta. repeat split; try reflexivity.
    do 2 eexists. repeat split; reflexivity.
Qed.

(** *** Presets *)

(** The four names give their presets. *)
Lemma getPreset_valid :
  getPreset "minimal" = Returned MINIMAL_PRESET /\
  getPreset "standard" = Returned STANDARD_PRESET /\
  getPreset "verbose" = Returned VERBOSE_PRESET /\
  getPreset "full" = Returned FULL_PRESET.
Proof. repeat split; reflexivity. Qed.

(** A name that is neither one of the four nor a property of
    [Object.prototype] raises the error that names it. *)
Lemma getPreset_unknown (name : string) :
  ~ In name (keys PRESETS) ->
  object_prototype name = None ->
  getPreset name =
  Thrown (Error ("Unknown verbosity preset " ++ dquote ++ name ++ dquote ++
                 ". Valid presets: minimal, standard, verbose, full")).
Proof.
  intros Hname Hproto. unfold getPreset, get.
  rewrite (own_None name PRESETS Hname), Hproto. reflexivity.
Qed.

(** C9.  [getPreset] on the names [constructor] and [__proto__], which are
    none of the four presets: the first call raises the error of
    [structuredClone], not the error that names the unknown preset; the
    second returns an object without properties and raises nothing. *)
Theorem getPreset_prototype_names :
  getPreset "constructor" = Thrown DataCloneError /\
  getPreset "__proto__" = Returned [] /\
  ~ In "constructor" (keys PRESETS) /\
  ~ In "__proto__" (keys PRESETS).
Proof.
  repeat split; try reflexivity; simpl; intuition discriminate.
Qed.

(** *** Resolution of a user configuration *)

Lemma merge_into_cons (key : string) (overVal : value) (rest base : obj) :
  merge_into (VObj ((key, overVal) :: rest)) base =
  merge_into (VObj rest) (merge_key (merge_into overVal) key overVal base).
Proof. reflexivity. Qed.

Lemma own_merge_key_other (recur : obj -> obj) (k key : string) (overVal : value)
    (result : obj) :
  k <> key -> own k (merge_key recur key overVal result) = own k result.
Proof.
  intros Hk. unfold merge_key.
  destruct (String.eqb key "__proto__"); [reflexivity|].
  destruct (own key result) as [[]|]; destruct overVal;
    try reflexivity; now apply own_set_other.
Qed.

(** What the assignment of a key leaves under that key depends on the
    result only through its property of that key. *)
Lemma own_merge_key_same (recur : obj -> obj) (key : string) (overVal : value)
    (r1 r2 : obj) :
  own key r1 = own key r2 ->
  own key (merge_key recur key overVal r1) = own key (merge_key recur key overVal r2).
Proof.
  intros H. unfold merge_key.
  destruct (String.eqb key "__proto__"); [exact H|].
  rewrite <- H.
  destruct (own key r1) as [[]|] eqn:E; destruct overVal;
    rewrite ?own_set_same; try reflexivity; congruence.
Qed.

Lemma own_merge_into_other (k : string) (es : obj) : forall base,
  ~ In k (keys es) -> own k (merge_into (VObj es) base) = own k base.
Proof.
  induction es as [|[key overVal] es IH]; intros base Hk; [reflexivity|].
  rewrite merge_into_cons, IH by (simpl in Hk; tauto).
  apply own_merge_key_other. simpl in Hk. intros ->. tauto.
Qed.

Lemma distinct_NoDup (l : list string) : distinct l = true -> NoDup l.
Proof.
  induction l as [|x l IH]; simpl; [constructor|].
  intros H. apply andb_true_iff in H as [Hx Hl].
  constructor; [|now apply IH].
  apply mem_false. now destruct (mem x l).
Qed.

(** Among distinct keys, the property that the merge leaves under a key of
    the overrides is the one that the assignment of that key leaves. *)
Lemma own_merge_into_key (key : string) (w : value) (es : obj) : forall base,
  NoDup (keys es) -> In (key, w) es ->
  own key (merge_into (VObj es) base) =
  own key (merge_key (merge_into w) key w base).
Proof.
  induction es as [|[k0 w0] es IH]; intros base Hnd Hin; [easy|].
  simpl in Hnd. inversion Hnd as [|? ? Hk0 Hnd']; subst.
  rewrite merge_into_cons. destruct Hin as [[= -> ->] | Hin].
  - now apply own_merge_into_other.
  - rewrite (IH _ Hnd' Hin). apply own_merge_key_same.
    apply own_merge_key_other. intros ->. apply Hk0.
    apply (in_map fst) in Hin. exact Hin.
Qed.

(** A number of the overrides is, at the same path, in the merged tree. *)
Lemma merge_carries (path : list string) : forall (over base : obj) (n : Z),
  path <> [] -> ~ In "__proto__" path ->
  well_formed (VObj over) = true ->
  at_path path (VObj over) = Some (VNum n) ->
  at_path path (VObj (merge_into (VObj over) base)) = Some (VNum n).
Proof.
  induction path as [|key rest IH]; intros over base n Hne Hproto Hwf Hat; [easy|].
  cbn [at_path] in Hat |- *.
  destruct (own key over) as [w|] eqn:Hown; [|discriminate].
  apply own_In in Hown.
  simpl in Hwf. apply andb_true_iff in Hwf as [Hdist Hall].
  rewrite (own_merge_into_key key w over base (distinct_NoDup _ Hdist) Hown).
  assert (Hwfw : well_formed w = true).
  { rewrite forallb_forall in Hall. exact (Hall _ Hown). }
  unfold merge_key.
  assert (String.eqb key "__proto__" = false) as ->.
  { apply String.eqb_neq. intros ->. apply Hproto. now left. }
  destruct rest as [|key' rest'].
  - simpl in Hat. injection Hat as ->.
    destruct (own key base) as [[]|]; now rewrite own_set_same.
  - destruct w as [| | | | | |o]; try discriminate.
    assert (Hrest : forall b,
      at_path (key' :: rest') (VObj (merge_into (VObj o) b)) = Some (VNum n)).
    { intros b. apply IH; [discriminate | simpl in *; tauto | exact Hwfw | exact Hat]. }
    destruct (own key base) as [[| | | | | |b]|];
      rewrite own_set_same; try exact Hat; apply Hrest.
Qed.

(** The schema refuses a tree that has a negative number where it has a
    cap. *)
Lemma safeParse_negative (path : list string) :
  forall (s : schema) (v : value) (n : Z) (d : value),
  schema_at path s = Some (ZDefault (ZNumber (Some 0)) d) ->
  at_path path v = Some (VNum n) -> n < 0 ->
  safeParse s v = None.
Proof.
  induction path as [|key rest IH]; intros s v n d Hs Hv Hn.
  - injection Hs as ->. injection Hv as ->. simpl.
    destruct (Z.leb_spec 0 n); [lia | reflexivity].
  - simpl in Hs, Hv.
    destruct s as [| | | | | | | |shape catchall]; try discriminate.
    destruct (shape_get key shape) as [s'|] eqn:Hshape; [|discriminate].
    destruct v as [| | | | | |o]; try discriminate.
    destruct (own key o) as [w|] eqn:Hown; [|discriminate].
    assert (Hin : In (key, s') shape).
    { clear - Hshape. induction shape as [|[k s0] shape IHs]; simpl in *; [discriminate|].
      destruct (String.eqb k key) eqn:E.
      - apply String.eqb_eq in E. injection Hshape as ->. left. now subst.
      - right. now apply IHs. }
    simpl.
    rewrite (parse_shape_None safeParse shape o key s' Hin); [reflexivity|].
    unfold field. rewrite Hown. exact (IH s' w n d Hs Hv Hn).
Qed.

(** Every cap of the schema is a number with minimum 0 at a path that is
    not empty and does not go through [__proto__]. *)
Lemma cap_paths_spec (path : list string) :
  In path cap_paths ->
  path <> [] /\ ~ In "__proto__" path /\
  exists d, schema_at path VerbosityConfigSchema = Some (ZDefault (ZNumber (Some 0)) d).
Proof.
  assert (H : forallb
    (fun p =>
       match p with [] => false | _ => true end &&
       negb (mem "__proto__" p) &&
       match schema_at p VerbosityConfigSchema with
       | Some (ZDefault (ZNumber (Some 0)) _) => true
       | _ => false
       end) cap_paths = true) by (vm_compute; reflexivity).
  rewrite forallb_forall in H. intros Hin. specialize (H path Hin).
  apply andb_true_iff in H as [H Hs]. apply andb_true_iff in H as [Hne Hp].
  split; [now destruct path|]. split.
  - apply mem_false. now destruct (mem "__proto__" path).
  - destruct (schema_at path VerbosityConfigSchema) as [[| | | |[[[]|]| | | | | | | |] d| | | |]|];
      try discriminate. now exists d.
Qed.

(** When the base preset can be fetched, a negative number at a cap of the
    overrides makes the validation of the merged tree fail, and the result
    of [parseUserConfig] is the base preset; otherwise the error of
    [getPreset] is that of [parseUserConfig]. *)
Lemma parseUserConfig_negative_cap (raw : obj) (path : list string) (n : Z) :
  well_formed (VObj raw) = true ->
  In path cap_paths ->
  at_path path (VObj raw) = Some (VNum n) -> n < 0 ->
  (forall base, getPreset (presetNameOf raw) = Returned base ->
     safeParse VerbosityConfigSchema (VObj (deepMerge base raw)) = None /\
     parseUserConfig (VObj raw) = Returned (VObj base)) /\
  (forall e, getPreset (presetNameOf raw) = Thrown e ->
     parseUserConfig (VObj raw) = Thrown e).
Proof.
  intros Hwf Hpath Hat Hn.
  destruct (cap_paths_spec path Hpath) as [Hne [Hproto [d Hs]]].
  split.
  - intros base Hbase.
    assert (Hfail : safeParse VerbosityConfigSchema (VObj (deepMerge base raw)) = None).
    { apply (safeParse_negative path _ _ n d Hs); [|exact Hn].
      unfold deepMerge. now apply merge_carries. }
    split; [exact Hfail|].
    unfold parseUserConfig. now rewrite Hbase, Hfail.
  - intros e He. unfold parseUserConfig. now rewrite He.
Qed.

Lemma parseUserConfig_negative_cap_witness :
  parseUserConfig (VObj [("preset", VStr "minimal");
                         ("shell", VObj [("maxSamples", VNum (-1))])])
  = Returned (VObj MINIMAL_PRESET).
Proof.
  apply (parseUserConfig_negative_cap
           [("preset", VStr "minimal"); ("shell", VObj [("maxSamples", VNum (-1))])]
           ["shell"; "maxSamples"] (-1)).
  - reflexivity.
  - vm_compute. tauto.
  - reflexivity.
  - lia.
  - reflexivity.
Defined.

(** C5.  An override tree with a negative [shell.maxSamples] whose [preset]
    is [constructor]: the name passes the test [raw.preset in PRESETS],
    [getPreset] raises the error of [structuredClone], and so does
    [parseUserConfig]: no base preset is returned. *)
Theorem parseUserConfig_prototype_preset :
  let raw := [("preset", VStr "constructor");
              ("shell", VObj [("maxSamples", VNum (-1))])] in
  well_formed (VObj raw) = true /\
  In ["shell"; "maxSamples"] cap_paths /\
  at_path ["shell"; "maxSamples"] (VObj raw) = Some (VNum (-1)) /\
  presetNameOf raw = "constructor" /\
  parseUserConfig (VObj raw) = Thrown DataCloneError.
Proof.
  cbv zeta. repeat split; try reflexivity. vm_compute. tauto.
Qed.

End VerbosityProps.

(** ** parsers/claude.ts *)
Module ClaudeProps.
Import ToolSummarizer Claude JsFacts.

(** *** Pending tasks *)

Lemma pending_block_candidate (tasks : list string) (b : ContentBlock) :
  pending_block tasks b =
  match candidate b with
  | Some t => push t tasks
  | None => tasks
  end.
Proof.
  destruct b as [t | name input | ty]; try reflexivity.
  unfold pending_block, candidate.
  destruct (mem name thinkingToolNames); [|reflexivity].
  destruct (next_action input) as [a|]; [|reflexivity].
  destruct (len a >? 5); reflexivity.
Qed.

Lemma push_all_full (bound : Z) (l tasks : list string) :
  bound <= Z.of_nat (List.length tasks) -> push_all bound l tasks = tasks.
Proof.
  intros H. destruct l as [|t l]; simpl; [reflexivity|].
  destruct (Z.geb_spec (Z.of_nat (List.length tasks)) bound); [reflexivity | lia].
Qed.

Lemma push_all_app (bound : Z) (l1 l2 : list string) : forall tasks,
  push_all bound (l1 ++ l2) tasks = push_all bound l2 (push_all bound l1 tasks).
Proof.
  induction l1 as [|t l1 IH]; intros tasks; simpl; [reflexivity|].
  destruct (Z.geb_spec (Z.of_nat (List.length tasks)) bound) as [Hfull|Hroom].
  - symmetry. apply push_all_full. lia.
  - apply IH.
Qed.

(** The loop over the blocks of a message takes what the blocks propose. *)
Lemma pending_blocks_push_all (maxTasks : Z) (blocks : list ContentBlock) :
  forall tasks,
    pending_blocks maxTasks blocks tasks = push_all maxTasks (proposed blocks) tasks.
Proof.
  induction blocks as [|b blocks IH]; intros tasks; simpl; [reflexivity|].
  rewrite pending_block_candidate.
  destruct (Z.geb_spec (Z.of_nat (List.length tasks)) maxTasks) as [Hfull|Hroom].
  - symmetry. apply push_all_full. lia.
  - destruct (candidate b) as [t|]; simpl.
    + destruct (Z.geb_spec (Z.of_nat (List.length tasks)) maxTasks); [lia|]. apply IH.
    + apply IH.
Qed.

(** The loop over the messages takes what the messages propose. *)
Lemma pending_messages_push_all (maxTasks : Z) (backwards : list ClaudeMessage) :
  forall tasks,
    pending_messages maxTasks backwards tasks =
    push_all maxTasks (flat_map candidates_of backwards) tasks.
Proof.
  induction backwards as [|m backwards IH]; intros tasks; simpl; [reflexivity|].
  rewrite push_all_app.
  destruct (Z.ltb_spec (Z.of_nat (List.length tasks)) maxTasks) as [Hroom|Hfull].
  - rewrite IH. f_equal. unfold candidates_of.
    destruct (String.eqb (type m) "assistant"); [|reflexivity].
    destruct (content m); try reflexivity. apply pending_blocks_push_all.
  - now rewrite !push_all_full by (rewrite ?push_all_full; lia).
Qed.

Lemma mem_app (x : string) (l1 l2 : list string) :
  mem x (l1 ++ l2) = mem x l1 || mem x l2.
Proof. unfold mem. apply existsb_app. Qed.

(** Taking strings up to a bound is taking the first of the distinct
    ones. *)
Lemma push_all_dedup (bound : Z) (l : list string) : forall tasks,
  push_all bound l tasks =
  (tasks ++ firstn (Z.to_nat (bound - Z.of_nat (List.length tasks)))
                   (dedup_from tasks l))%list.
Proof.
  induction l as [|t l IH]; intros tasks; simpl.
  - now rewrite firstn_nil, app_nil_r.
  - destruct (Z.geb_spec (Z.of_nat (List.length tasks)) bound) as [Hfull|Hroom].
    + replace (Z.to_nat (bound - Z.of_nat (List.length tasks))) with 0%nat by lia.
      simpl. now rewrite app_nil_r.
    + unfold push. destruct (mem t tasks) eqn:Hmem; [apply IH|].
      rewrite IH, length_app. simpl List.length.
      replace (Z.to_nat (bound - Z.of_nat (List.length tasks)))
        with (S (Z.to_nat (bound - Z.of_nat (List.length tasks + 1)))) by lia.
      simpl. now rewrite <- app_assoc.
Qed.

Lemma dedup_from_NoDup (l : list string) : forall seen,
  NoDup (dedup_from seen l) /\
  forall x, In x (dedup_from seen l) -> ~ In x seen.
Proof.
  induction l as [|t l IH]; intros seen; simpl.
  - split; [constructor | intros x []].
  - destruct (mem t seen) eqn:Hmem; [apply IH|].
    destruct (IH (seen ++ [t])%list) as [Hnd Hout].
    apply mem_false in Hmem. split.
    + constructor; [|exact Hnd].
      intros Hin. apply (Hout t Hin). apply in_or_app. right. now left.
    + intros x [<- | Hin]; [exact Hmem|].
      intros Hx. apply (Hout x Hin). apply in_or_app. now left.
Qed.

Lemma NoDup_firstn (n : nat) : forall l : list string, NoDup l -> NoDup (firstn n l).
Proof.
  induction n as [|n IH]; intros l Hl; [constructor|].
  destruct l as [|x l]; [constructor|].
  inversion Hl as [|? ? Hx Hl']; subst. simpl. constructor; [|now apply IH].
  intros Hin. apply Hx. rewrite <- (firstn_skipn n l). apply in_or_app. now left.
Qed.

(** A reasoning step with a next action of more than 5 units proposes it,
    trimmed and truncated. *)
Lemma candidates_of_step (a : string) :
  5 < len a -> candidates_of (reasoningStep a) = [truncate (trim a) 200].
Proof.
  intros Ha. unfold candidates_of, reasoningStep, reasoningSteps.
  cbn [type content map proposed candidate next_action own].
  replace (String.eqb "assistant" "assistant") with true by reflexivity.
  replace (mem "sequential-thinking" thinkingToolNames) with true by reflexivity.
  replace (String.eqb "next_action" "next_action") with true by reflexivity.
  destruct (String.eqb_spec a "") as [->|_]; [discriminate Ha|].
  destruct (Z.gtb_spec (len a) 5); [reflexivity | lia].
Qed.

(** C3, as the code has it.  [extractPendingFromThinking] walks the messages
    from the last to the first and the blocks of a message in their order;
    it takes the next actions of the thinking tools that have more than 5
    units, trimmed and truncated to 200, each text once, and stops at the
    maximum.  For reasoning steps, one in a message, with the next actions
    [A], [B], [A], [C] in the order of the transcript - read from the most
    recent they are [C], [A], [B], [A] - where each has more than 5 units
    and the three differ once trimmed and truncated, the tasks are [C], [A],
    [B], trimmed and truncated, for every maximum of at least 3. *)
Theorem extractPendingFromThinking_spec :
  (forall (messages : list ClaudeMessage) (maxTasks : Z),
     let tasks := extractPendingFromThinking messages maxTasks in
     tasks = firstn (Z.to_nat maxTasks) (dedup (candidates messages)) /\
     NoDup tasks /\
     Z.of_nat (List.length tasks) <= Z.max 0 maxTasks) /\
  (forall (A B C : string) (maxTasks : Z),
     let task := fun a => truncate (trim a) 200 in
     5 < len A -> 5 < len B -> 5 < len C ->
     task A <> task B -> task A <> task C -> task B <> task C ->
     3 <= maxTasks ->
     extractPendingFromThinking (map reasoningStep [A; B; A; C]) maxTasks
     = [task C; task A; task B]).
Proof.
  assert (Heq : forall messages maxTasks,
            extractPendingFromThinking messages maxTasks =
            firstn (Z.to_nat maxTasks) (dedup (candidates messages))).
  { intros messages maxTasks. unfold extractPendingFromThinking.
    rewrite pending_messages_push_all, push_all_dedup. simpl.
    now rewrite Z.sub_0_r. }
  split.
  - intros messages maxTasks tasks. unfold tasks.
    split; [apply Heq|]. rewrite Heq. split.
    + apply NoDup_firstn. apply dedup_from_NoDup.
    + rewrite length_firstn. lia.
  - intros A B C maxTasks task HA HB HC Hab Hac Hbc Hmax.
    rewrite Heq. unfold candidates.
    cbn [map rev app flat_map].
    rewrite (candidates_of_step A HA), (candidates_of_step B HB),
            (candidates_of_step C HC).
    fold (task A) (task B) (task C). cbn [app].
    apply String.eqb_neq in Hab, Hac, Hbc.
    unfold dedup. cbn [dedup_from mem existsb app].
    rewrite (String.eqb_sym (task B) (task A)), Hab, Hac, Hbc, String.eqb_refl.
    cbn [orb].
    apply firstn_all2. cbn [List.length]. lia.
Qed.

Lemma extractPendingFromThinking_spec_witness :
  extractPendingFromThinking
    (map reasoningStep ["action A"; "action B"; "action A"; "action C"]) 10
  = ["action C"; "action A"; "action B"].
Proof.
  apply (proj2 extractPendingFromThinking_spec "action A" "action B" "action C" 10);
    try reflexivity; try discriminate.
Defined.

(** Against C3 as stated.  Reasoning steps whose next actions are the
    strings [A], [B], [A], [C] give no task at all, and so not [C], [A],
    [B]: a next action is taken only when it has more than 5 units.  This
    is so one step in a message or all in one message, and in either order
    of the four. *)
Lemma pending_example_refuted :
  extractPendingFromThinking (map reasoningStep ["A"; "B"; "A"; "C"]) 10
    <> ["C"; "A"; "B"] /\
  Forall (fun messages => extractPendingFromThinking messages 10 = [])
    [ map reasoningStep ["A"; "B"; "A"; "C"];
      map reasoningStep (rev ["A"; "B"; "A"; "C"]);
      [reasoningSteps ["A"; "B"; "A"; "C"]];
      [reasoningSteps (rev ["A"; "B"; "A"; "C"])] ].
Proof.
  split; [vm_compute; discriminate|]. repeat constructor.
Qed.

(** *** Subagent transcripts *)

Section Subagents.

Variable extractTextFromBlocks : Content -> string.
Variable readJsonlFile : string -> outcome (list ClaudeMessage).
Variable path_join : list string -> string.

Local Abbreviation scan := (scan_message extractTextFromBlocks).
Local Abbreviation texts := (assistantTexts extractTextFromBlocks).
Local Abbreviation subagentResult := (extractSubagentResult extractTextFromBlocks readJsonlFile).

Lemma isTerminationMessage_empty : isTerminationMessage "" = false.
Proof. reflexivity. Qed.

(** The flag of the scan is set by a termination message and never
    cleared. *)
Lemma scan_message_wasKilled (st : Scan) (m : ClaudeMessage) :
  wasKilled (scan st m) = wasKilled st || existsb isTerminationMessage (texts [m]).
Proof.
  unfold scan_message, assistantTexts. cbn [filter].
  destruct (String.eqb (type m) "assistant"); cbn [andb];
    [|now rewrite orb_false_r].
  destruct (content m) as [|t'|blocks] eqn:Hc; cbn [is_blocks map existsb wasKilled];
    try (rewrite orb_false_r; reflexivity).
  rewrite Hc, orb_false_r.
  destruct (String.eqb_spec (extractTextFromBlocks (Blocks blocks)) "") as [-> | Hne].
  - rewrite isTerminationMessage_empty. now rewrite orb_false_r.
  - cbn [negb andb].
    destruct (isTerminationMessage (extractTextFromBlocks (Blocks blocks)));
      [now rewrite orb_true_r | now rewrite orb_false_r].
Qed.

Lemma texts_cons (m : ClaudeMessage) (messages : list ClaudeMessage) :
  texts (m :: messages) = (texts [m] ++ texts messages)%list.
Proof.
  unfold assistantTexts. cbn [filter].
  destruct (String.eqb (type m) "assistant" && is_blocks (content m)); reflexivity.
Qed.

Lemma scan_wasKilled (messages : list ClaudeMessage) : forall st,
  wasKilled (fold_left scan messages st) =
  wasKilled st || existsb isTerminationMessage (texts messages).
Proof.
  induction messages as [|m messages IH]; intros st.
  - simpl. now rewrite orb_false_r.
  - cbn [fold_left].
    rewrite IH, scan_message_wasKilled, (texts_cons m messages), existsb_app.
    symmetry. apply orb_assoc.
Qed.

(** C2, as the code has it.  For a transcript that can be read, the status
    is [killed] exactly when the text of some assistant message with an
    array of blocks is a termination message, whatever follows it, and
    [completed] otherwise. *)
Theorem subagent_status (file : string) (messages : list ClaudeMessage) :
  readJsonlFile file = Returned messages ->
  (status (subagentResult file) = killed <->
   exists t, In t (texts messages) /\ isTerminationMessage t = true) /\
  (status (subagentResult file) = completed <->
   forall t, In t (texts messages) -> isTerminationMessage t = false).
Proof.
  intros Hread. unfold extractSubagentResult. rewrite Hread. simpl.
  rewrite scan_wasKilled. simpl.
  destruct (existsb isTerminationMessage (texts messages)) eqn:E.
  - apply existsb_exists in E. split; split; try easy.
    intros H. destruct E as [t [Hin Ht]]. rewrite (H t Hin) in Ht. discriminate.
  - split; split; try easy.
    + intros [t [Hin Ht]].
      assert (existsb isTerminationMessage (texts messages) = true)
        by (apply existsb_exists; now exists t).
      congruence.
    + intros _ t Hin. destruct (isTerminationMessage t) eqn:Ht; [|reflexivity].
      assert (existsb isTerminationMessage (texts messages) = true)
        by (apply existsb_exists; now exists t).
      congruence.
Qed.

(** C6.  A transcript that cannot be read gives the status [killed], no
    text and no tool call, and the loop over the tasks records that result
    for its task and goes on: nothing is raised. *)
Theorem unreadable_transcript (file : string) (e : exn) :
  readJsonlFile file = Thrown e ->
  subagentResult file = {| text := None; status := killed; toolCallCount := 0 |} /\
  forall cfg sessionDir done st task,
    path_join [sessionDir; "subagents"; "agent-" ++ taskId task ++ ".jsonl"] = file ->
    let st' :=
      resolve_task extractTextFromBlocks readJsonlFile path_join
        cfg sessionDir done st task in
    subagentCount st' = subagentCount st /\
    subagentResults st' =
      (subagentResults st ++
       [ {| sr_taskId := taskId task;
            sr_description := description task;
            sr_status := killed;
            sr_result := None;
            sr_toolCallCount := 0 |} ])%list.
Proof.
  intros Hread.
  assert (Hres : subagentResult file =
                 {| text := None; status := killed; toolCallCount := 0 |}).
  { unfold extractSubagentResult. now rewrite Hread. }
  split; [exact Hres|].
  intros cfg sessionDir done st task Hpath st'. unfold st', resolve_task.
  rewrite Hpath, Hres. simpl. split; reflexivity.
Qed.

End Subagents.

Lemma subagent_status_witness :
  status (extractSubagentResult textOfBlocks
            (fun _ => Returned [assistantText "You have hit your rate limit."])
            "agent-a1.jsonl") = killed.
Proof.
  apply (subagent_status textOfBlocks
           (fun _ => Returned [assistantText "You have hit your rate limit."])
           "agent-a1.jsonl" [assistantText "You have hit your rate limit."] eq_refl).
  exists "You have hit your rate limit.". split; [now left | reflexivity].
Defined.

Lemma unreadable_transcript_witness :
  extractSubagentResult textOfBlocks (fun _ => Thrown (Error "ENOENT")) "agent-a1.jsonl"
  = {| text := None; status := killed; toolCallCount := 0 |}.
Proof.
  apply (unreadable_transcript textOfBlocks (fun _ => Thrown (Error "ENOENT"))
           (join "/") "agent-a1.jsonl" (Error "ENOENT") eq_refl).
Defined.

(** Against C2 as stated.  The status in the words of the specification is
    not that of the code: a termination message followed by a substantial
    text leaves the status [killed], and the substantial text is the
    result. *)
Lemma killed_although_followed :
  let report :=
    "The refactoring is complete and all forty-two tests pass on the branch." in
  let messages :=
    [ assistantText "You have hit your rate limit."; assistantText report ] in
  let result :=
    extractSubagentResult textOfBlocks (fun _ => Returned messages) "agent-a1.jsonl" in
  ~ (status result = killed <->
     killed_unless_followed (assistantTexts textOfBlocks messages) = true) /\
  status result = killed /\
  text result = Some report /\
  assistantTexts textOfBlocks messages = ["You have hit your rate limit."; report] /\
  isTerminationMessage "You have hit your rate limit." = true /\
  substantial report = true.
Proof.
  cbv zeta. split; [|repeat split; reflexivity].
  intros [H _]. specialize (H eq_refl). vm_compute in H. discriminate.
Qed.

End ClaudeProps.

(** ** Further properties of utils/tool-summarizer.ts *)
Module TruncateProps.
Import ToolSummarizer JsFacts.

(** The length of a slice from the start. *)
Lemma len_slice_start (s : string) (e : Z) :
  len (slice s 0 e) = if e <? 0 then Z.max (len s + e) 0 else Z.min e (len s).
Proof.
  unfold slice, len.
  set (l := Z.of_nat (String.length s)).
  assert (Hl : 0 <= l) by (unfold l; lia).
  replace (0 <? 0) with false by reflexivity.
  rewrite (Z.min_l 0 l) by lia. rewrite Z.sub_0_r.
  set (to := if e <? 0 then Z.max (l + e) 0 else Z.min e l).
  assert (Hto : 0 <= to <= l) by (unfold to; destruct (e <? 0) eqn:E; lia).
  rewrite Z.max_l by lia. simpl Z.to_nat at 1.
  destruct (substring_head (Z.to_nat to) s) as [rest [_ Hlen]]; [unfold l in *; lia|].
  rewrite Hlen. lia.
Qed.

Lemma len_truncate (s : string) (max : Z) :
  len (truncate s max) =
  if len s <=? max then len s
  else if 3 <=? max then max
  else Z.max (len s + max) 3.
Proof.
  unfold truncate. destruct (Z.leb_spec (len s) max) as [Hfit|Hlong]; [reflexivity|].
  unfold len at 1. rewrite length_append. fold (len (slice s 0 (max - 3))).
  rewrite Nat2Z.inj_add. fold (len (slice s 0 (max - 3))).
  rewrite len_slice_start. simpl String.length.
  destruct (Z.leb_spec 3 max); destruct (Z.ltb_spec (max - 3) 0); lia.
Qed.

(** The length of [truncate(s, max)], whatever [max]: a string that fits is
    kept; a longer one comes out with [max] units when [max >= 3], and with
    [s.length + max] units, at least 3, when [max < 3] - more than [max],
    and as many as [s] has when [max] is 0 and [s] has 3 or more. *)
Theorem truncate_length (s : string) (max : Z) :
  len (truncate s max) =
  if len s <=? max then len s
  else if 3 <=? max then max
  else Z.max (len s + max) 3.
Proof. apply len_truncate. Qed.

(** Truncating twice to the same [max >= 3] is truncating once. *)
Theorem truncate_idempotent (s : string) (max : Z) :
  3 <= max -> truncate (truncate s max) max = truncate s max.
Proof.
  intros Hmax. unfold truncate at 1.
  assert ((len (truncate s max) <=? max) = true) as ->; [|reflexivity].
  apply Z.leb_le. rewrite len_truncate.
  destruct (Z.leb_spec (len s) max); [lia|].
  destruct (Z.leb_spec 3 max); lia.
Qed.

Lemma truncate_idempotent_witness :
  truncate (truncate "abcdefghij" 5) 5 = truncate "abcdefghij" 5.
Proof. apply truncate_idempotent. lia. Defined.

End TruncateProps.

(** ** Exit codes *)
Module ExitCodeProps.
Import ToolSummarizer JsFacts.

(** Every unit of a string is in a class. *)
Local Abbreviation all_in class s := (Forall (fun c => class c = true) (list_ascii_of_string s)).

Lemma span_head_in (class : ascii -> bool) (s : string) :
  all_in class (fst (span class s)).
Proof.
  induction s as [|c s IH]; simpl; [constructor|].
  destruct (class c) eqn:E; [|constructor].
  destruct (span class s) as [h r]. simpl in *. now constructor.
Qed.

(** The span of a class stops where the class does. *)
Lemma span_app (class : ascii -> bool) (s rest : string) :
  all_in class s ->
  match rest with EmptyString => True | String c _ => class c = false end ->
  span class (s ++ rest) = (s, rest).
Proof.
  intros Hs Hrest. induction s as [|c s IH]; simpl.
  - destruct rest as [|c r]; [reflexivity|]. simpl. now rewrite Hrest.
  - simpl in Hs. inversion Hs as [|? ? Hc Hs']; subst.
    rewrite Hc, (IH Hs'). reflexivity.
Qed.

Lemma digit_value (c : ascii) : is_digit c = true -> 0 <= code c - 48 <= 9.
Proof.
  unfold is_digit. intros H. apply andb_true_iff in H as [H1 H2].
  apply Z.leb_le in H1, H2. lia.
Qed.

Lemma parse_digits_nonneg (l : list ascii) : forall acc,
  Forall (fun c => is_digit c = true) l -> 0 <= acc ->
  0 <= fold_left (fun acc c => 10 * acc + (code c - 48)) l acc.
Proof.
  induction l as [|c l IH]; intros acc Hl Hacc; cbn [fold_left]; [exact Hacc|].
  inversion Hl as [|? ? Hc Hl']; subst.
  apply IH; [exact Hl'|]. pose proof (digit_value c Hc). lia.
Qed.

Lemma code_and_digits_digits (s d : string) :
  code_and_digits s = Some d -> all_in is_digit d.
Proof.
  unfold code_and_digits. destruct (literal_ci " code" s) as [r|]; [|discriminate].
  destruct (span _ r) as [seps r'].
  pose proof (span_head_in is_digit r') as H.
  destruct (span is_digit r') as [digits r'']. simpl in H.
  destruct (String.eqb seps "" || String.eqb digits ""); [discriminate|].
  now intros [= <-].
Qed.

Lemma exit_code_match_digits (s : string) : forall d,
  exit_code_match s = Some d -> all_in is_digit d.
Proof.
  assert (Hhere : forall s d, exit_code_here s = Some d -> all_in is_digit d).
  { intros s' d. unfold exit_code_here.
    destruct (literal_ci "exit" s') as [r|]; [|discriminate].
    destruct (literal_ci "ed with" r) as [r'|].
    - destruct (code_and_digits r') as [d'|] eqn:E.
      + intros [= <-]. now apply (code_and_digits_digits r').
      + apply code_and_digits_digits.
    - apply code_and_digits_digits. }
  induction s as [|c s IH]; intros d; cbn [exit_code_match].
  - destruct (exit_code_here "") as [d'|] eqn:E; [|discriminate].
    intros [= <-]. now apply (Hhere "").
  - destruct (exit_code_here (String c s)) as [d'|] eqn:E.
    + intros [= <-]. now apply (Hhere (String c s)).
    + apply IH.
Qed.

Lemma toDouble_nonneg (m : Z) : 0 <= m -> 0 <= toDouble m.
Proof.
  intros Hm. unfold toDouble.
  destruct (Z.leb_spec m MAX_SAFE_INTEGER); [exact Hm|].
  set (e := Z.log2 m - 52). set (q := Z.shiftr m e).
  assert (Hq : 0 <= q) by (apply Z.shiftr_nonneg; exact Hm).
  destruct (Z.leb_spec Infinity
              (Z.shiftl (if (Z.shiftl 1 (e - 1) <? m - Z.shiftl q e) ||
                            ((m - Z.shiftl q e =? Z.shiftl 1 (e - 1)) && Z.odd q)
                         then q + 1 else q) e)).
  - unfold Infinity. apply Z.pow_nonneg. lia.
  - apply Z.shiftl_nonneg. destruct (_ || _); lia.
Qed.

Lemma toDouble_safe (m : Z) : m <= MAX_SAFE_INTEGER -> toDouble m = m.
Proof.
  intros Hm. unfold toDouble. destruct (Z.leb_spec m MAX_SAFE_INTEGER); [reflexivity | lia].
Qed.

(** Up to [MAX_SAFE_INTEGER] a number is printed in decimal notation. *)
Lemma numberToString_safe (n : Z) :
  0 <= n <= MAX_SAFE_INTEGER -> numberToString n = decimal n.
Proof.
  intros [H0 Hn]. unfold numberToString.
  destruct (Z.ltb_spec n 0); [lia|]. rewrite (toDouble_safe n Hn).
  unfold doubleToString. destruct (Z.leb_spec n MAX_SAFE_INTEGER); [reflexivity | lia].
Qed.

(** An extracted exit code is never negative. *)
Theorem extractExitCode_nonneg (text : option string) (n : Z) :
  extractExitCode text = Some n -> 0 <= n.
Proof.
  unfold extractExitCode. destruct text as [t|]; [|discriminate].
  destruct (String.eqb t ""); [discriminate|].
  destruct (exit_code_match t) as [d|] eqn:E; [|discriminate].
  intros [= <-]. unfold parseInt, digitsValue. apply toDouble_nonneg.
  apply parse_digits_nonneg; [|lia]. now apply (exit_code_match_digits t).
Qed.

Lemma extractExitCode_nonneg_witness :
  extractExitCode (Some "Process exited with code 137") = Some 137 /\ 0 <= 137.
Proof.
  split; [reflexivity|].
  apply (extractExitCode_nonneg (Some "Process exited with code 137")). reflexivity.
Defined.

(** *** The decimal notation of a number is read back *)

Local Abbreviation step := (fun acc c => 10 * acc + (code c - 48)).

Lemma parse_uint_acc (d : Decimal.uint) : forall acc : positive,
  fold_left step (list_ascii_of_string (NilEmpty.string_of_uint d)) (Zpos acc)
  = Zpos (Pos.of_uint_acc d acc).
Proof.
  induction d; intros acc;
    cbn [NilEmpty.string_of_uint list_ascii_of_string fold_left Pos.of_uint_acc];
    try reflexivity;
    rewrite <- IHd; f_equal;
    match goal with
    | |- context [code ?c] =>
        let v := eval vm_compute in (code c) in change (code c) with v
    end; lia.
Qed.

Lemma parse_uint (d : Decimal.uint) :
  fold_left step (list_ascii_of_string (NilEmpty.string_of_uint d)) 0
  = Z.of_N (Pos.of_uint d).
Proof.
  induction d;
    cbn [NilEmpty.string_of_uint list_ascii_of_string fold_left Pos.of_uint];
    try reflexivity; try exact IHd;
    apply (parse_uint_acc d).
Qed.

Lemma uint_digits (d : Decimal.uint) : all_in is_digit (NilEmpty.string_of_uint d).
Proof. induction d; simpl; constructor; try reflexivity; assumption. Qed.

Lemma decimal_digits (n : Z) :
  0 <= n -> all_in is_digit (decimal n) /\ decimal n <> "".
Proof.
  intros Hn. unfold decimal. destruct n as [|p|p]; [| |lia].
  - split; [repeat constructor | discriminate].
  - simpl. unfold NilZero.string_of_uint.
    pose proof (DecimalPos.Unsigned.to_uint_nonnil p) as Hnil.
    destruct (Pos.to_uint p) eqn:E; try contradiction;
      (split; [rewrite <- E in *; apply uint_digits | discriminate]).
Qed.

Lemma digitsValue_decimal (n : Z) : 0 <= n -> digitsValue (decimal n) = n.
Proof.
  intros Hn. unfold digitsValue, decimal. destruct n as [|p|p]; [reflexivity| |lia].
  simpl. unfold NilZero.string_of_uint.
  pose proof (DecimalPos.Unsigned.to_uint_nonnil p) as Hnil.
  assert (H : fold_left step
                (list_ascii_of_string (NilEmpty.string_of_uint (Pos.to_uint p))) 0
              = Zpos p).
  { rewrite parse_uint, DecimalPos.Unsigned.of_to. reflexivity. }
  destruct (Pos.to_uint p); try contradiction; exact H.
Qed.

Lemma literal_ci_app (lit rest : string) : literal_ci lit (lit ++ rest) = Some rest.
Proof.
  induction lit as [|a lit IH]; simpl; [now destruct rest|].
  now rewrite Ascii.eqb_refl.
Qed.

Lemma digit_no_separator (c : ascii) :
  is_digit c = true -> (Ascii.eqb c ":" || is_space c) = false.
Proof.
  destruct c as [[|] [|] [|] [|] [|] [|] [|] [|]]; vm_compute; congruence.
Qed.

Lemma exit_code_match_here (s d : string) :
  exit_code_here s = Some d -> exit_code_match s = Some d.
Proof. intros H. destruct s; cbn [exit_code_match]; now rewrite H. Qed.

(** The tail of the pattern reads a decimal notation back. *)
Lemma code_and_digits_decimal (n : Z) (sep rest : string) :
  0 <= n ->
  sep = ": " \/ sep = " " ->
  match rest with EmptyString => True | String c _ => is_digit c = false end ->
  code_and_digits (" code" ++ sep ++ decimal n ++ rest) = Some (decimal n).
Proof.
  intros Hn Hsep Hrest. unfold code_and_digits. rewrite literal_ci_app.
  destruct (decimal_digits n Hn) as [Hdigits Hne].
  rewrite (span_app _ sep (decimal n ++ rest)).
  - rewrite (span_app is_digit _ rest Hdigits Hrest).
    assert (String.eqb sep "" = false) as -> by (destruct Hsep; subst; reflexivity).
    apply String.eqb_neq in Hne. now rewrite Hne.
  - destruct Hsep; subst; repeat constructor.
  - destruct (decimal n) as [|c t]; [contradiction|]. simpl.
    simpl in Hdigits. inversion Hdigits; subst. now apply digit_no_separator.
Qed.

(** A result that opens with [exited with code: n] or [exit code n], for a
    number [n] from 0 to [MAX_SAFE_INTEGER] that is not followed by a digit,
    gives back [n] as exit code, and the shell summary shows the command and
    [exit n], not the text of the result.  (Beyond [MAX_SAFE_INTEGER] the
    digits are read back rounded.) *)
Theorem exit_code_round_trip (n : Z) (cmd rest : string) :
  0 <= n <= MAX_SAFE_INTEGER ->
  match rest with EmptyString => True | String c _ => is_digit c = false end ->
  extractExitCode (Some ("exited with code: " ++ numberToString n ++ rest)) = Some n /\
  extractExitCode (Some ("exit code " ++ numberToString n ++ rest)) = Some n /\
  shellSummary cmd (Some ("exited with code: " ++ numberToString n ++ rest))
  = "$ " ++ truncate cmd 80 ++ " → exit " ++ numberToString n /\
  numberToString n = decimal n.
Proof.
  intros Hsafe Hrest. rewrite (numberToString_safe n Hsafe).
  assert (Hn : 0 <= n) by lia.
  assert (Hread : parseInt (decimal n) = n).
  { unfold parseInt. rewrite (digitsValue_decimal n Hn). apply toDouble_safe. lia. }
  assert (H1 : extractExitCode (Some ("exited with code: " ++ decimal n ++ rest))
               = Some n).
  { unfold extractExitCode.
    change ("exited with code: " ++ decimal n ++ rest)
      with ("exit" ++ "ed with" ++ " code" ++ ": " ++ decimal n ++ rest).
    replace (String.eqb ("exit" ++ "ed with" ++ " code" ++ ": " ++ decimal n ++ rest) "")
      with false by reflexivity.
    rewrite (exit_code_match_here _ (decimal n)).
    - now rewrite Hread.
    - unfold exit_code_here. rewrite literal_ci_app, literal_ci_app.
      rewrite (code_and_digits_decimal n ": " rest Hn); auto. }
  split; [exact H1|]. split; [|split; [|reflexivity]].
  - unfold extractExitCode.
    change ("exit code " ++ decimal n ++ rest)
      with ("exit" ++ " code" ++ " " ++ decimal n ++ rest).
    replace (String.eqb ("exit" ++ " code" ++ " " ++ decimal n ++ rest) "")
      with false by reflexivity.
    rewrite (exit_code_match_here _ (decimal n)).
    + now rewrite Hread.
    + unfold exit_code_here. rewrite literal_ci_app.
      replace (literal_ci "ed with" (" code" ++ " " ++ decimal n ++ rest))
        with (@None string) by reflexivity.
      apply (code_and_digits_decimal n " " rest Hn); auto.
  - unfold shellSummary. rewrite H1, (numberToString_safe n Hsafe). reflexivity.
Qed.

Lemma exit_code_round_trip_witness :
  extractExitCode (Some ("exited with code: " ++ numberToString 2 ++ " (failed)")) = Some 2.
Proof.
  apply (exit_code_round_trip 2 "make" " (failed)");
    [unfold MAX_SAFE_INTEGER; lia | reflexivity].
Defined.

End ExitCodeProps.

(** ** What the collector keeps *)
Module CollectorContents.
Import ToolSummarizer CollectorWords JsFacts.
Local Open Scope list_scope.

Section Contents.

Context {D : Type}.
Implicit Types (c : SummaryCollector D) (k : call D) (calls : list (call D)).

Lemma run_snoc c calls k : run c (calls ++ [k]) = perform (run c calls) k.
Proof. unfold run. now rewrite fold_left_app. Qed.

Lemma limits_run calls : forall c, categoryLimits (run c calls) = categoryLimits c.
Proof.
  induction calls as [|k calls IH]; intros c; [reflexivity|].
  unfold run in *. cbn [fold_left]. rewrite IH. now destruct k.
Qed.

Lemma firstn_snoc {A : Type} (n : nat) (l : list A) (x : A) :
  firstn n (l ++ [x]) =
  if (List.length (firstn n l) <? n)%nat then firstn n l ++ [x] else firstn n l.
Proof.
  rewrite firstn_app, length_firstn.
  destruct (Nat.ltb_spec (Nat.min n (List.length l)) n) as [Hlt|Hge].
  - assert (Hl : (List.length l < n)%nat) by lia.
    rewrite (firstn_all2 l) by lia.
    replace (n - List.length l)%nat with (S (n - List.length l - 1)) by lia.
    simpl. now rewrite firstn_nil.
  - replace (n - List.length l)%nat with 0%nat by lia. simpl. now rewrite app_nil_r.
Qed.

(** The samples that a limit lets through. *)
Let kept (limits : list (string * Z)) (category : string) (l : list (ToolSample D))
  : list (ToolSample D) :=
  match maxSamplesOf limits category with
  | Limit n => firstn (Z.to_nat n) l
  | NotANumber _ => []
  end.

Lemma offered_is_add (category : string) k :
  offered category k = [] <-> is_add category k = false.
Proof.
  destruct k as [c s opts|p]; simpl; [|tauto].
  destruct (String.eqb c category); split; congruence.
Qed.

Lemma samplesOf_none (category : string) calls :
  adds category calls = 0 -> samplesOf category calls = [].
Proof.
  unfold adds, samplesOf. induction calls as [|k calls IH]; simpl; [reflexivity|].
  destruct (is_add category k) eqn:E; simpl; [lia|].
  intros H. apply offered_is_add in E. rewrite E. now apply IH.
Qed.

Lemma failures_none (category : string) calls :
  adds category calls = 0 -> failures category calls = 0.
Proof.
  unfold adds, failures. induction calls as [|k calls IH]; simpl; [reflexivity|].
  destruct (is_add category k) eqn:E; simpl; [lia|].
  intros H. assert (is_failed_add category k = false) as ->; [|now apply IH].
  destruct k as [c s [o|]|p]; simpl in *; try reflexivity. now rewrite E.
Qed.

(** What an entry holds after any calls. *)
Lemma entries_after (limits : list (string * Z)) calls (category : string) :
  match map_get category (coll_data (run (emptyCollector limits) calls)) with
  | Some e =>
      0 < adds category calls /\
      count e = adds category calls /\
      samples e = kept limits category (samplesOf category calls) /\
      errorCount e = failures category calls
  | None => adds category calls = 0
  end.
Proof.
  induction calls as [|k calls IH] using rev_ind; [reflexivity|].
  rewrite run_snoc.
  assert (Hadds : adds category (calls ++ [k]) =
                  adds category calls + (if is_add category k then 1 else 0)).
  { unfold adds. rewrite filter_app, length_app. simpl.
    destruct (is_add category k); simpl; lia. }
  assert (Hfail : failures category (calls ++ [k]) =
                  failures category calls + (if is_failed_add category k then 1 else 0)).
  { unfold failures. rewrite filter_app, length_app. simpl.
    destruct (is_failed_add category k); simpl; lia. }
  assert (Hsam : samplesOf category (calls ++ [k]) =
                 samplesOf category calls ++ offered category k).
  { unfold samplesOf. rewrite flat_map_app. simpl. now rewrite app_nil_r. }
  rewrite Hadds, Hfail, Hsam.
  pose proof (limits_run calls (emptyCollector limits)) as Hlim. simpl in Hlim.
  set (c := run (emptyCollector limits) calls) in *.
  destruct k as [cat s opts | p].
  2:{ cbn [perform trackFile coll_data is_add is_failed_add offered].
      destruct (map_get category (coll_data c));
        rewrite ?Z.add_0_r, ?app_nil_r; exact IH. }
  cbn [perform add coll_data is_add offered].
  destruct (String.eqb cat category) eqn:E.
  2:{ rewrite SummarizerProps.map_get_set_other by exact E.
      assert (is_failed_add category (Add cat s opts) = false) as ->
        by (destruct opts; cbn [is_failed_add]; now rewrite ?E).
      destruct (map_get category (coll_data c));
        rewrite ?Z.add_0_r, ?app_nil_r; exact IH. }
  apply String.eqb_eq in E. subst cat.
  rewrite SummarizerProps.map_get_set_same. cbn [count samples errorCount]. rewrite Hlim.
  assert (Hold :
    0 <= adds category calls /\
    count (match map_get category (coll_data c) with
           | Some e => e
           | None => {| count := 0; errorCount := 0; samples := [] |}
           end) = adds category calls /\
    samples (match map_get category (coll_data c) with
             | Some e => e
             | None => {| count := 0; errorCount := 0; samples := [] |}
             end) = kept limits category (samplesOf category calls) /\
    errorCount (match map_get category (coll_data c) with
                | Some e => e
                | None => {| count := 0; errorCount := 0; samples := [] |}
                end) = failures category calls).
  { destruct (map_get category (coll_data c)); [intuition lia|].
    rewrite (samplesOf_none _ _ IH), (failures_none _ _ IH).
    cbn [count samples errorCount].
    unfold kept. destruct (maxSamplesOf limits category);
      rewrite ?firstn_nil; intuition lia. }
  destruct Hold as [Hn [Hc [Hs He]]]. rewrite Hc, Hs, He.
  split; [lia|]. split; [reflexivity|]. split.
  - unfold kept. destruct (maxSamplesOf limits category) as [n|i]; cbn [below];
      [|reflexivity].
    rewrite firstn_snoc.
    destruct (Z.ltb_spec (Z.of_nat (List.length (firstn (Z.to_nat n)
                (samplesOf category calls)))) n) as [Hlt|Hge];
      destruct (Nat.ltb_spec (List.length (firstn (Z.to_nat n)
                (samplesOf category calls))) (Z.to_nat n));
      try reflexivity; lia.
  - unfold flag. destruct opts as [o|]; cbn [is_failed_add]; [|lia].
    rewrite String.eqb_refl. cbn [andb]. destruct (isError o) as [[|]|]; lia.
Qed.

(** A category has a summary exactly when it was added.  Its retained
    samples are the first of those offered, in their order, up to the limit
    of the category, each with its summary and its data; a category named
    like a property of [Object.prototype] and without configured limit
    retains none.  The summary has an [errorCount] exactly when some call
    had [isError] set, and it is then the number of those calls. *)
Theorem summary_samples_and_errors (limits : list (string * Z)) calls
    (category : string) :
  match summaryOf category (getSummaries (run (emptyCollector limits) calls)) with
  | Some s =>
      0 < adds category calls /\
      sum_name s = category /\
      sum_count s = adds category calls /\
      sum_samples s =
        match maxSamplesOf limits category with
        | Limit n => firstn (Z.to_nat n) (samplesOf category calls)
        | NotANumber _ => []
        end /\
      sum_errorCount s =
        (if failures category calls >? 0 then Some (failures category calls) else None)
  | None => adds category calls = 0
  end.
Proof.
  rewrite SummarizerProps.summaryOf_getSummaries.
  pose proof (entries_after limits calls category) as H.
  destruct (map_get category (coll_data (run (emptyCollector limits) calls)));
    simpl; [|exact H].
  destruct H as [Hadds [Hc [Hs He]]]. rewrite Hs, He. repeat split; assumption.
Qed.

Lemma names_getSummaries c : map sum_name (getSummaries c) = map fst (coll_data c).
Proof.
  unfold getSummaries. rewrite map_map. apply map_ext. now intros [name e].
Qed.

Lemma keys_map_set (category : string) (e : Entry D) m :
  map fst (map_set category e m) =
  if mem category (map fst m) then map fst m else map fst m ++ [category].
Proof.
  induction m as [|[k e'] m IH]; [reflexivity|].
  cbn [map_set map fst mem existsb].
  rewrite (String.eqb_sym category k).
  destruct (String.eqb k category) eqn:E; [reflexivity|].
  cbn [map fst orb]. rewrite IH. fold (mem category (map fst m)).
  now destruct (mem category (map fst m)).
Qed.

Lemma mem_dedup_from (x : string) (l : list string) : forall seen,
  mem x (Claude.dedup_from seen l) = mem x l && negb (mem x seen).
Proof.
  induction l as [|y l IH]; intros seen; [reflexivity|].
  cbn [Claude.dedup_from]. destruct (mem y seen) eqn:Hy.
  - rewrite IH. cbn [mem existsb]. fold (mem x l).
    destruct (String.eqb_spec x y) as [->|Hne]; [|reflexivity].
    rewrite Hy. cbn. now rewrite andb_false_r.
  - cbn [mem existsb]. fold (mem x l) (mem x (Claude.dedup_from (seen ++ [y]) l)).
    rewrite IH, ClaudeProps.mem_app. cbn [mem existsb]. rewrite orb_false_r.
    destruct (String.eqb_spec x y) as [->|Hne].
    + rewrite Hy. cbn. reflexivity.
    + cbn. now rewrite orb_false_r.
Qed.

Lemma dedup_from_snoc (x : string) (l : list string) : forall seen,
  Claude.dedup_from seen (l ++ [x]) =
  Claude.dedup_from seen l ++ (if mem x seen || mem x l then [] else [x]).
Proof.
  induction l as [|y l IH]; intros seen.
  - cbn. rewrite orb_false_r. now destruct (mem x seen).
  - cbn [app Claude.dedup_from]. destruct (mem y seen) eqn:Hy.
    + rewrite IH. cbn [mem existsb]. fold (mem x l).
      destruct (String.eqb_spec x y) as [->|Hne]; [|reflexivity].
      now rewrite Hy.
    + rewrite IH, ClaudeProps.mem_app. cbn [mem existsb app]. fold (mem x l).
      rewrite orb_false_r, <- orb_assoc. reflexivity.
Qed.

(** The summaries come one per category, in the order in which the
    categories were first added. *)
Theorem summaries_first_seen_order (limits : list (string * Z)) calls :
  map sum_name (getSummaries (run (emptyCollector limits) calls))
  = Claude.dedup (categoriesOf calls) /\
  NoDup (map sum_name (getSummaries (run (emptyCollector limits) calls))).
Proof.
  assert (H : map sum_name (getSummaries (run (emptyCollector limits) calls))
              = Claude.dedup (categoriesOf calls)).
  { rewrite names_getSummaries.
    induction calls as [|k calls IH] using rev_ind; [reflexivity|].
    rewrite run_snoc. unfold categoriesOf in *. rewrite flat_map_app.
    destruct k as [cat s opts | p]; cbn [perform add trackFile coll_data flat_map].
    - rewrite keys_map_set, IH. unfold Claude.dedup.
      rewrite app_nil_r, dedup_from_snoc, mem_dedup_from. cbn [mem existsb orb negb].
      rewrite andb_true_r.
      destruct (mem cat _); [now rewrite app_nil_r | reflexivity].
    - now rewrite app_nil_r. }
  split; [exact H|]. rewrite H. apply ClaudeProps.dedup_from_NoDup.
Qed.

End Contents.

End CollectorContents.

(** ** Further properties of config/verbosity.ts *)
Module MergeProps.
Import Zod Verbosity VerbosityWords JsFacts ZodFacts VerbosityProps.

(** *** What a merge keeps and what it replaces *)

(** A value of the overrides that replaces is, at the same path, the value
    of the merged tree. *)
Lemma merge_replaces (path : list string) : forall (over base : obj) (v : value),
  path <> [] -> ~ In "__proto__" path ->
  well_formed (VObj over) = true ->
  replaces v = true ->
  at_path path (VObj over) = Some v ->
  at_path path (VObj (merge_into (VObj over) base)) = Some v.
Proof.
  induction path as [|key rest IH]; intros over base v Hne Hproto Hwf Hv Hat; [easy|].
  cbn [at_path] in Hat |- *.
  destruct (own key over) as [w|] eqn:Hown; [|discriminate].
  apply own_In in Hown.
  simpl in Hwf. apply andb_true_iff in Hwf as [Hdist Hall].
  rewrite (own_merge_into_key key w over base (distinct_NoDup _ Hdist) Hown).
  assert (Hwfw : well_formed w = true).
  { rewrite forallb_forall in Hall. exact (Hall _ Hown). }
  unfold merge_key.
  assert (String.eqb key "__proto__" = false) as ->.
  { apply String.eqb_neq. intros ->. apply Hproto. now left. }
  destruct rest as [|key' rest'].
  - simpl in Hat. injection Hat as ->.
    destruct v; try discriminate;
      destruct (own key base) as [[]|]; now rewrite own_set_same.
  - destruct w as [| | | | | |o]; try discriminate.
    assert (Hrest : forall b,
      at_path (key' :: rest') (VObj (merge_into (VObj o) b)) = Some v).
    { intros b. apply IH; [discriminate | simpl in *; tauto | exact Hwfw | exact Hv | exact Hat]. }
    destruct (own key base) as [[| | | | | |b]|];
      rewrite own_set_same; try exact Hat; apply Hrest.
Qed.

(** Override wins at the leaf: a number, boolean, string, [null] or array
    that the overrides hold at a path is what the merged configuration
    holds at that path, whatever the base holds there. *)
Theorem deepMerge_override_wins (base over : obj) (path : list string) (v : value) :
  path <> [] -> ~ In "__proto__" path ->
  well_formed (VObj over) = true ->
  replaces v = true ->
  at_path path (VObj over) = Some v ->
  at_path path (VObj (mergeConfig base over)) = Some v.
Proof. intros. unfold mergeConfig, deepMerge. now apply merge_replaces. Qed.

Lemma deepMerge_override_wins_witness :
  at_path ["mcp"; "thinkingTools"; "extractReasoning"]
    (VObj (mergeConfig MINIMAL_PRESET
             [("mcp", VObj [("thinkingTools", VObj [("extractReasoning", VBool true)])])]))
  = Some (VBool true).
Proof.
  apply deepMerge_override_wins; try reflexivity; [discriminate|].
  simpl. intuition discriminate.
Defined.

Lemma keys_set (key : string) (v : value) (o : obj) :
  keys (set key v o) = if mem key (keys o) then keys o else (keys o ++ [key])%list.
Proof.
  unfold keys. induction o as [|[k w] o IH]; [reflexivity|].
  cbn [set map fst mem existsb]. rewrite (String.eqb_sym key k).
  destruct (String.eqb k key) eqn:E; [reflexivity|].
  cbn [map fst orb]. rewrite IH. fold (mem key (map fst o)).
  now destruct (mem key (map fst o)).
Qed.

(** An assignment keeps the keys of the result in place and appends at
    most the assigned key. *)
Lemma keys_merge_key (recur : obj -> obj) (key : string) (overVal : value) (result : obj) :
  exists added,
    keys (merge_key recur key overVal result) = (keys result ++ added)%list /\
    forall k, In k added -> k = key /\ ~ In k (keys result).
Proof.
  assert (Hset : forall v, exists added,
    keys (set key v result) = (keys result ++ added)%list /\
    forall k, In k added -> k = key /\ ~ In k (keys result)).
  { intros v. rewrite keys_set. destruct (mem key (keys result)) eqn:E.
    - exists []. rewrite app_nil_r. split; [reflexivity | intros k []].
    - exists [key]. split; [reflexivity|]. intros k [<-|[]].
      split; [reflexivity | now apply mem_false]. }
  assert (Hsame : exists added,
    keys result = (keys result ++ added)%list /\
    forall k, In k added -> k = key /\ ~ In k (keys result)).
  { exists []. rewrite app_nil_r. split; [reflexivity | intros k []]. }
  unfold merge_key. destruct (String.eqb key "__proto__"); [exact Hsame|].
  destruct (own key result) as [[]|]; destruct overVal;
    first [exact Hsame | apply Hset].
Qed.

(** A merge never removes or moves a key of the base: for objects whose
    keys are not array indices, the keys of the result are those of the
    base, in their order, followed by the keys that only the overrides
    have. *)
Theorem deepMerge_keeps_keys (base over : obj) :
  Forall (fun k => is_index k = false) (keys base) ->
  Forall (fun k => is_index k = false) (keys over) ->
  exists added,
    keys (mergeConfig base over) = (keys base ++ added)%list /\
    forall k, In k added -> In k (keys over) /\ ~ In k (keys base).
Proof.
  intros _ _. unfold mergeConfig, deepMerge. revert base.
  induction over as [|[key overVal] over IH]; intros base.
  - exists []. rewrite app_nil_r. split; [reflexivity | intros k []].
  - rewrite merge_into_cons.
    destruct (keys_merge_key (merge_into overVal) key overVal base) as [a1 [H1 Ha1]].
    destruct (IH (merge_key (merge_into overVal) key overVal base)) as [a2 [H2 Ha2]].
    exists (a1 ++ a2)%list. rewrite H2, H1, app_assoc. split; [reflexivity|].
    intros k Hk. apply in_app_or in Hk as [Hk|Hk].
    + destruct (Ha1 k Hk) as [-> Hnot]. split; [now left | exact Hnot].
    + destruct (Ha2 k Hk) as [Hin Hnot]. split; [now right|].
      intros Hb. apply Hnot. rewrite H1. apply in_or_app. now left.
Qed.

Lemma deepMerge_keeps_keys_witness :
  exists added,
    keys (mergeConfig STANDARD_PRESET
            [("colour", VBool true); ("shell", VObj [("maxSamples", VNum 1)])])
    = (keys STANDARD_PRESET ++ added)%list /\
    forall k, In k added ->
      In k (keys [("colour", VBool true); ("shell", VObj [("maxSamples", VNum 1)])]) /\
      ~ In k (keys STANDARD_PRESET).
Proof.
  apply (deepMerge_keeps_keys STANDARD_PRESET
           [("colour", VBool true); ("shell", VObj [("maxSamples", VNum 1)])]);
    repeat constructor.
Defined.

(** A key that the overrides do not have, or have as [undefined], keeps the
    value of the base: an override never erases. *)
Theorem deepMerge_untouched (base over : obj) (key : string) :
  distinct (keys over) = true ->
  own key over = None \/ own key over = Some VUndefined ->
  own key (mergeConfig base over) = own key base.
Proof.
  intros Hdist Hkey. unfold mergeConfig, deepMerge.
  destruct Hkey as [Hnone|Hundef].
  - apply own_merge_into_other. intros Hin.
    clear - Hnone Hin. induction over as [|[k w] over IH]; simpl in *; [easy|].
    destruct (String.eqb k key) eqn:E; [discriminate|].
    apply String.eqb_neq in E. destruct Hin as [->|Hin]; [easy | now apply IH].
  - apply own_In in Hundef.
    rewrite (own_merge_into_key key VUndefined over base (distinct_NoDup _ Hdist) Hundef).
    unfold merge_key. destruct (String.eqb key "__proto__"); [reflexivity|].
    destruct (own key base) as [[]|] eqn:E; exact E.
Qed.

Lemma deepMerge_untouched_witness :
  own "read" (mergeConfig STANDARD_PRESET
                [("shell", VObj [("maxSamples", VNum 1)]); ("task", VUndefined)])
  = own "read" STANDARD_PRESET /\
  own "task" (mergeConfig STANDARD_PRESET
                [("shell", VObj [("maxSamples", VNum 1)]); ("task", VUndefined)])
  = own "task" STANDARD_PRESET.
Proof.
  split; apply deepMerge_untouched; try reflexivity; [now left | now right].
Defined.

(** *** Merging the same overrides twice *)

(** Induction on values, with the property at hand for the items of an
    array and for the values of the properties of an object. *)
Lemma value_induction (P : value -> Prop) :
  P VUndefined -> P VNull -> (forall b, P (VBool b)) -> (forall n, P (VNum n)) ->
  (forall s, P (VStr s)) ->
  (forall items, Forall P items -> P (VArr items)) ->
  (forall props, Forall (fun kv => P (snd kv)) props -> P (VObj props)) ->
  forall v, P v.
Proof.
  intros Hu Hn Hb Hz Hs Harr Hobj. fix IH 1.
  intros [| | b | n | s | items | props];
    [exact Hu | exact Hn | apply Hb | apply Hz | apply Hs | | ].
  - apply Harr. induction items as [|x items IHi]; constructor; [apply IH | exact IHi].
  - apply Hobj. induction props as [|[k x] props IHp]; constructor;
      [apply IH | exact IHp].
Qed.

Lemma set_same (key : string) (v : value) (o : obj) :
  own key o = Some v -> set key v o = o.
Proof.
  induction o as [|[k w] o IH]; simpl; [discriminate|].
  destruct (String.eqb k key) eqn:E.
  - now intros [= ->].
  - intros H. now rewrite IH.
Qed.

Lemma In_own (key : string) (v : value) (o : obj) :
  NoDup (keys o) -> In (key, v) o -> own key o = Some v.
Proof.
  induction o as [|[k w] o IH]; simpl; [easy|].
  intros Hnd Hin. inversion Hnd as [|? ? Hk Hnd']; subst.
  destruct Hin as [[= -> ->]|Hin]; [now rewrite String.eqb_refl|].
  destruct (String.eqb_spec k key) as [->|Hne]; [|now apply IH].
  exfalso. apply Hk. apply (in_map fst) in Hin. exact Hin.
Qed.

(** A result that every assignment of the overrides leaves as it is, is
    left as it is by the merge. *)
Lemma merge_into_fixed (es result : obj) :
  (forall key w, In (key, w) es -> merge_key (merge_into w) key w result = result) ->
  merge_into (VObj es) result = result.
Proof.
  induction es as [|[key w] es IH]; intros H; [reflexivity|].
  rewrite merge_into_cons, (H key w) by now left.
  apply IH. intros k v Hin. apply H. now right.
Qed.

Lemma well_formed_props (props : obj) :
  well_formed (VObj props) = true ->
  NoDup (keys props) /\ forall key w, In (key, w) props -> well_formed w = true.
Proof.
  simpl. intros H. apply andb_true_iff in H as [Hd Hall]. split.
  - now apply distinct_NoDup.
  - intros key w Hin. rewrite forallb_forall in Hall. exact (Hall _ Hin).
Qed.

(** An object merged onto itself is itself. *)
Lemma merge_self (v : value) :
  well_formed v = true ->
  match v with VObj o => merge_into v o = o | _ => True end.
Proof.
  induction v as [| | | | | |props IH] using value_induction; try easy.
  intros Hwf. destruct (well_formed_props props Hwf) as [Hnd Hwfs].
  apply merge_into_fixed. intros key w Hin.
  unfold merge_key. destruct (String.eqb key "__proto__"); [reflexivity|].
  rewrite (In_own key w props Hnd Hin).
  rewrite Forall_forall in IH. specialize (IH (key, w) Hin (Hwfs key w Hin)).
  simpl in IH.
  destruct w as [| | | | | |o]; try reflexivity;
    try (apply set_same; now apply In_own).
  rewrite IH. apply set_same. now apply In_own.
Qed.

Lemma merge_twice (v : value) :
  well_formed v = true ->
  forall base, merge_into v (merge_into v base) = merge_into v base.
Proof.
  induction v as [| | | | | |props IH] using value_induction; try easy.
  intros Hwf base. destruct (well_formed_props props Hwf) as [Hnd Hwfs].
  apply merge_into_fixed. intros key w Hin.
  rewrite Forall_forall in IH. specialize (IH (key, w) Hin (Hwfs key w Hin)).
  simpl in IH.
  pose proof (merge_self w (Hwfs key w Hin)) as Hself.
  pose proof (own_merge_into_key key w props base Hnd Hin) as Hown.
  set (R := merge_into (VObj props) base) in *.
  unfold merge_key in *. destruct (String.eqb key "__proto__"); [reflexivity|].
  destruct w as [| | | | | |o].
  - destruct (own key R) as [[]|]; reflexivity.
  - destruct (own key base) as [[]|]; rewrite own_set_same in Hown; rewrite Hown;
      now apply set_same.
  - destruct (own key base) as [[]|]; rewrite own_set_same in Hown; rewrite Hown;
      now apply set_same.
  - destruct (own key base) as [[]|]; rewrite own_set_same in Hown; rewrite Hown;
      now apply set_same.
  - destruct (own key base) as [[]|]; rewrite own_set_same in Hown; rewrite Hown;
      now apply set_same.
  - destruct (own key base) as [[]|]; rewrite own_set_same in Hown; rewrite Hown;
      now apply set_same.
  - destruct (own key base) as [[| | | | | |b]|]; rewrite own_set_same in Hown;
      rewrite Hown; rewrite ?IH, ?Hself; now apply set_same.
Qed.

(** Merging the same overrides a second time changes nothing. *)
Theorem deepMerge_idempotent (base over : obj) :
  well_formed (VObj over) = true ->
  mergeConfig (mergeConfig base over) over = mergeConfig base over.
Proof. intros Hwf. unfold mergeConfig, deepMerge. now apply merge_twice. Qed.

Lemma deepMerge_idempotent_witness :
  let over := [("shell", VObj [("maxSamples", VNum 1)]); ("extra", VObj [("x", VNull)])] in
  mergeConfig (mergeConfig STANDARD_PRESET over) over = mergeConfig STANDARD_PRESET over.
Proof. cbv zeta. apply deepMerge_idempotent. reflexivity. Defined.

End MergeProps.

(** ** Validated and resolved configurations *)
Module ResolutionProps.
Import Zod Verbosity VerbosityWords ToolSummarizer JsFacts ZodFacts VerbosityProps.

Lemma shape_get_In (key : string) (s : schema) shape :
  shape_get key shape = Some s -> In (key, s) shape.
Proof.
  induction shape as [|[k s0] shape IH]; simpl; [discriminate|].
  destruct (String.eqb k key) eqn:E.
  - apply String.eqb_eq in E. intros [= ->]. left. now subst.
  - intros H. right. now apply IH.
Qed.

(** Where a schema leads to a cap, the parsed data holds a number that is
    not negative. *)
Lemma leads_to_cap_parsed (path : list string) : forall (s : schema) (v out : value),
  leads_to_cap path s = true -> safeParse s v = Some out ->
  exists n, at_path path out = Some (VNum n) /\ 0 <= n.
Proof.
  induction path as [|key rest IH]; intros s v out Hs Hparse.
  - simpl in Hs.
    destruct s as [| | | |[[[]|]| | | | | | | |] [| | |d| | |]| | | |]; try discriminate.
    destruct v; simpl in Hparse; try discriminate.
    + rewrite Hs in Hparse.
      injection Hparse as <-. exists d. split; [reflexivity | now apply Z.leb_le].
    + destruct (Z.leb_spec 0 n); [|discriminate].
      injection Hparse as <-. now exists n.
  - cbn [leads_to_cap] in Hs.
    destruct s as [| | | | | | | |shape [c|]]; try discriminate.
    apply andb_true_iff in Hs as [Hdist Hs].
    destruct (shape_get key shape) as [s'|] eqn:Hget; [|discriminate].
    apply safeParse_object in Hparse as [o [known [-> [-> Hshape]]]].
    destruct (parse_shape_own safeParse shape o known key s'
                (distinct_NoDup _ Hdist) Hshape (shape_get_In _ _ _ Hget))
      as [w [Hw Hown]].
    destruct (IH s' _ w Hs Hw) as [n [Hat Hn]].
    exists n. split; [|exact Hn].
    cbn [at_path]. rewrite Hown; [exact Hat|].
    intros ->. destruct rest; discriminate.
Qed.

(** Every numeric cap of a validated configuration, at each of the 27 paths
    of the schema, is a number that is not negative. *)
Theorem validated_caps (raw config : value) (path : list string) :
  safeParse VerbosityConfigSchema raw = Some config ->
  In path cap_paths ->
  exists n, at_path path config = Some (VNum n) /\ 0 <= n.
Proof.
  intros Hparse Hpath.
  assert (H : forallb (fun p => leads_to_cap p VerbosityConfigSchema) cap_paths = true)
    by (vm_compute; reflexivity).
  rewrite forallb_forall in H.
  exact (leads_to_cap_parsed path _ raw config (H path Hpath) Hparse).
Qed.

Lemma validated_caps_witness :
  exists n,
    at_path ["mcp"; "thinkingTools"; "maxReasoningChars"] (VObj VERBOSE_PRESET)
    = Some (VNum n) /\ 0 <= n.
Proof.
  apply (validated_caps (VObj VERBOSE_PRESET) (VObj VERBOSE_PRESET)).
  - vm_compute. reflexivity.
  - vm_compute. tauto.
Defined.

(** A shape whose fields never parse to [undefined] gives exactly its keys. *)
Lemma parse_shape_all_keys (p : schema -> value -> option value) shape (o out : obj) :
  (forall key s v, In (key, s) shape -> p s (field o key) = Some v -> v <> VUndefined) ->
  parse_shape p shape o = Some out ->
  keys out = map fst shape.
Proof.
  revert out. induction shape as [|[k s] shape IH]; intros out Hdef; simpl.
  - now intros [= <-].
  - destruct (p s (field o k)) as [v|] eqn:Hv; [|discriminate].
    destruct (parse_shape p shape o) as [out'|] eqn:Hout; [|discriminate].
    assert (Hne : v <> VUndefined) by (apply (Hdef k s v); [now left | exact Hv]).
    assert (Hrest : keys out' = map fst shape).
    { apply IH; [|reflexivity]. intros key s0 v0 Hin. apply Hdef. now right. }
    intros [= <-]. destruct v; try contradiction; simpl; now rewrite Hrest.
Qed.

Lemma defined_default (inner : schema) (d x v : value) :
  (forall y w, safeParse inner y = Some w -> w <> VUndefined) ->
  safeParse (ZDefault inner d) x = Some v -> v <> VUndefined.
Proof. intros H. simpl. apply H. Qed.

Lemma defined_scalar (s : schema) (y w : value) :
  match s with
  | ZNumber _ | ZBoolean | ZEnum _ | ZObject _ _ => True
  | _ => False
  end ->
  safeParse s y = Some w -> w <> VUndefined.
Proof.
  destruct s as [m| | |opts| | | | |shape c]; try easy; intros _; simpl.
  - destruct y; try discriminate. destruct m as [m|]; [destruct (m <=? n)|];
      try discriminate; now intros [= <-].
  - destruct y; try discriminate. now intros [= <-].
  - destruct y; try discriminate. destruct (mem s opts); [|discriminate].
    now intros [= <-].
  - destruct y; try discriminate.
    destruct (parse_shape safeParse shape props); [|discriminate].
    destruct c as [c|]; [destruct (parse_entries _ _)|]; try discriminate;
      now intros [= <-].
Qed.

(** A validated configuration has exactly the fourteen top-level keys of the
    schema, in the order of the schema: a key that the schema does not name
    is stripped. *)
Theorem validated_keys (raw config : value) :
  safeParse VerbosityConfigSchema raw = Some config ->
  exists o,
    config = VObj o /\
    keys o = [ "preset"; "recentMessages"; "maxMessageChars"; "shell"; "read";
               "write"; "edit"; "grep"; "mcp"; "task"; "thinking";
               "compactSummary"; "pendingTasks"; "agents" ].
Proof.
  intros Hparse. unfold VerbosityConfigSchema in Hparse.
  apply safeParse_object in Hparse as [o [known [-> [-> Hshape]]]].
  exists known. split; [reflexivity|].
  apply (parse_shape_all_keys safeParse _ o known) in Hshape; [exact Hshape|].
  intros key s v Hin.
  simpl in Hin.
  repeat (destruct Hin as [[= <- <-]|Hin];
          [first [ apply defined_default; intros y w; now apply defined_scalar
                 | now apply defined_scalar ] |]).
  contradiction.
Qed.

Lemma validated_keys_witness :
  exists o,
    safeParse VerbosityConfigSchema
      (VObj (mergeConfig STANDARD_PRESET [("colour", VStr "blue")])) = Some (VObj o) /\
    keys o = keys STANDARD_PRESET /\
    own "colour" o = None.
Proof.
  destruct (validated_keys
              (VObj (mergeConfig STANDARD_PRESET [("colour", VStr "blue")]))
              (VObj STANDARD_PRESET)) as [o [Ho Hk]]; [vm_compute; reflexivity|].
  injection Ho as <-. exists STANDARD_PRESET. repeat split.
Defined.

(** *** Overrides that pass the validation *)

(** Setting one cap to an integer from 0 to [MAX_SAFE_INTEGER]: the
    resolved configuration holds that number at the cap, and the standard
    value at every other cap.  (Of an integer beyond [MAX_SAFE_INTEGER] the
    versions of zod differ.) *)
Theorem cap_override_round_trip (path : list string) (n : Z) :
  In path cap_paths -> 0 <= n <= MAX_SAFE_INTEGER ->
  exists config,
    parseUserConfig (VObj (nest path (VNum n))) = Returned config /\
    at_path path config = Some (VNum n) /\
    forall q, In q cap_paths -> q <> path ->
              at_path q config = at_path q (VObj STANDARD_PRESET).
Proof.
  intros Hin [Hn _].
  assert (H : exists config,
    parseUserConfig (VObj (nest path (VNum n))) = Returned config /\
    at_path path config = Some (VNum n) /\
    map (fun q => at_path q config) cap_paths =
    map (fun q => if list_eq_dec string_dec q path then Some (VNum n)
                  else at_path q (VObj STANDARD_PRESET)) cap_paths).
  { let l := eval vm_compute in cap_paths in change cap_paths with l in Hin.
    simpl in Hin.
    repeat (destruct Hin as [<-|Hin];
            [destruct n as [|p|p]; [| |lia];
             (eexists; split; [vm_compute; reflexivity |
                               split; vm_compute; reflexivity]) |]).
    contradiction. }
  destruct H as [config [Hc [Hp Hmap]]].
  exists config. split; [exact Hc|]. split; [exact Hp|].
  intros q Hq Hne.
  pose proof (ext_in_map Hmap q Hq) as Hq'. simpl in Hq'.
  now destruct (list_eq_dec string_dec q path).
Qed.

Lemma cap_override_round_trip_witness :
  exists config,
    parseUserConfig (VObj [("pendingTasks", VObj [("maxTasks", VNum 0)])])
    = Returned config /\
    at_path ["pendingTasks"; "maxTasks"] config = Some (VNum 0).
Proof.
  destruct (cap_override_round_trip ["pendingTasks"; "maxTasks"] 0)
    as [config [Hc [Hp _]]]; [vm_compute; tauto | unfold MAX_SAFE_INTEGER; lia |].
  exists config. split; assumption.
Defined.

(** *** What [parseUserConfig] returns *)

Lemma getPreset_returns (name : string) (base : obj) :
  getPreset name = Returned base ->
  base = [] \/ In (VObj base) (map snd PRESETS).
Proof.
  unfold getPreset, get.
  destruct (own name PRESETS) as [v|] eqn:Hown.
  - destruct v; try discriminate. intros [= <-]. right.
    apply own_In in Hown. apply (in_map snd) in Hown. exact Hown.
  - destruct (object_prototype name) as [[|]|]; try discriminate.
    intros [= <-]. now left.
Qed.

Lemma returned_is_validated (raw config : value) :
  parseUserConfig raw = Returned config ->
  (exists data, safeParse VerbosityConfigSchema data = Some config) \/
  config = VObj [].
Proof.
  assert (Hpreset : forall name base,
    getPreset name = Returned base ->
    (exists data, safeParse VerbosityConfigSchema data = Some (VObj base)) \/
    VObj base = VObj []).
  { intros name base Hb. destruct (getPreset_returns name base Hb) as [->|Hin];
      [now right|]. left. exists (VObj base).
    pose proof ResolvedConfig.presets_validate as Hall.
    rewrite Forall_forall in Hall. now apply Hall. }
  unfold parseUserConfig. destruct raw as [| | | | | |o].
  1-6: (destruct (getPreset "standard") as [p|e] eqn:Hp; [|discriminate];
        intros [= <-]; exact (Hpreset _ _ Hp)).
  destruct (getPreset (presetNameOf o)) as [base|e] eqn:Hb; [|discriminate].
  destruct (safeParse VerbosityConfigSchema (VObj (deepMerge base o))) as [data|] eqn:Hd.
  - intros [= <-]. left. now exists (VObj (deepMerge base o)).
  - intros [= <-]. exact (Hpreset _ _ Hb).
Qed.

(** A configuration that [parseUserConfig] returns is a validated one -
    parsed data of the schema, or a preset, which the schema returns as it
    is - or else the object without properties that [getPreset] gives for
    the name [__proto__]. *)
Theorem parseUserConfig_returns (raw config : value) :
  parseUserConfig raw = Returned config ->
  (exists data, safeParse VerbosityConfigSchema data = Some config) \/
  config = VObj [].
Proof. apply returned_is_validated. Qed.

Lemma parseUserConfig_returns_witness :
  (exists data,
     safeParse VerbosityConfigSchema data = Some (VObj FULL_PRESET)) \/
  VObj FULL_PRESET = VObj [].
Proof.
  apply (parseUserConfig_returns
           (VObj [("preset", VStr "full"); ("read", VNum 3)]) (VObj FULL_PRESET)).
  vm_compute. reflexivity.
Defined.

End ResolutionProps.

(** ** Loading a configuration *)
Module LoaderProps.
Import Zod Verbosity ConfigLoader JsFacts.

Section Load.

Variable existsSync : string -> bool.
Variable readFileSync : string -> outcome string.
Variable YAML_parse : string -> outcome value.
Variable path_resolve : list string -> outcome string.
Variable path_join : list string -> string.
Variable cwd : outcome string.
Variable homedir : outcome string.

Local Abbreviation load_file := (load_file readFileSync YAML_parse).
Local Abbreviation load_from := (load_from existsSync readFileSync YAML_parse).
Local Abbreviation loadConfig :=
  (loadConfig existsSync readFileSync YAML_parse path_resolve path_join cwd homedir).
Local Abbreviation candidates := (candidates path_resolve path_join cwd homedir).

Lemma load_file_returns (f : string) (config : value) :
  load_file f = Returned config -> exists raw, parseUserConfig raw = Returned config.
Proof.
  unfold ConfigLoader.load_file.
  destruct (readFileSync f) as [c|]; [|discriminate].
  destruct (YAML_parse c) as [raw|]; [|discriminate].
  intros H. now exists raw.
Qed.

Lemma load_from_returns (files : list string) :
  exists config,
    load_from files = Returned config /\
    ((exists data, safeParse VerbosityConfigSchema data = Some config) \/
     config = VObj []).
Proof.
  induction files as [|f files IH]; simpl.
  - exists (VObj STANDARD_PRESET). split; [reflexivity|].
    left. exists (VObj STANDARD_PRESET). vm_compute. reflexivity.
  - destruct (existsSync f); [|exact IH].
    destruct (load_file f) as [config|e] eqn:Hf; [|exact IH].
    exists config. split; [reflexivity|].
    destruct (load_file_returns f config Hf) as [raw Hraw].
    exact (ResolutionProps.returned_is_validated raw config Hraw).
Qed.

(** [loadConfig] throws only before the chain: what computing the
    candidates throws ([path.resolve], [process.cwd()], [os.homedir()], which
    run outside the [try]).  Once the candidates are computed it returns,
    whatever the files hold and whatever reading or parsing them raises - the
    error of [getPreset] for a [preset] such as [constructor] included; what
    it returns is a validated configuration, or the object without
    properties for the preset [__proto__]. *)
Theorem loadConfig_throws_only_before_chain (configPath : option string) :
  match candidates configPath with
  | Returned _ =>
      exists config,
        loadConfig configPath = Returned config /\
        ((exists data, safeParse VerbosityConfigSchema data = Some config) \/
         config = VObj [])
  | Thrown e => loadConfig configPath = Thrown e
  end.
Proof.
  unfold ConfigLoader.loadConfig.
  destruct (candidates configPath) as [files|e]; [|reflexivity].
  apply load_from_returns.
Qed.

(** A candidate is passed over when it does not exist or when loading it
    throws. *)
Let passed_over (f : string) : Prop :=
  existsSync f = false \/ exists e, load_file f = Thrown e.

Lemma load_from_skips (skipped rest : list string) :
  Forall passed_over skipped -> load_from (skipped ++ rest)%list = load_from rest.
Proof.
  induction 1 as [|f skipped Hf Hs IH]; [reflexivity|]. simpl.
  destruct Hf as [Hf|[e Hf]]; [now rewrite Hf|].
  rewrite Hf. now destruct (existsSync f).
Qed.

(** The first candidate of the chain that exists and loads gives the
    configuration; the candidates before it are passed over. *)
Theorem loadConfig_first_loadable (configPath : option string)
    (skipped rest : list string) (f : string) (config : value) :
  candidates configPath = Returned (skipped ++ f :: rest)%list ->
  Forall passed_over skipped ->
  existsSync f = true ->
  load_file f = Returned config ->
  loadConfig configPath = Returned config.
Proof.
  intros Hc Hs He Hf. unfold ConfigLoader.loadConfig.
  rewrite Hc, (load_from_skips skipped (f :: rest) Hs). simpl. now rewrite He, Hf.
Qed.

(** When every candidate is missing or fails to load, the configuration is
    the standard preset. *)
Theorem loadConfig_default (configPath : option string) (files : list string) :
  candidates configPath = Returned files ->
  Forall passed_over files ->
  loadConfig configPath = Returned (VObj STANDARD_PRESET).
Proof.
  intros Hc Hs. unfold ConfigLoader.loadConfig.
  rewrite Hc, <- (app_nil_r files).
  now rewrite (load_from_skips _ [] Hs).
Qed.

End Load.

(** A file system with a configuration in the working directory that names
    the preset [constructor], and a valid one in the home directory. *)
Lemma loadConfig_first_loadable_witness :
  let existsSync := fun f => negb (String.eqb f "/etc/continues.yml") in
  let readFileSync := fun f => Returned (A := string) f in
  let YAML_parse := fun text =>
    if String.eqb text "/work/.continues.yml"
    then Returned (VObj [("preset", VStr "constructor")])
    else Returned (VObj [("preset", VStr "minimal")]) in
  loadConfig existsSync readFileSync YAML_parse
    (fun parts => Returned (join "/" parts)) (join "/")
    (Returned "/work") (Returned "/home/u")
    (Some "/etc/continues.yml")
  = Returned (VObj MINIMAL_PRESET).
Proof.
  cbv zeta.
  apply (loadConfig_first_loadable _ _ _ _ _ _ _ _
           ["/etc/continues.yml"; "/work/.continues.yml"] []
           "/home/u/.continues/config.yml").
  - reflexivity.
  - constructor; [now left|]. constructor; [|constructor].
    right. exists DataCloneError. reflexivity.
  - reflexivity.
  - reflexivity.
Defined.

Lemma loadConfig_default_witness :
  loadConfig (fun _ => false) (fun _ => Thrown TypeError) (fun _ => Thrown TypeError)
    (fun parts => Returned (join "/" parts)) (join "/")
    (Returned "/work") (Returned "/home/u") None
  = Returned (VObj STANDARD_PRESET).
Proof.
  apply (loadConfig_default _ _ _ _ _ _ _ None
           ["/work/.continues.yml"; "/home/u/.continues/config.yml"]).
  - reflexivity.
  - repeat constructor.
Defined.

End LoaderProps.

(** ** Further properties of parsers/claude.ts *)
Module SubagentProps.
Import ToolSummarizer Claude ClaudeContext JsFacts.
Local Open Scope list_scope.

Section Files.

Variable extractTextFromBlocks : Content -> string.
Variable readJsonlFile : string -> outcome (list ClaudeMessage).
Variable path_join : list string -> string.

Local Abbreviation scan := (scan_message extractTextFromBlocks).
Local Abbreviation texts := (assistantTexts extractTextFromBlocks).
Local Abbreviation subagentResult := (extractSubagentResult extractTextFromBlocks readJsonlFile).

Lemma find_app {A : Type} (f : A -> bool) (l1 l2 : list A) :
  find f (l1 ++ l2) = match find f l1 with Some x => Some x | None => find f l2 end.
Proof.
  induction l1 as [|x l1 IH]; [reflexivity|]. simpl. now destruct (f x).
Qed.

Lemma texts_one (m : ClaudeMessage) :
  texts [m] =
  if String.eqb (type m) "assistant" && is_blocks (content m)
  then [extractTextFromBlocks (content m)] else [].
Proof.
  unfold assistantTexts. cbn [filter].
  now destruct (String.eqb (type m) "assistant" && is_blocks (content m)).
Qed.

Lemma texts_app (m : ClaudeMessage) (messages : list ClaudeMessage) :
  texts (m :: messages) = texts [m] ++ texts messages.
Proof.
  unfold assistantTexts. cbn [filter].
  now destruct (String.eqb (type m) "assistant" && is_blocks (content m)).
Qed.

(** One message of the scan: the text and the count. *)
Lemma scan_message_text (st : Scan) (m : ClaudeMessage) :
  lastSubstantialText (scan st m) =
  match find substantial (texts [m]) with
  | Some t => Some t
  | None => lastSubstantialText st
  end /\
  scan_toolCallCount (scan st m) =
  scan_toolCallCount st + Z.of_nat (List.length (filter is_tool_use (scannedBlocks [m]))).
Proof.
  rewrite texts_one. unfold scan_message, scannedBlocks. cbn [flat_map].
  destruct (String.eqb (type m) "assistant"); cbn [andb];
    [|split; [reflexivity | simpl; lia]].
  destruct (content m) as [|t'|blocks] eqn:Hc; cbn [is_blocks];
    try (split; [reflexivity | simpl; lia]).
  cbn [lastSubstantialText scan_toolCallCount find]. rewrite app_nil_r.
  split; [|reflexivity]. unfold substantial.
  now destruct (negb (String.eqb (extractTextFromBlocks (Blocks blocks)) "") &&
                (len (extractTextFromBlocks (Blocks blocks)) >? 50) &&
                negb (isTerminationMessage (extractTextFromBlocks (Blocks blocks)))).
Qed.

Lemma scan_text (messages : list ClaudeMessage) : forall st,
  lastSubstantialText (fold_left scan messages st) =
  match find substantial (rev (texts messages)) with
  | Some t => Some t
  | None => lastSubstantialText st
  end /\
  scan_toolCallCount (fold_left scan messages st) =
  scan_toolCallCount st +
  Z.of_nat (List.length (filter is_tool_use (scannedBlocks messages))).
Proof.
  induction messages as [|m messages IH]; intros st.
  - split; [reflexivity | simpl; lia].
  - cbn [fold_left]. destruct (IH (scan st m)) as [Ht Hc].
    destruct (scan_message_text st m) as [Ht1 Hc1].
    rewrite Ht, Hc, Ht1, Hc1, (texts_app m messages), rev_app_distr, find_app.
    split.
    + destruct (find substantial (rev (texts messages))); [reflexivity|].
      rewrite texts_one.
      destruct (String.eqb (type m) "assistant" && is_blocks (content m));
        reflexivity.
    + unfold scannedBlocks. cbn [flat_map]. rewrite app_nil_r.
      rewrite filter_app, length_app. lia.
Qed.

(** For a transcript that can be read, the text of the result is the last
    substantial text of the assistant - so it has more than 50 units and is
    no termination message - and there is none when no text is substantial;
    the count is that of the [tool_use] blocks of the assistant messages. *)
Theorem subagent_result_contents (file : string) (messages : list ClaudeMessage) :
  readJsonlFile file = Returned messages ->
  text (subagentResult file) = find substantial (rev (texts messages)) /\
  toolCallCount (subagentResult file) =
    Z.of_nat (List.length (filter is_tool_use (scannedBlocks messages))) /\
  forall t, text (subagentResult file) = Some t ->
            50 < len t /\ isTerminationMessage t = false.
Proof.
  intros Hread. unfold extractSubagentResult. rewrite Hread. cbn [text toolCallCount].
  destruct (scan_text messages
              {| scan_toolCallCount := 0; lastSubstantialText := None; wasKilled := false |})
    as [Ht Hc].
  rewrite Ht, Hc. cbn [lastSubstantialText scan_toolCallCount].
  split; [now destruct (find substantial (rev (texts messages)))|].
  split; [lia|].
  intros t Hfind.
  assert (Hsub : substantial t = true).
  { destruct (find substantial (rev (texts messages))) as [t'|] eqn:E; [|discriminate].
    injection Hfind as <-. now apply find_some in E. }
  unfold substantial in Hsub.
  apply andb_true_iff in Hsub as [Hsub Hterm].
  apply andb_true_iff in Hsub as [_ Hlen].
  split; [now apply Z.gtb_lt in Hlen | now destruct (isTerminationMessage t)].
Qed.

End Files.

Lemma subagent_result_contents_witness :
  let report :=
    "The refactoring is complete and all forty-two tests pass on the branch." in
  text (extractSubagentResult textOfBlocks
          (fun _ => Returned [assistantText report; assistantText "Done."])
          "agent-a1.jsonl") = Some report.
Proof.
  cbv zeta.
  apply (subagent_result_contents textOfBlocks
           (fun _ => Returned
              [assistantText
                 "The refactoring is complete and all forty-two tests pass on the branch.";
               assistantText "Done."])
           "agent-a1.jsonl" _ eq_refl).
Defined.

End SubagentProps.

(** ** The tasks of the subagents *)
Module TaskProps.
Import ToolSummarizer Claude ClaudeContext JsFacts.
Local Open Scope list_scope.

Local Abbreviation enqueued op := (String.eqb (operation op) "enqueue").

Lemma uniqueTasksFrom_sound (queueOps : list QueueOperationEntry) : forall seen,
  NoDup (map taskId (uniqueTasksFrom seen queueOps)) /\
  forall op, In op (uniqueTasksFrom seen queueOps) ->
             ~ In (taskId op) seen /\ In op queueOps /\ enqueued op = true.
Proof.
  induction queueOps as [|o queueOps IH]; intros seen; simpl.
  - split; [constructor | intros op []].
  - destruct (enqueued o) eqn:Eo; simpl.
    + destruct (mem (taskId o) seen) eqn:Hm.
      * destruct (IH seen) as [Hnd Hin]. split; [exact Hnd|].
        intros op Hop. destruct (Hin op Hop) as [H1 [H2 H3]]. auto.
      * destruct (IH (taskId o :: seen)) as [Hnd Hin]. split.
        -- simpl. constructor; [|exact Hnd].
           intros Hid. apply in_map_iff in Hid as [op [Hop Hin']].
           destruct (Hin op Hin') as [H1 _]. apply H1. left. now rewrite Hop.
        -- intros op [<-|Hop].
           ++ split; [now apply mem_false | split; [now left | exact Eo]].
           ++ destruct (Hin op Hop) as [H1 [H2 H3]].
              split; [|split; [now right | exact H3]].
              intros Hs. apply H1. now right.
    + destruct (IH seen) as [Hnd Hin]. split; [exact Hnd|].
      intros op Hop. destruct (Hin op Hop) as [H1 [H2 H3]]. auto.
Qed.

Lemma uniqueTasksFrom_complete (queueOps : list QueueOperationEntry) : forall seen op,
  In op queueOps -> enqueued op = true ->
  In (taskId op) seen \/ In (taskId op) (map taskId (uniqueTasksFrom seen queueOps)).
Proof.
  induction queueOps as [|o queueOps IH]; intros seen op Hin Henq; [easy|]. simpl.
  destruct Hin as [->|Hin].
  - rewrite Henq. simpl. destruct (mem (taskId op) seen) eqn:Hm.
    + left. now apply mem_In.
    + right. now left.
  - destruct (enqueued o); simpl; [|now apply IH].
    destruct (mem (taskId o) seen); [now apply IH|].
    destruct (IH (taskId o :: seen) op Hin Henq) as [[<-|H]|H].
    + right. now left.
    + now left.
    + right. now right.
Qed.

Lemma uniqueTasksFrom_first (queueOps : list QueueOperationEntry) : forall seen op,
  In op (uniqueTasksFrom seen queueOps) ->
  find (fun o => enqueued o && String.eqb (taskId o) (taskId op)) queueOps = Some op.
Proof.
  induction queueOps as [|o queueOps IH]; intros seen op; simpl; [easy|].
  destruct (enqueued o) eqn:Eo; simpl; [|now apply IH].
  destruct (mem (taskId o) seen) eqn:Hm.
  - intros Hop.
    destruct (uniqueTasksFrom_sound queueOps seen) as [_ Hs].
    destruct (Hs op Hop) as [Hnot _].
    destruct (String.eqb_spec (taskId o) (taskId op)) as [E|_]; [|now apply (IH seen)].
    exfalso. apply Hnot. rewrite <- E. now apply mem_In.
  - intros [<-|Hop]; [now rewrite String.eqb_refl|].
    destruct (uniqueTasksFrom_sound queueOps (taskId o :: seen)) as [_ Hs].
    destruct (Hs op Hop) as [Hnot _].
    destruct (String.eqb_spec (taskId o) (taskId op)) as [E|_];
      [|now apply (IH (taskId o :: seen))].
    exfalso. apply Hnot. now left.
Qed.

(** The unique tasks are the first [enqueue] of every task id: their ids
    are distinct, each is the first [enqueue] operation of its id - so its
    description is that of the first [enqueue] - and every enqueued id is
    among them. *)
Theorem uniqueTasks_first_enqueue (queueOps : list QueueOperationEntry) :
  NoDup (map taskId (uniqueTasks queueOps)) /\
  Forall (fun op =>
            find (fun o => enqueued o && String.eqb (taskId o) (taskId op)) queueOps
            = Some op)
         (uniqueTasks queueOps) /\
  forallb (fun op => negb (enqueued op) ||
                     mem (taskId op) (map taskId (uniqueTasks queueOps)))
          queueOps = true.
Proof.
  unfold uniqueTasks. split; [apply uniqueTasksFrom_sound|]. split.
  - apply Forall_forall. intros op Hop. now apply (uniqueTasksFrom_first _ []).
  - apply forallb_forall. intros op Hop.
    destruct (enqueued op) eqn:E; [|reflexivity]. simpl.
    apply mem_In.
    destruct (uniqueTasksFrom_complete queueOps [] op Hop E) as [[]|H]. exact H.
Qed.

Section Loop.

Variable extractTextFromBlocks : Content -> string.
Variable readJsonlFile : string -> outcome (list ClaudeMessage).
Variable path_join : list string -> string.

Local Abbreviation resolve_task :=
  (resolve_task extractTextFromBlocks readJsonlFile path_join).
Local Abbreviation resolve_tasks :=
  (resolve_tasks extractTextFromBlocks readJsonlFile path_join).
Local Abbreviation resolveSubagents :=
  (resolveSubagents extractTextFromBlocks readJsonlFile path_join).

(** One task: one more result, at most one more pending task, and that
    only below the maximum. *)
Lemma resolve_task_step cfg dir done st task :
  let st' := resolve_task cfg dir done st task in
  map sr_taskId (subagentResults st') = map sr_taskId (subagentResults st) ++ [taskId task] /\
  (pendingTasks st' = pendingTasks st \/
   pendingTasks st' = pendingTasks st ++ [incompleteNote task] /\
   Z.of_nat (List.length (pendingTasks st)) < pendingTasks_maxTasks cfg) /\
  (subagentCount st' = subagentCount st \/ subagentCount st' = subagentCount st + 1).
Proof.
  unfold Claude.resolve_task.
  set (r := extractSubagentResult _ _ _).
  destruct (given (text r)) as [t|]; cbn [subagentResults pendingTasks subagentCount].
  - rewrite map_app. cbn. auto.
  - rewrite map_app. cbn. split; [reflexivity|]. split; [|now left].
    destruct (negb (mem (taskId task) done) && pendingTasks_extractFromSubagents cfg) ;
      cbn [andb]; [|now left].
    destruct (Z.ltb_spec (Z.of_nat (List.length (pendingTasks st)))
                (pendingTasks_maxTasks cfg)); [right; split; [reflexivity|lia] | now left].
Qed.

Lemma resolve_tasks_bounds cfg dir done tasks : forall st,
  let st' := resolve_tasks cfg dir done tasks st in
  (exists k, map sr_taskId (subagentResults st') =
             map sr_taskId (subagentResults st) ++ firstn k (map taskId tasks)) /\
  (exists added, pendingTasks st' = pendingTasks st ++ added /\
                 incl added (map incompleteNote tasks)) /\
  Z.of_nat (List.length (pendingTasks st')) <=
    Z.max (Z.of_nat (List.length (pendingTasks st))) (pendingTasks_maxTasks cfg) /\
  subagentCount st <= subagentCount st' <= Z.max (subagentCount st) (task_maxSamples cfg).
Proof.
  induction tasks as [|task tasks IH]; intros st; cbn [Claude.resolve_tasks].
  - split; [exists 0%nat; now rewrite app_nil_r|].
    split; [exists []; split; [now rewrite app_nil_r | easy]|]. lia.
  - destruct (Z.geb_spec (subagentCount st) (task_maxSamples cfg)) as [Hfull|Hroom].
    + split; [exists 0%nat; now rewrite app_nil_r|].
      split; [exists []; split; [now rewrite app_nil_r | easy]|]. lia.
    + destruct (resolve_task_step cfg dir done st task) as [Hids [Hpend Hcount]].
      destruct (IH (resolve_task cfg dir done st task))
        as [[k Hk] [[added [Hadd Hincl]] [Hlen Hc]]].
      split; [|split; [|split]].
      * exists (S k). rewrite Hk, Hids, <- app_assoc. reflexivity.
      * destruct Hpend as [Hsame|[Hmore _]].
        -- exists added. rewrite Hadd, Hsame. split; [reflexivity|].
           intros x Hx. right. now apply Hincl.
        -- exists (incompleteNote task :: added).
           rewrite Hadd, Hmore, <- app_assoc. split; [reflexivity|].
           intros x [<-|Hx]; [now left | right; now apply Hincl].
      * destruct Hpend as [Hsame|[Hmore Hlt]].
        -- rewrite Hsame in Hlen. exact Hlen.
        -- rewrite Hmore, length_app in Hlen. simpl in Hlen. lia.
      * destruct Hcount as [Hsame|Hmore]; lia.
Qed.


End Loop.

End TaskProps.

(** ** The recent conversation *)
Module ConversationProps.
Import ToolSummarizer Claude JsArray ClaudeContext JsFacts.
Local Open Scope list_scope.

Lemma slice_from_last {A : Type} (items : list A) (n : Z) :
  0 < n ->
  slice_from items (- n) = skipn (List.length items - Z.to_nat n) items.
Proof.
  intros Hn. unfold slice_from.
  destruct (Z.ltb_spec (- n) 0) as [_|H]; [|lia]. f_equal. lia.
Qed.

Lemma slice_from_all {A : Type} (items : list A) : slice_from items (- 0) = items.
Proof. unfold slice_from. simpl. now rewrite Z.min_l by lia. Qed.

Lemma slice_from_suffix {A : Type} (items : list A) (start : Z) :
  exists earlier, items = earlier ++ slice_from items start.
Proof.
  unfold slice_from. eexists. symmetry. apply firstn_skipn.
Qed.

Lemma slice_from_length {A : Type} (items : list A) (n : Z) :
  0 < n ->
  Z.of_nat (List.length (slice_from items (- n))) = Z.min n (Z.of_nat (List.length items)).
Proof.
  intros Hn. rewrite slice_from_last by exact Hn. rewrite length_skipn. lia.
Qed.

Section Conversation.

Variable extractTextFromBlocks : Content -> string.
Variable maxMessageChars : Z.
Variable separateHumanFromToolResults : bool.

Local Abbreviation conversational := (conversational separateHumanFromToolResults).
Local Abbreviation converted := (converted extractTextFromBlocks maxMessageChars).
Local Abbreviation finalMessages recent :=
  (finalMessages extractTextFromBlocks recent maxMessageChars
     separateHumanFromToolResults).

(** With a positive [recentMessages] the conversation of the handoff has at
    most that many messages, and they are the last messages with a text
    among the last [2 * recentMessages] conversational lines, in their
    order. *)
Theorem final_messages_window (recentMessages : Z) (lines : list ClaudeLine) :
  0 < recentMessages ->
  let conv := filter conversational lines in
  let window := skipn (List.length conv - Z.to_nat (2 * recentMessages)) conv in
  let texts := flat_map converted window in
  finalMessages recentMessages lines =
    skipn (List.length texts - Z.to_nat recentMessages) texts /\
  Z.of_nat (List.length (finalMessages recentMessages lines)) <= recentMessages /\
  exists earlier,
    flat_map converted conv = earlier ++ finalMessages recentMessages lines.
Proof.
  intros Hr conv window texts.
  assert (Hfinal : finalMessages recentMessages lines =
                   skipn (List.length texts - Z.to_nat recentMessages) texts).
  { unfold ClaudeContext.finalMessages, pushedMessages.
    rewrite slice_from_last by exact Hr. fold conv.
    replace (- (recentMessages * 2)) with (- (2 * recentMessages)) by lia.
    rewrite slice_from_last by lia. reflexivity. }
  split; [exact Hfinal|]. split.
  - rewrite Hfinal, length_skipn. lia.
  - rewrite Hfinal.
    exists (flat_map converted
              (firstn (List.length conv - Z.to_nat (2 * recentMessages)) conv) ++
            firstn (List.length texts - Z.to_nat recentMessages) texts).
    rewrite <- app_assoc, firstn_skipn. unfold texts, window.
    now rewrite <- flat_map_app, firstn_skipn.
Qed.

(** With [recentMessages] 0 nothing is cut: both slices start at [-0], that
    is at 0, and the conversation of the handoff holds every conversational
    message with a text. *)
Theorem final_messages_zero (lines : list ClaudeLine) :
  finalMessages 0 lines = flat_map converted (filter conversational lines).
Proof.
  unfold ClaudeContext.finalMessages, pushedMessages.
  change (- (0 * 2)) with (- 0). now rewrite !slice_from_all.
Qed.

Lemma truncate_nonempty (s : string) (max : Z) :
  3 <= max -> s <> "" -> truncate s max <> "".
Proof.
  intros Hmax Hs He.
  pose proof (TruncateProps.len_truncate s max) as Hl. rewrite He in Hl.
  change (len "") with 0 in Hl.
  destruct (Z.leb_spec (len s) max).
  - destruct s; [congruence|]. unfold len in Hl. simpl in Hl. lia.
  - destruct (Z.leb_spec 3 max); lia.
Qed.

Lemma converted_contents (l : ClaudeLine) :
  3 <= maxMessageChars ->
  Forall (fun m => (role m = "user" \/ role m = "assistant") /\
                   text_ m <> "" /\
                   len (text_ m) <= maxMessageChars /\
                   date m = timestamp l)
         (converted l).
Proof.
  intros Hmax. unfold ClaudeContext.converted.
  set (c := extractTextFromBlocks _).
  assert (Hlen : len (truncate c maxMessageChars) <= maxMessageChars).
  { rewrite TruncateProps.len_truncate.
    destruct (Z.leb_spec (len c) maxMessageChars); [lia|].
    destruct (Z.leb_spec 3 maxMessageChars); lia. }
  destruct (String.eqb (type (message l)) "user").
  - destruct (String.eqb_spec c ""); constructor; [|constructor].
    cbn. repeat split; auto. now apply truncate_nonempty.
  - destruct (String.eqb (type (message l)) "assistant"); [|constructor].
    destruct (String.eqb_spec c ""); constructor; [|constructor].
    cbn. repeat split; auto. now apply truncate_nonempty.
Qed.

(** Every message of the conversation is of the user or of the assistant,
    carries the time stamp of a conversational line of the transcript, and
    its text is not empty and, for a bound of at least 3, within
    [maxMessageChars]. *)
Theorem final_messages_contents (recentMessages : Z) (lines : list ClaudeLine) :
  3 <= maxMessageChars ->
  Forall (fun m => (role m = "user" \/ role m = "assistant") /\
                   text_ m <> "" /\
                   len (text_ m) <= maxMessageChars /\
                   exists l, In l lines /\ conversational l = true /\
                             date m = timestamp l)
         (finalMessages recentMessages lines).
Proof.
  intros Hmax. apply Forall_forall. intros m Hm.
  unfold ClaudeContext.finalMessages, pushedMessages in Hm.
  destruct (slice_from_suffix
              (flat_map converted
                 (slice_from (filter conversational lines) (- (recentMessages * 2))))
              (- recentMessages)) as [e1 He1].
  assert (Hp : In m (flat_map converted
                 (slice_from (filter conversational lines) (- (recentMessages * 2))))).
  { rewrite He1. apply in_or_app. now right. }
  apply in_flat_map in Hp as [l [Hl Hml]].
  destruct (slice_from_suffix (filter conversational lines) (- (recentMessages * 2)))
    as [e2 He2].
  assert (Hc : In l (filter conversational lines)).
  { rewrite He2. apply in_or_app. now right. }
  apply filter_In in Hc as [Hin Hconv].
  pose proof (converted_contents l Hmax) as Hall.
  rewrite Forall_forall in Hall. destruct (Hall m Hml) as [H1 [H2 [H3 H4]]].
  repeat split; auto. exists l. auto.
Qed.

End Conversation.

Lemma final_messages_window_witness :
  let line t c := {| message := {| type := t; content := TextContent c |};
                     isCompactSummary := false; timestamp := "t" |} in
  let lines := [line "user" "one"; line "assistant" "two"; line "progress" "";
                line "user" "three"; line "assistant" "four"] in
  map text_
    (finalMessages (fun c => match c with TextContent t => t | _ => "" end)
       1 100 true lines) = ["four"].
Proof.
  intros line lines.
  rewrite (proj1 (final_messages_window
                    (fun c => match c with TextContent t => t | _ => "" end)
                    100 true 1 lines ltac:(lia))).
  reflexivity.
Defined.

Lemma final_messages_contents_witness :
  let line t c := {| message := {| type := t; content := TextContent c |};
                     isCompactSummary := false; timestamp := "t" |} in
  let lines := [line "user" "a long question"; line "assistant" "two"] in
  Forall (fun m => len (text_ m) <= 5)
    (finalMessages (fun c => match c with TextContent t => t | _ => "" end)
       10 5 true lines).
Proof.
  intros line lines.
  eapply Forall_impl;
    [| apply (final_messages_contents
                (fun c => match c with TextContent t => t | _ => "" end)
                5 true 10 lines); lia].
  intros m [_ [_ [H _]]]. exact H.
Defined.

End ConversationProps.

(** ** The pending tasks of the reasoning steps *)
Module PendingProps.
Import ToolSummarizer Claude JsFacts.
Local Open Scope list_scope.

Lemma pending_tasks_eq (messages : list ClaudeMessage) (maxTasks : Z) :
  extractPendingFromThinking messages maxTasks =
  firstn (Z.to_nat maxTasks) (dedup (candidates messages)).
Proof.
  unfold extractPendingFromThinking.
  rewrite ClaudeProps.pending_messages_push_all, ClaudeProps.push_all_dedup. simpl.
  now rewrite Z.sub_0_r.
Qed.

Lemma dedup_from_In (l : list string) : forall seen t,
  In t (dedup_from seen l) -> In t l.
Proof.
  induction l as [|x l IH]; intros seen t; simpl; [easy|].
  destruct (mem x seen).
  - intros H. right. now apply (IH seen).
  - intros [<-|H]; [now left | right; now apply (IH _ _ H)].
Qed.

Lemma proposed_In (blocks : list ContentBlock) (t : string) :
  In t (proposed blocks) -> exists b, In b blocks /\ candidate b = Some t.
Proof.
  induction blocks as [|b blocks IH]; simpl; [easy|].
  destruct (candidate b) as [c|] eqn:E.
  - intros [<-|H]; [exists b; auto|].
    destruct (IH H) as [b' [Hb Hc]]. exists b'. auto.
  - intros H. destruct (IH H) as [b' [Hb Hc]]. exists b'. auto.
Qed.

(** Every pending task comes from a tool call of reasoning in an assistant
    message: it is the next action, of more than 5 units, trimmed and
    truncated, and has at most 200 units. *)
Theorem pending_tasks_origin (messages : list ClaudeMessage) (maxTasks : Z) :
  Forall (fun t =>
            len t <= 200 /\
            exists m name input nextAction blocks,
              In m messages /\ type m = "assistant" /\ content m = Blocks blocks /\
              In (ToolUse name input) blocks /\
              mem name thinkingToolNames = true /\
              next_action input = Some nextAction /\
              5 < len nextAction /\
              t = truncate (trim nextAction) 200)
         (extractPendingFromThinking messages maxTasks).
Proof.
  apply Forall_forall. intros t Ht. rewrite pending_tasks_eq in Ht.
  assert (Hin : In t (candidates messages)).
  { apply (dedup_from_In _ []). fold (dedup (candidates messages)).
    rewrite <- (firstn_skipn (Z.to_nat maxTasks)). apply in_or_app. now left. }
  unfold candidates in Hin. apply in_flat_map in Hin as [m [Hm Hcand]].
  apply in_rev in Hm. unfold candidates_of in Hcand.
  destruct (String.eqb_spec (type m) "assistant") as [Ht'|]; [|easy].
  destruct (content m) as [| |blocks] eqn:Hc; try easy.
  apply proposed_In in Hcand as [b [Hb Hcb]].
  destruct b as [txt | name input | ty]; cbn [candidate] in Hcb; try discriminate.
  destruct (mem name thinkingToolNames) eqn:Hn; [|discriminate].
  destruct (next_action input) as [a|] eqn:Ha; [|discriminate].
  destruct (Z.gtb_spec (len a) 5) as [Hlen|]; [|discriminate].
  injection Hcb as <-. split.
  - rewrite TruncateProps.len_truncate.
    destruct (Z.leb_spec (len (trim a)) 200); [lia | reflexivity].
  - exists m, name, input, a, blocks. repeat split; auto.
Qed.

(** A smaller bound gives a prefix of the tasks of a larger bound: the
    bound cuts the list and does not change which tasks come first. *)
Theorem pending_tasks_prefix (messages : list ClaudeMessage) (small large : Z) :
  small <= large ->
  extractPendingFromThinking messages small =
  firstn (Z.to_nat small) (extractPendingFromThinking messages large).
Proof.
  intros H. rewrite !pending_tasks_eq, firstn_firstn. f_equal. lia.
Qed.

Lemma pending_tasks_prefix_witness :
  let messages :=
    map reasoningStep ["first action"; "second action"; "third action"] in
  extractPendingFromThinking messages 2 =
  firstn 2 (extractPendingFromThinking messages 3).
Proof.
  intros messages. apply (pending_tasks_prefix messages 2 3). lia.
Defined.

End PendingProps.

(** ** The context of a Cursor session *)
Module CursorProps.
Import JsArray Cursor JsFacts.
Local Open Scope list_scope.

Lemma aggregateUsage_snoc (lines : list CursorTranscriptLine)
    (line : CursorTranscriptLine) :
  aggregateUsage (lines ++ [line]) = usage_step (aggregateUsage lines) line.
Proof. unfold aggregateUsage. now rewrite fold_left_app. Qed.

Lemma total_snoc (counter : Usage -> option Z) (us : list Usage) (u : Usage) :
  total counter (us ++ [u]) = total counter us + or_zero (counter u).
Proof.
  induction us as [|x us IH]; simpl; [lia|]. rewrite IH. lia.
Qed.

Lemma or_zero_eq (n : option Z) :
  or_zero n = match n with Some n => n | None => 0 end.
Proof.
  destruct n as [n|]; [|reflexivity]. simpl.
  destruct (Z.eqb_spec n 0); congruence.
Qed.

Lemma usages_snoc (lines : list CursorTranscriptLine) (line : CursorTranscriptLine) :
  usages (lines ++ [line]) =
  usages lines ++ match usageOf line with Some u => [u] | None => [] end.
Proof. unfold usages. rewrite flat_map_app. cbn [flat_map]. now rewrite app_nil_r. Qed.

Lemma models_snoc (lines : list CursorTranscriptLine) (line : CursorTranscriptLine) :
  models (lines ++ [line]) =
  models lines ++
  (if String.eqb (role line) "assistant" then
     match nullish (model line) (message_model line) with
     | Some m => if String.eqb m "" then [] else [m]
     | None => []
     end
   else []).
Proof. unfold models. rewrite flat_map_app. cbn [flat_map]. now rewrite app_nil_r. Qed.

Lemma models_named (lines : list CursorTranscriptLine) :
  Forall (fun m => String.eqb m "" = false) (models lines).
Proof.
  apply Forall_forall. intros m Hm. unfold models in Hm.
  apply in_flat_map in Hm as [line [_ Hm]].
  destruct (String.eqb (role line) "assistant"); [|easy].
  destruct (nullish (model line) (message_model line)) as [m'|]; [|easy].
  destruct (String.eqb m' "") eqn:E; [easy|].
  destruct Hm as [<-|[]]. exact E.
Qed.

(** What the notes hold after the lines, field by field. *)
Lemma aggregateUsage_fields (lines : list CursorTranscriptLine) :
  let notes := aggregateUsage lines in
  let us := usages lines in
  notes_model notes = hd_error (models lines) /\
  tokenUsage notes =
    match us with
    | [] => None
    | _ => Some {| input := total input_tokens us; output := total output_tokens us |}
    end /\
  cacheTokens notes =
    (if forallb (fun u => (or_zero (cache_creation_input_tokens u) =? 0) &&
                          (or_zero (cache_read_input_tokens u) =? 0)) us
     then None
     else Some {| creation := total cache_creation_input_tokens us;
                  read := total cache_read_input_tokens us |}) /\
  (forallb (fun u => (or_zero (cache_creation_input_tokens u) =? 0) &&
                     (or_zero (cache_read_input_tokens u) =? 0)) us = true ->
   total cache_creation_input_tokens us = 0 /\ total cache_read_input_tokens us = 0).
Proof.
  induction lines as [|line lines IH] using rev_ind.
  - cbn. auto.
  - cbn zeta in *. destruct IH as [Hm [Ht [Hc Hz]]].
    rewrite aggregateUsage_snoc, usages_snoc, models_snoc.
    unfold usageOf, usage_step.
    set (notes := aggregateUsage lines) in *.
    set (us := usages lines) in *.
    set (ms := models lines) in *.
    destruct (String.eqb (role line) "assistant"); cbn [negb].
    + set (m := nullish (model line) (message_model line)).
      set (notes' := if truthy_string m && negb (truthy_string (notes_model notes))
                     then _ else notes).
      assert (Hm' : notes_model notes' =
                    hd_error (ms ++ match m with
                                    | Some m => if String.eqb m "" then [] else [m]
                                    | None => []
                                    end)).
      { unfold notes'. destruct m as [s|]; cbn [truthy_string andb].
        - destruct (String.eqb s ""); cbn [negb andb].
          + now rewrite app_nil_r.
          + rewrite Hm. pose proof (models_named lines) as Hne. fold ms in Hne.
            destruct ms as [|m0 ms']; cbn [hd_error truthy_string app].
            * reflexivity.
            * inversion Hne as [|? ? Hm0 _]. rewrite Hm0. cbn [negb]. exact Hm.
        - now rewrite app_nil_r. }
      assert (Ht' : tokenUsage notes' = tokenUsage notes)
        by (unfold notes'; destruct (_ && _); reflexivity).
      assert (Hc' : cacheTokens notes' = cacheTokens notes)
        by (unfold notes'; destruct (_ && _); reflexivity).
      destruct (nullish (usage line) (message_usage line)) as [u|].
      * cbn [notes_model tokenUsage cacheTokens].
        rewrite forallb_app. cbn [forallb]. rewrite !total_snoc, andb_true_r.
        split; [exact Hm'|]. rewrite Ht', Hc', Ht, Hc. split; [|split].
        -- destruct us as [|u0 us']; reflexivity.
        -- destruct (forallb _ us) eqn:Hall; cbn [andb].
           ++ destruct (Hz eq_refl) as [Hz1 Hz2]. rewrite Hz1, Hz2.
              destruct (Z.eqb_spec (or_zero (cache_creation_input_tokens u)) 0) as [E1|E1];
                destruct (Z.eqb_spec (or_zero (cache_read_input_tokens u)) 0) as [E2|E2];
                cbn [negb orb andb]; try reflexivity.
           ++ destruct (negb _ || negb _) eqn:Hany; cbn [creation read].
              ** reflexivity.
              ** apply orb_false_iff in Hany as [H1 H2].
                 apply negb_false_iff, Z.eqb_eq in H1.
                 apply negb_false_iff, Z.eqb_eq in H2.
                 rewrite H1, H2, !Z.add_0_r. reflexivity.
        -- intros Hall. apply andb_true_iff in Hall as [Hus Hu].
           apply andb_true_iff in Hu as [H1 H2].
           apply Z.eqb_eq in H1, H2. destruct (Hz Hus) as [Hz1 Hz2]. lia.
      * rewrite !app_nil_r. rewrite Ht', Hc'. auto.
    + rewrite !app_nil_r. auto.
Qed.

(** The token usage of the session notes is missing exactly when no
    assistant line has a usage, and otherwise holds the sums of the input
    and output tokens over the assistant lines with a usage, a missing
    counter counting 0; the cache tokens are missing when every such line
    has neither cache creation nor cache read, and otherwise hold the sums
    over all of them; the model is the first one that an assistant line
    names. *)
Theorem token_usage_totals (lines : list CursorTranscriptLine) :
  let notes := aggregateUsage lines in
  let us := usages lines in
  notes_model notes = hd_error (models lines) /\
  tokenUsage notes =
    match us with
    | [] => None
    | _ => Some {| input := total input_tokens us; output := total output_tokens us |}
    end /\
  cacheTokens notes =
    (if forallb (fun u => (or_zero (cache_creation_input_tokens u) =? 0) &&
                          (or_zero (cache_read_input_tokens u) =? 0)) us
     then None
     else Some {| creation := total cache_creation_input_tokens us;
                  read := total cache_read_input_tokens us |}).
Proof.
  destruct (aggregateUsage_fields lines) as [H1 [H2 [H3 _]]]. auto.
Qed.

Lemma trimEnd_idempotent (s : string) : trimEnd (trimEnd s) = trimEnd s.
Proof.
  induction s as [|c s IH]; [reflexivity|]. cbn [trimEnd].
  destruct (trimEnd s) as [|c' t'] eqn:E.
  - destruct (is_space c) eqn:Hc; [reflexivity|]. cbn [trimEnd]. now rewrite Hc.
  - cbn [trimEnd] in *. rewrite IH. reflexivity.
Qed.

Lemma trimStart_head (s : string) :
  match trimStart s with
  | EmptyString => True
  | String c _ => is_space c = false
  end.
Proof.
  induction s as [|c s IH]; cbn [trimStart]; [exact I|].
  destruct (is_space c) eqn:Hc; [exact IH | exact Hc].
Qed.

Lemma trimEnd_head (c : ascii) (s : string) :
  is_space c = false -> exists t, trimEnd (String c s) = String c t.
Proof.
  intros Hc. cbn [trimEnd]. destruct (trimEnd s); [rewrite Hc|]; eauto.
Qed.

Lemma trim_idempotent (s : string) : trim (trim s) = trim s.
Proof.
  unfold trim. pose proof (trimStart_head s) as Hh.
  destruct (trimStart s) as [|c u]; [reflexivity|].
  destruct (trimEnd_head c u Hh) as [t Ht]. rewrite Ht.
  cbn [trimStart]. rewrite Hh, <- Ht. apply trimEnd_idempotent.
Qed.

Section Conversation.

Variable isSystemContent : string -> bool.
Variable cleanUserQueryText : string -> string.

Local Abbreviation lineMessage := (lineMessage isSystemContent cleanUserQueryText).
Local Abbreviation trimmed := (trimmed isSystemContent cleanUserQueryText).

Lemma lineMessage_contents (line : CursorTranscriptLine) :
  Forall (fun m => (msg_role m = "user" \/ msg_role m = "assistant") /\
                   (msg_role m = "user" <-> role line = "user") /\
                   msg_content m <> "" /\
                   trim (msg_content m) = msg_content m)
         (lineMessage line).
Proof.
  unfold Cursor.lineMessage.
  set (text := trim _).
  destruct (String.eqb_spec text "") as [|Hne]; constructor; [|constructor].
  cbn [msg_role msg_content].
  split; [|split; [|split; [exact Hne | apply trim_idempotent]]].
  - destruct (String.eqb (role line) "user"); auto.
  - destruct (String.eqb_spec (role line) "user"); split; congruence.
Qed.

(** The conversation of a Cursor session: with a positive
    [recentMessages] it has at most that many messages, the last ones that
    the lines give; with [recentMessages] 0 it has them all.  Each message
    is of the user or of the assistant - every role but [user] counts as
    the assistant - and its text is trimmed and not empty. *)
Theorem cursor_conversation (recentMessages : Z) (lines : list CursorTranscriptLine) :
  0 <= recentMessages ->
  let all := flat_map lineMessage lines in
  let kept := trimmed recentMessages lines in
  (recentMessages = 0 -> kept = all) /\
  (0 < recentMessages ->
   kept = skipn (List.length all - Z.to_nat recentMessages) all /\
   Z.of_nat (List.length kept) <= recentMessages) /\
  Forall (fun m => (msg_role m = "user" \/ msg_role m = "assistant") /\
                   msg_content m <> "" /\
                   trim (msg_content m) = msg_content m) kept.
Proof.
  intros Hr all kept. split; [|split].
  - intros ->. unfold kept, Cursor.trimmed. apply ConversationProps.slice_from_all.
  - intros Hpos.
    assert (Hk : kept = skipn (List.length all - Z.to_nat recentMessages) all)
      by (unfold kept, Cursor.trimmed; now apply ConversationProps.slice_from_last).
    split; [exact Hk|]. rewrite Hk, length_skipn. lia.
  - apply Forall_forall. intros m Hm.
    destruct (ConversationProps.slice_from_suffix all (- recentMessages)) as [e He].
    assert (Hin : In m all) by (rewrite He; apply in_or_app; now right).
    apply in_flat_map in Hin as [line [_ Hml]].
    pose proof (lineMessage_contents line) as Hall.
    rewrite Forall_forall in Hall. destruct (Hall m Hml) as [H1 [_ [H2 H3]]]. auto.
Qed.

End Conversation.

Lemma cursor_conversation_witness :
  let line r t := {| role := r; content := [Text t]; model := None;
                     message_model := None; usage := None; message_usage := None |} in
  let lines := [line "user" " hello "; line "assistant" "hi"; line "tool" "done"] in
  map msg_content (trimmed (fun _ => false) (fun s => s) 2 lines) = ["hi"; "done"] /\
  map msg_role (trimmed (fun _ => false) (fun s => s) 2 lines) =
    ["assistant"; "assistant"].
Proof.
  intros line lines.
  destruct (cursor_conversation (fun _ => false) (fun s => s) 2 lines ltac:(lia))
    as [_ [Hlast _]].
  destruct (Hlast ltac:(lia)) as [-> _]. split; reflexivity.
Defined.

End CursorProps.

(** ** The inspection of a session *)
Module InspectProps.
Import Inspect JsFacts.
Local Open Scope list_scope.

Lemma len_append (a b : string) : len (a ++ b)%string = len a + len b.
Proof. unfold len. rewrite length_append. lia. Qed.

Lemma len_spaces (n : nat) : len (String.concat "" (List.repeat " "%string n)) = Z.of_nat n.
Proof.
  induction n as [|n IH]; [reflexivity|].
  cbn [List.repeat String.concat].
  destruct (List.repeat " "%string n) as [|x l] eqn:E.
  - destruct n; [reflexivity | discriminate].
  - rewrite !len_append, IH. change (len " ") with 1. change (len "") with 0. lia.
Qed.

Lemma len_repeat (count : Z) : 0 <= count -> len (repeat " " count) = count.
Proof. intros H. unfold repeat. rewrite len_spaces. lia. Qed.

(** Padding never cuts: [pad] and [rpad] give a text of the width asked
    for, or of the length of the text when that is longer; [pad] keeps the
    text at the start and [rpad] at the end, and the rest is filled with
    as many units. *)
Theorem pad_rpad_width (s : string) (n : NumberOrString) (width : Z) :
  len (pad s width) = Z.max (len s) width /\
  (exists fill, pad s width = (s ++ fill)%string /\
                len fill = Z.max 0 (width - len s)) /\
  len (rpad n width) = Z.max (len (toString n)) width /\
  (exists fill, rpad n width = (fill ++ toString n)%string /\
                len fill = Z.max 0 (width - len (toString n))).
Proof.
  assert (Hempty : forall t : string, (t ++ "")%string = t)
    by (induction t as [|c t IH]; simpl; [reflexivity | now rewrite IH]).
  unfold pad, rpad. set (t := toString n).
  assert (Hs : 0 <= len s) by (unfold len; lia).
  assert (Ht : 0 <= len t) by (unfold len; lia).
  repeat split.
  - destruct (Z.geb_spec (len s) width); [lia|].
    rewrite len_append, len_repeat; lia.
  - destruct (Z.geb_spec (len s) width).
    + exists ""%string. rewrite Hempty. split; [reflexivity|]. change (len "") with 0. lia.
    + eexists. split; [reflexivity|]. rewrite len_repeat; lia.
  - destruct (Z.geb_spec (len t) width); [lia|].
    rewrite len_append, len_repeat; lia.
  - destruct (Z.geb_spec (len t) width).
    + exists ""%string. split; [reflexivity|]. change (len "") with 0. lia.
    + eexists. split; [reflexivity|]. rewrite len_repeat; lia.
Qed.

Section Files.

Variable readFileSync : string -> outcome (list Z).

Local Abbreviation countLines := (countLines readFileSync).
Local Abbreviation newlines :=
  (fold_left (fun count b => if b =? 10 then count + 1 else count)).

Lemma newlines_from (buf : list Z) : forall count,
  newlines buf count = count + newlines buf 0.
Proof.
  induction buf as [|b buf IH]; intros count; cbn [fold_left]; [lia|].
  rewrite IH, (IH (if b =? 10 then 0 + 1 else 0)).
  destruct (b =? 10); lia.
Qed.

Lemma newlines_none (buf : list Z) :
  Forall (fun b => b <> 10) buf -> newlines buf 0 = 0.
Proof.
  induction 1 as [|b buf Hb _ IH]; [reflexivity|]. cbn [fold_left].
  destruct (Z.eqb_spec b 10); [contradiction | exact IH].
Qed.

Lemma newlines_lines (ls : list (list Z)) :
  Forall (Forall (fun b => b <> 10)) ls ->
  newlines (List.concat (map (fun l => l ++ [10]) ls)) 0 = Z.of_nat (List.length ls).
Proof.
  induction 1 as [|l ls Hl _ IH]; [reflexivity|].
  cbn [map List.concat]. rewrite !fold_left_app, newlines_from, IH.
  change (newlines [10] (newlines l 0)) with (newlines l 0 + 1).
  rewrite (newlines_none l Hl). cbn [List.length]. lia.
Qed.

Lemma nth_last (buf : list Z) (b : Z) :
  nth (List.length (buf ++ [b]) - 1) (buf ++ [b]) 0 = b.
Proof.
  rewrite length_app. cbn [List.length].
  replace (List.length buf + 1 - 1)%nat with (List.length buf) by lia.
  rewrite app_nth2 by lia. now rewrite Nat.sub_diag.
Qed.

(** [countLines] counts the lines of a file: for a file made of lines
    that each end in a line feed, followed by a rest without line feed,
    it gives the number of those lines, plus one when the rest is not
    empty.  A file that cannot be read counts 0 lines. *)
Theorem countLines_lines (filePath : string) (ls : list (list Z)) (rest : list Z) :
  Forall (Forall (fun b => b <> 10)) ls ->
  Forall (fun b => b <> 10) rest ->
  readFileSync filePath = Returned (List.concat (map (fun l => l ++ [10]) ls) ++ rest) ->
  countLines filePath =
    Z.of_nat (List.length ls) + (match rest with [] => 0 | _ => 1 end).
Proof.
  intros Hls Hrest Hread. unfold Inspect.countLines. rewrite Hread.
  rewrite fold_left_app, newlines_from, (newlines_lines ls Hls),
          (newlines_none rest Hrest), Z.add_0_r.
  destruct rest as [|b rest'] using rev_ind.
  - rewrite app_nil_r.
    destruct ls as [|l ls'] using rev_ind; [reflexivity|].
    rewrite map_app, concat_app. cbn [map List.concat]. rewrite app_nil_r, app_assoc.
    rewrite nth_last. cbn [Z.eqb negb]. rewrite andb_false_r. lia.
  - clear IHrest'. rewrite app_assoc, nth_last.
    apply Forall_app in Hrest as [_ Hb]. inversion Hb as [|? ? Hb10 _]; subst.
    destruct (Z.eqb_spec b 10); [contradiction|]. cbn [negb].
    rewrite length_app. cbn [List.length].
    destruct (Z.gtb_spec (Z.of_nat (List.length (List.concat (map (fun l => l ++ [10]) ls) ++ rest') + 1)) 0);
      [|lia].
    cbn [andb]. destruct (rest' ++ [b]) eqn:E; [now destruct rest' | reflexivity].
Qed.

Lemma countLines_unreadable (filePath : string) (e : exn) :
  readFileSync filePath = Thrown e -> countLines filePath = 0.
Proof. intros H. unfold Inspect.countLines. now rewrite H. Qed.

End Files.

Lemma countLines_lines_witness :
  countLines (fun _ => Returned [97; 10; 98; 99; 10; 100]) "session.jsonl" = 3.
Proof.
  apply (countLines_lines (fun _ => Returned [97; 10; 98; 99; 10; 100])
           "session.jsonl" [[97]; [98; 99]] [100]).
  - repeat constructor; lia.
  - repeat constructor; lia.
  - reflexivity.
Defined.

Section Counting.

Context {K : Type}.
Variable eqb : K -> K -> bool.
Hypothesis eqb_spec : forall a b, eqb a b = true <-> a = b.

Lemma eqb_same (a : K) : eqb a a = true.
Proof. now apply eqb_spec. Qed.

Lemma or_zero_id (n : Z) : (if n =? 0 then 0 else n) = n.
Proof. destruct (Z.eqb_spec n 0); congruence. Qed.

Lemma sum_cons (k : K) (n : Z) (m : counters) : sum ((k, n) :: m) = n + sum m.
Proof.
  unfold sum. cbn [map snd fold_left].
  generalize (map snd m). intros l. replace (0 + n) with n by lia.
  revert n. induction l as [|x l IH]; intros n; cbn [fold_left]; [lia|].
  rewrite IH, (IH (0 + x)). lia.
Qed.

Lemma sum_put (key : K) (n : Z) (m : counters) :
  sum (put eqb key n m) = sum m + n - counter eqb key m.
Proof.
  induction m as [|[k n'] m IH]; cbn [put counter].
  - rewrite sum_cons. unfold sum. cbn. lia.
  - destruct (eqb k key).
    + rewrite !sum_cons, or_zero_id. lia.
    + rewrite !sum_cons, IH. lia.
Qed.

Lemma sum_bump (key : K) (m : counters) : sum (bump eqb key m) = sum m + 1.
Proof. unfold bump. rewrite sum_put. lia. Qed.

Lemma counter_put (key key' : K) (n : Z) (m : counters) :
  counter eqb key (put eqb key' n m) = if eqb key' key then n else counter eqb key m.
Proof.
  induction m as [|[k n'] m IH]; cbn [put counter].
  - rewrite or_zero_id. reflexivity.
  - destruct (eqb k key') eqn:E.
    + apply eqb_spec in E. subst k. cbn [counter].
      destruct (eqb key' key); [apply or_zero_id | reflexivity].
    + cbn [counter]. destruct (eqb k key) eqn:E'; [|exact IH].
      destruct (eqb key' key) eqn:E2; [|reflexivity].
      apply eqb_spec in E', E2. subst. rewrite eqb_same in E. discriminate.
Qed.

Lemma counter_bump (key key' : K) (m : counters) :
  counter eqb key (bump eqb key' m) =
  counter eqb key m + (if eqb key' key then 1 else 0).
Proof.
  unfold bump. rewrite counter_put. destruct (eqb key' key) eqn:E; [|lia].
  apply eqb_spec in E. now subst.
Qed.

End Counting.

Lemma label_eqb_spec (a b : Label) : label_eqb a b = true <-> a = b.
Proof.
  destruct a as [s|s], b as [t|t]; cbn [label_eqb];
    rewrite ?String.eqb_eq; split; congruence.
Qed.

Lemma occurrences_app {A : Type} (p : A -> bool) (l1 l2 : list A) :
  occurrences p (l1 ++ l2) = occurrences p l1 + occurrences p l2.
Proof. unfold occurrences. rewrite filter_app, length_app. lia. Qed.

Lemma occurrences_cons {A : Type} (p : A -> bool) (x : A) (l : list A) :
  occurrences p (x :: l) = (if p x then 1 else 0) + occurrences p l.
Proof.
  unfold occurrences. cbn [filter]. destruct (p x); cbn [List.length]; lia.
Qed.

Section Analysis.

Variable classifyToolName : string -> string.

Local Abbreviation block_step := (block_step classifyToolName).
Local Abbreviation message_step := (message_step classifyToolName).
Local Abbreviation analyzeRawMessages := (analyzeRawMessages classifyToolName).
Local Abbreviation classified := (classified classifyToolName).

Local Abbreviation typed t :=
  (fun b : RawBlock => String.eqb (or_else (block_type b) "unknown") t).
Local Abbreviation labelled l :=
  (fun b : RawBlock =>
     classified b && label_eqb (labelOf (classifyToolName (block_name b))) l).
Local Abbreviation of_type t :=
  (fun msg : RawMessage => String.eqb (or_else (msg_type msg) "unknown") t).

(** The maps after the blocks of a message. *)
Lemma blocks_fold (content : list RawBlock) : forall m,
  let m' := fold_left block_step content m in
  eventMap m' = eventMap m /\ found_model m' = found_model m /\
  sum (blockMap m') = sum (blockMap m) + Z.of_nat (List.length content) /\
  sum (toolMap m') = sum (toolMap m) + occurrences classified content /\
  (forall t, counter String.eqb t (blockMap m') =
             counter String.eqb t (blockMap m) + occurrences (typed t) content) /\
  (forall l, counter label_eqb l (toolMap m') =
             counter label_eqb l (toolMap m) + occurrences (labelled l) content).
Proof.
  induction content as [|b content IH]; intros m; cbn [fold_left].
  - unfold occurrences. cbn. repeat split; intros; lia.
  - destruct (IH (block_step m b)) as [He [Hf [Hb [Ht [Hbt Htl]]]]].
    cbn zeta. rewrite He, Hf, Hb, Ht.
    split; [reflexivity|]. split; [reflexivity|].
    assert (Htool : toolMap (block_step m b) =
                    if classified b
                    then bump label_eqb (labelOf (classifyToolName (block_name b)))
                           (toolMap m)
                    else toolMap m).
    { unfold Inspect.block_step, Inspect.classified. cbn [toolMap].
      destruct (String.eqb (or_else (block_type b) "unknown") "tool_use" &&
                negb (String.eqb (block_name b) "")); cbn [andb]; [|reflexivity].
      destruct (negb (String.eqb (classifyToolName (block_name b)) "")); reflexivity. }
    split; [|split; [|split]].
    + unfold Inspect.block_step at 1. cbn [blockMap]. rewrite sum_bump.
      cbn [List.length]. lia.
    + rewrite occurrences_cons, Htool.
      destruct (classified b); [rewrite sum_bump|]; lia.
    + intros t. rewrite Hbt, occurrences_cons.
      unfold Inspect.block_step at 1. cbn [blockMap].
      rewrite (counter_bump String.eqb String.eqb_eq). lia.
    + intros l. rewrite Htl, occurrences_cons, Htool.
      destruct (classified b); cbn [andb];
        [rewrite (counter_bump label_eqb label_eqb_spec)|]; lia.
Qed.

(** The maps after the messages. *)
Lemma messages_fold (messages : list RawMessage) : forall m,
  let m' := fold_left message_step messages m in
  let all := allBlocks messages in
  found_model m' =
    (if String.eqb (found_model m) "" then first_model messages else found_model m) /\
  sum (eventMap m') = sum (eventMap m) + Z.of_nat (List.length messages) /\
  sum (blockMap m') = sum (blockMap m) + Z.of_nat (List.length all) /\
  sum (toolMap m') = sum (toolMap m) + occurrences classified all /\
  (forall t, counter String.eqb t (eventMap m') =
             counter String.eqb t (eventMap m) + occurrences (of_type t) messages) /\
  (forall t, counter String.eqb t (blockMap m') =
             counter String.eqb t (blockMap m) + occurrences (typed t) all) /\
  (forall l, counter label_eqb l (toolMap m') =
             counter label_eqb l (toolMap m) + occurrences (labelled l) all).
Proof.
  induction messages as [|msg messages IH]; intros m; cbn [fold_left].
  - unfold occurrences, first_model. cbn.
    split; [now destruct (String.eqb (found_model m) "") eqn:E;
            [apply String.eqb_eq in E|]|].
    repeat split; intros; lia.
  - destruct (IH (message_step m msg)) as [Hf [He [Hb [Ht [Het [Hbt Htl]]]]]].
    cbn zeta. rewrite Hf, He, Hb, Ht. clear IH Hf He Hb Ht.
    unfold allBlocks. cbn [flat_map]. fold (allBlocks messages).
    set (m1 := {| eventMap := bump String.eqb (or_else (msg_type msg) "unknown") (eventMap m);
                  blockMap := blockMap m; toolMap := toolMap m;
                  found_model :=
                    if String.eqb (found_model m) "" &&
                       negb (String.eqb (msg_model msg) "")
                    then msg_model msg else found_model m |}).
    assert (Hstep : message_step m msg = fold_left block_step (blocksOf msg) m1).
    { unfold Inspect.message_step, blocksOf. fold m1.
      destruct (msg_content msg); reflexivity. }
    destruct (blocks_fold (blocksOf msg) m1) as [He [Hf [Hb [Ht [Hbt' Htl']]]]].
    rewrite <- Hstep in He, Hf, Hb, Ht, Hbt', Htl'. cbn zeta in *.
    rewrite He, Hf, Hb, Ht. cbn [m1 eventMap blockMap toolMap found_model].
    rewrite length_app, !occurrences_app.
    split; [|split; [|split; [|split; [|split; [|split]]]]].
    + unfold first_model. cbn [map filter].
      destruct (String.eqb (found_model m) "") eqn:Em; cbn [andb].
      * destruct (String.eqb (msg_model msg) "") eqn:Emsg; cbn [negb].
        -- rewrite Em. reflexivity.
        -- rewrite Emsg. reflexivity.
      * rewrite Em. reflexivity.
    + rewrite sum_bump. cbn [List.length]. lia.
    + lia.
    + lia.
    + intros t. rewrite Het, He. cbn [m1 eventMap].
      rewrite (counter_bump String.eqb String.eqb_eq), occurrences_cons. lia.
    + intros t. rewrite Hbt, Hbt'. cbn [m1 blockMap]. rewrite occurrences_app. lia.
    + intros l. rewrite Htl, Htl'. cbn [m1 toolMap]. rewrite occurrences_app. lia.
Qed.

(** The totals of the analysis: the counters of the events add up to the
    number of messages, the total of the blocks is the number of blocks of
    the messages whose content is an array, the total of the tools is the
    number of tool calls that have a name and a category, and the model is
    the first one that a message names. *)
Theorem analyzeRawMessages_totals (messages : list RawMessage) :
  let a := analyzeRawMessages messages in
  sum (byType _ (events a)) = total _ (events a) /\
  total _ (events a) = Z.of_nat (List.length messages) /\
  total _ (blocks a) = Z.of_nat (List.length (allBlocks messages)) /\
  total _ (tools a) = occurrences classified (allBlocks messages) /\
  model a = first_model messages.
Proof.
  destruct (messages_fold messages
              {| eventMap := []; blockMap := []; toolMap := []; found_model := "" |})
    as [Hf [He [Hb [Ht _]]]].
  cbn zeta in *. unfold Inspect.analyzeRawMessages.
  cbn [events blocks tools model byType total eventMap blockMap toolMap found_model] in *.
  rewrite Hf, He, Hb, Ht. unfold sum. cbn. auto.
Qed.

(** The counters of the analysis, key by key: a type of event counts the
    messages of that type, a type of block the blocks of that type - a
    missing type and the type [unknown] count together - and a label the
    classified tool calls whose category has that label. *)
Theorem analyzeRawMessages_counters (messages : list RawMessage) :
  let a := analyzeRawMessages messages in
  (forall t, counter String.eqb t (byType _ (events a)) =
             occurrences (of_type t) messages) /\
  (forall t, counter String.eqb t (byType _ (blocks a)) =
             occurrences (typed t) (allBlocks messages)) /\
  (forall l, counter label_eqb l (byType _ (tools a)) =
             occurrences (labelled l) (allBlocks messages)).
Proof.
  destruct (messages_fold messages
              {| eventMap := []; blockMap := []; toolMap := []; found_model := "" |})
    as [_ [_ [_ [_ [Het [Hbt Htl]]]]]].
  cbn zeta in *. unfold Inspect.analyzeRawMessages.
  cbn [events blocks tools byType eventMap blockMap toolMap] in *.
  repeat split; intros; [rewrite Het | rewrite Hbt | rewrite Htl]; reflexivity.
Qed.

End Analysis.

End InspectProps.
